(** * Scribe: the YouTube transcript pipeline, verified against its specification

    A shallow embedding of the transcript client of the Scribe MCP server
    (identifier resolution, transcript-token codec, API error classification,
    segment parsing, output formatting, language listing and the
    [transcribeVideo] orchestration), followed by the theorems that settle
    the specification's claims about it. The registry of content
    providers, the tool [extract_content], the input tests of the PDF,
    article and chat providers, [slugify], [stripHtml], the session key
    and the fetching of several conversations are embedded as well, with
    further properties of all of this code after the claims.

    Conventions of the embedding.
    - A JavaScript string is a Rocq [string] holding the UTF-8 encoding of
      its text, so [Buffer.from(s, "utf8")] is the list of its characters.
      Strings of the pipeline (identifiers, URLs, language codes, tokens)
      are ASCII, where a character and a UTF-16 code unit coincide.
    - A [Buffer] is a [list ascii] (one [ascii] per byte).
    - A JavaScript number is [NaN] or an integer [Num z]; only integers
      arise in the code modelled here (they come from [parseInt]). The
      arithmetic is that of the integers: it is the arithmetic of the
      doubles of the code as long as the operands and the result are
      below 2^53 in magnitude, and the theorems that speak of the values
      carry this bound.
    - A thrown exception is the [Err] case of [Result]; the two network
      calls are given by a [World] of their outcomes. *)

From Stdlib Require Import Bool Arith ZArith List String Ascii Lia ZifyNat.
Import ListNotations.
Local Open Scope string_scope.
Local Open Scope list_scope.
Local Open Scope nat_scope.

Infix "+++" := String.append (right associativity, at level 60).

(** ** Characters and strings *)

Definition code (c : ascii) : nat := nat_of_ascii c.
Definition byte (n : nat) : ascii := ascii_of_nat (n mod 256).
Definition bytes (l : list nat) : string := string_of_list_ascii (map byte l).

Definition in_range (lo hi : nat) (c : ascii) : bool :=
  (lo <=? code c) && (code c <=? hi).
Definition is_upper (c : ascii) : bool := in_range 65 90 c.
Definition is_lower (c : ascii) : bool := in_range 97 122 c.
Definition is_digit (c : ascii) : bool := in_range 48 57 c.
Definition is_alpha (c : ascii) : bool := is_upper c || is_lower c.
Definition is_alnum (c : ascii) : bool := is_alpha c || is_digit c.
Definition is_ascii (c : ascii) : bool := code c <=? 127.

(** [one_of set c]: [c] occurs in the string [set]. *)
Fixpoint one_of (set : string) (c : ascii) : bool :=
  match set with
  | EmptyString => false
  | String d set' => (c =? d)%char || one_of set' c
  end.

Fixpoint str_forallb (p : ascii -> bool) (s : string) : bool :=
  match s with
  | EmptyString => true
  | String c s' => p c && str_forallb p s'
  end.

Fixpoint str_map (f : ascii -> ascii) (s : string) : string :=
  match s with
  | EmptyString => EmptyString
  | String c s' => String (f c) (str_map f s')
  end.

Fixpoint str_rev_onto (s acc : string) : string :=
  match s with
  | EmptyString => acc
  | String c s' => str_rev_onto s' (String c acc)
  end.
Definition str_rev (s : string) : string := str_rev_onto s EmptyString.

Fixpoint str_drop (n : nat) (s : string) : string :=
  match n, s with
  | S n', String _ s' => str_drop n' s'
  | _, _ => s
  end.

Fixpoint str_take (n : nat) (s : string) : string :=
  match n, s with
  | S n', String c s' => String c (str_take n' s')
  | _, _ => EmptyString
  end.

(** [strip_prefix p s]: the rest of [s] after the prefix [p], if [s] starts
    with [p]. *)
Fixpoint strip_prefix (p s : string) : option string :=
  match p with
  | EmptyString => Some s
  | String a p' =>
      match s with
      | String b s' => if (a =? b)%char then strip_prefix p' s' else None
      | EmptyString => None
      end
  end.

(** [String.prototype.startsWith]. *)
Definition startsWith (s p : string) : bool :=
  match strip_prefix p s with Some _ => true | None => false end.

(** [span p s]: the longest prefix of [s] whose characters satisfy [p], and
    what follows it. *)
Fixpoint span (p : ascii -> bool) (s : string) : string * string :=
  match s with
  | EmptyString => (EmptyString, EmptyString)
  | String c s' =>
      if p c then let (a, b) := span p s' in (String c a, b)
      else (EmptyString, s)
  end.

(** [split_on p s]: the pieces of [s] between the characters satisfying [p]
    ([String.prototype.split] with a one-character separator). *)
Fixpoint split_on (p : ascii -> bool) (s : string) : list string :=
  match s with
  | EmptyString => [EmptyString]
  | String c s' =>
      if p c then EmptyString :: split_on p s'
      else match split_on p s' with
           | piece :: rest => String c piece :: rest
           | [] => [String c EmptyString]
           end
  end.

(** [String.prototype.toLowerCase], on the ASCII letters; the case mapping
    of letters outside ASCII is not modelled (they are left as they are). *)
Definition lower_char (c : ascii) : ascii :=
  if is_upper c then byte (code c + 32) else c.
Definition toLowerCase (s : string) : string := str_map lower_char s.

Definition LF : string := String (byte 10) EmptyString.

(** The encodings of the code points that are white space or line
    terminators for [trim], [parseInt] and the class [\s]: TAB, LF, VT, FF,
    CR, SP, U+00A0, U+1680, U+2000..U+200A, U+2028, U+2029, U+202F,
    U+205F, U+3000 and U+FEFF. *)
Definition js_whitespace : list string :=
  map bytes
    ([[9]; [10]; [11]; [12]; [13]; [32]; [194; 160]; [225; 154; 128]]
     ++ map (fun k => [226; 128; 128 + k]) (seq 0 11)
     ++ [[226; 128; 168]; [226; 128; 169]; [226; 128; 175];
         [226; 129; 159]; [227; 128; 128]; [239; 187; 191]]).

(** [strip_any pats s]: [s] without the first of [pats] that it starts
    with. *)
Fixpoint strip_any (pats : list string) (s : string) : option string :=
  match pats with
  | [] => None
  | p :: pats' =>
      match strip_prefix p s with
      | Some r => Some r
      | None => strip_any pats' s
      end
  end.

Fixpoint drop_leading (pats : list string) (fuel : nat) (s : string) : string :=
  match fuel with
  | O => s
  | S fuel' =>
      match strip_any pats s with
      | Some r => drop_leading pats fuel' r
      | None => s
      end
  end.

Definition trimStart (s : string) : string :=
  drop_leading js_whitespace (String.length s) s.
Definition trimEnd (s : string) : string :=
  str_rev (drop_leading (map str_rev js_whitespace) (String.length s) (str_rev s)).
(** [String.prototype.trim]. *)
Definition trim (s : string) : string := trimEnd (trimStart s).

(** [first_match m s]: the leftmost position of [s] at which the matcher
    [m] succeeds, with its result (an unanchored regular-expression
    search). *)
Fixpoint first_match {A} (m : string -> option A) (s : string) : option A :=
  match m s with
  | Some r => Some r
  | None =>
      match s with
      | EmptyString => None
      | String _ s' => first_match m s'
      end
  end.

(** ** Buffers *)

Definition Buffer := list ascii.

Definition Buffer_from_utf8 (s : string) : Buffer := list_ascii_of_string s.
(** [Buffer.from([n1, n2, ...])]: each number is taken modulo 256. *)
Definition Buffer_from_array (l : list nat) : Buffer := map byte l.
Definition Buffer_concat (l : list Buffer) : Buffer := List.concat l.

Fixpoint index_of (v : ascii) (b : Buffer) : option nat :=
  match b with
  | [] => None
  | x :: b' => if (x =? v)%char then Some 0
               else option_map S (index_of v b')
  end.
(** [buf.indexOf(value, byteOffset)], with [None] for -1. *)
Definition Buffer_indexOf (v : ascii) (byteOffset : nat) (b : Buffer) : option nat :=
  option_map (fun i => byteOffset + i) (index_of v (skipn byteOffset b)).
(** [buf.subarray(start, end)]; both ends are clamped to the buffer. *)
Definition Buffer_subarray (start stop : nat) (b : Buffer) : Buffer :=
  firstn (stop - start) (skipn start b).

(** *** UTF-8 decoding ([buf.toString("utf8")])
    The decoder of the Encoding standard: a well-formed sequence is kept,
    every maximal ill-formed part becomes U+FFFD. The state is the part of
    a sequence read so far, the number of bytes it still needs and the
    range allowed for the next byte. *)
Definition U_FFFD : list ascii := [byte 239; byte 191; byte 189].

Definition utf8_state : Type := option (list ascii * nat * nat * nat).

Definition utf8_lead (b : ascii) : list ascii * utf8_state :=
  let n := code b in
  if n <=? 127 then ([b], None)
  else if (194 <=? n) && (n <=? 223) then ([], Some ([b], 1, 128, 191))
  else if (224 <=? n) && (n <=? 239) then
    ([], Some ([b], 2, if n =? 224 then 160 else 128,
                       if n =? 237 then 159 else 191))
  else if (240 <=? n) && (n <=? 244) then
    ([], Some ([b], 3, if n =? 240 then 144 else 128,
                       if n =? 244 then 143 else 191))
  else (U_FFFD, None).

Fixpoint utf8_run (st : utf8_state) (bs : list ascii) : list ascii :=
  match bs with
  | [] => match st with None => [] | Some _ => U_FFFD end
  | b :: bs' =>
      match st with
      | None => let (out, st') := utf8_lead b in out ++ utf8_run st' bs'
      | Some (pend, need, lo, hi) =>
          if (lo <=? code b) && (code b <=? hi) then
            match need with
            | 0 | 1 => (pend ++ [b]) ++ utf8_run None bs'
            | S need' => utf8_run (Some (pend ++ [b], need', 128, 191)) bs'
            end
          else let (out, st') := utf8_lead b in
               U_FFFD ++ out ++ utf8_run st' bs'
      end
  end.

Definition utf8_decode (bs : list ascii) : string :=
  string_of_list_ascii (utf8_run None bs).
Definition Buffer_toString_utf8 (b : Buffer) : string := utf8_decode b.

(** [utf8_wellformed bs]: [bs] is exactly one well-formed multi-byte
    sequence. *)
Definition utf8_wellformed (bs : list ascii) : bool :=
  match bs with
  | b :: rest =>
      match utf8_lead b with
      | (_, Some (_, need, lo, hi)) =>
          (List.length rest =? need)
          && match rest with
             | c :: rest' =>
                 in_range lo hi c && forallb (in_range 128 191) rest'
             | [] => false
             end
      | _ => false
      end
  | [] => false
  end.

(** *** Base64
    [buf.toString("base64")] is the padded encoding of RFC 4648.
    [Buffer.from(s, "base64")] is Node's lenient decoder: it accepts the
    standard and the URL-safe alphabet, skips every other character, and
    stops at the first [=]. A byte is produced as soon as the sextets that
    make it up have been read. *)
Definition b64_alphabet : string :=
  "ABCDEFGHIJKLMNOPQRSTUVWXYZabcdefghijklmnopqrstuvwxyz0123456789+/".
Definition b64_char (n : nat) : ascii :=
  match get n b64_alphabet with Some c => c | None => "="%char end.

Fixpoint Buffer_toString_base64 (b : Buffer) : string :=
  match b with
  | [] => EmptyString
  | [x] =>
      String (b64_char (code x / 4))
        (String (b64_char (code x mod 4 * 16)) "==")
  | [x; y] =>
      String (b64_char (code x / 4))
        (String (b64_char (code x mod 4 * 16 + code y / 16))
           (String (b64_char (code y mod 16 * 4)) "="))
  | x :: y :: z :: b' =>
      String (b64_char (code x / 4))
        (String (b64_char (code x mod 4 * 16 + code y / 16))
           (String (b64_char (code y mod 16 * 4 + code z / 64))
              (String (b64_char (code z mod 64))
                 (Buffer_toString_base64 b'))))
  end.

Definition unbase64 (c : ascii) : option nat :=
  if is_upper c then Some (code c - 65)
  else if is_lower c then Some (code c - 71)
  else if is_digit c then Some (code c + 4)
  else if one_of "+-" c then Some 62
  else if one_of "/_" c then Some 63
  else None.

(** [pos] is the position in the current group of four sextets and [hi]
    the sextet read before. *)
Fixpoint base64_decode (pos hi : nat) (s : string) : Buffer :=
  match s with
  | EmptyString => []
  | String c s' =>
      if (c =? "=")%char then []
      else
        match unbase64 c with
        | None => base64_decode pos hi s'
        | Some lo =>
            match pos with
            | 0 => base64_decode 1 lo s'
            | 1 => byte (hi mod 64 * 4 + lo / 16) :: base64_decode 2 lo s'
            | 2 => byte (hi mod 16 * 16 + lo / 4) :: base64_decode 3 lo s'
            | _ => byte (hi mod 4 * 64 + lo) :: base64_decode 0 lo s'
            end
        end
  end.
Definition Buffer_from_base64 (s : string) : Buffer := base64_decode 0 0 s.

(** ** URI component escaping *)

Definition hex_char (n : nat) : ascii :=
  match get n "0123456789ABCDEF" with Some c => c | None => "0"%char end.
Definition hex_val (c : ascii) : option nat :=
  if is_digit c then Some (code c - 48)
  else if in_range 65 70 c then Some (code c - 55)
  else if in_range 97 102 c then Some (code c - 87)
  else None.
Definition percent_escape (c : ascii) : string :=
  String "%" (String (hex_char (code c / 16))
                (String (hex_char (code c mod 16)) EmptyString)).

(** [encodeURIComponent]: everything but letters, digits and
    [- _ . ! ~ * ' ( )] is escaped, byte by byte of its UTF-8 encoding. *)
Definition uri_unreserved (c : ascii) : bool :=
  is_alnum c || one_of "-_.!~*'()" c.
Fixpoint encodeURIComponent (s : string) : string :=
  match s with
  | EmptyString => EmptyString
  | String c s' =>
      if uri_unreserved c then String c (encodeURIComponent s')
      else percent_escape c +++ encodeURIComponent s'
  end.

(** [decodeURIComponent]; [None] is the [URIError] it throws: on a [%]
    that is not followed by two hexadecimal digits, and on escaped bytes
    from 0x80 that do not form, escape after escape, one well-formed
    UTF-8 sequence. [pend] is the part of such a sequence read so far and
    [need] the number of escapes it still needs. *)
Fixpoint uri_decode (pend : list ascii) (need : nat) (s : string) : option string :=
  match s with
  | EmptyString => match need with 0 => Some EmptyString | _ => None end
  | String c s' =>
      if (c =? "%")%char then
        match s' with
        | String h (String l rest) =>
            match hex_val h, hex_val l with
            | Some x, Some y =>
                let b := byte (x * 16 + y) in
                match need with
                | 0 =>
                    if is_ascii b then option_map (String b) (uri_decode [] 0 rest)
                    else
                      match utf8_lead b with
                      | (_, Some (_, n, _, _)) => uri_decode [b] n rest
                      | _ => None
                      end
                | S need' =>
                    let seq := pend ++ [b] in
                    match need' with
                    | 0 =>
                        if utf8_wellformed seq then
                          option_map (append (string_of_list_ascii seq))
                            (uri_decode [] 0 rest)
                        else None
                    | _ => uri_decode seq need' rest
                    end
                end
            | _, _ => None
            end
        | _ => None
        end
      else
        match need with
        | 0 => option_map (String c) (uri_decode [] 0 s')
        | _ => None
        end
  end.
Definition decodeURIComponent (s : string) : option string := uri_decode [] 0 s.

(** ** The transcript-token codec *)

(** Inner message: field 1 empty, field 2 the language code, field 3
    empty; rendered in base64 and then URI-escaped. *)
Definition buildLangProto (langCode : string) : string :=
  let langBytes := Buffer_from_utf8 langCode in
  let inner := Buffer_concat
    [ Buffer_from_array [10; 0];
      Buffer_from_array [18; List.length langBytes];
      langBytes;
      Buffer_from_array [26; 0] ] in
  encodeURIComponent (Buffer_toString_base64 inner).

Definition panelId : string :=
  "engagement-panel-searchable-transcript-search-panel".

Definition buildTranscriptParams (videoId langCode : string) : string :=
  let videoIdBytes := Buffer_from_utf8 videoId in
  let langProtoUrlEncoded := buildLangProto langCode in
  let langProtoBytes := Buffer_from_utf8 langProtoUrlEncoded in
  let panelIdBytes := Buffer_from_utf8 panelId in
  let proto := Buffer_concat
    [ Buffer_from_array [10; List.length videoIdBytes];
      videoIdBytes;
      Buffer_from_array [18; List.length langProtoBytes];
      langProtoBytes;
      Buffer_from_array [24; 1];
      Buffer_from_array [42; List.length panelIdBytes];
      panelIdBytes;
      Buffer_from_array [48; 1; 56; 1; 64; 1] ] in
  Buffer_toString_base64 proto.

(** The [try]/[catch] of the source only ever catches the [URIError] of
    [decodeURIComponent]; every other step is total. A byte read past the
    end of a buffer is [undefined], which the test [!fieldLen] treats like
    a zero length. *)
Definition extractLangFromParams (params : string) : string :=
  let decoded := Buffer_from_base64 params in
  match Buffer_indexOf (byte 18) 12 decoded with
  | None => "en"
  | Some tagPos =>
      match nth_error decoded (tagPos + 1) with
      | None => "en"
      | Some fieldLenByte =>
          let fieldLen := code fieldLenByte in
          if fieldLen =? 0 then "en"
          else
            let innerUrlEncoded :=
              Buffer_toString_utf8
                (Buffer_subarray (tagPos + 2) (tagPos + 2 + fieldLen) decoded) in
            match decodeURIComponent innerUrlEncoded with
            | None => "en"
            | Some innerBase64 =>
                let inner := Buffer_from_base64 innerBase64 in
                match Buffer_indexOf (byte 18) 0 inner with
                | None => "en"
                | Some innerTag =>
                    match nth_error inner (innerTag + 1) with
                    | None => "en"
                    | Some innerLenByte =>
                        let innerLen := code innerLenByte in
                        if innerLen =? 0 then "en"
                        else
                          Buffer_toString_utf8
                            (Buffer_subarray (innerTag + 2)
                               (innerTag + 2 + innerLen) inner)
                    end
                end
            end
      end
  end.

(** ** URLs
    [new URL(s)] is the parser of the URL standard, called without a base;
    [None] is the [TypeError] it throws. The model keeps the three
    components the code reads. It covers the URLs whose scheme is not
    [file] and whose host is a name written in ASCII; a [file] URL, an IP
    literal as host, and a host with a character outside ASCII (which
    needs the IDNA tables) are reported as [None]. Labels in Punycode are
    not validated. *)

Record URL : Type := mkURL
  { hostname : string;
    pathname : string;
    (** the query without its [?]; the percent-encoding that the parser
        applies to it is undone when the search parameters are decoded,
        so the model keeps the text as written *)
    query : string }.

Fixpoint str_filter (p : ascii -> bool) (s : string) : string :=
  match s with
  | EmptyString => EmptyString
  | String c s' => if p c then String c (str_filter p s') else str_filter p s'
  end.

Fixpoint str_existsb (p : ascii -> bool) (s : string) : bool :=
  match s with
  | EmptyString => false
  | String c s' => p c || str_existsb p s'
  end.

Fixpoint str_concat (l : list string) : string :=
  match l with
  | [] => EmptyString
  | s :: l' => s +++ str_concat l'
  end.

Definition nonempty (s : string) : bool :=
  match s with EmptyString => false | _ => true end.

Definition is_c0_or_space (c : ascii) : bool := code c <=? 32.
Definition is_tab_or_newline (c : ascii) : bool :=
  (code c =? 9) || (code c =? 10) || (code c =? 13).

Definition url_clean (s : string) : string :=
  let s1 := snd (span is_c0_or_space s) in
  let s2 := str_rev (snd (span is_c0_or_space (str_rev s1))) in
  str_filter (fun c => negb (is_tab_or_newline c)) s2.

(** Percent-decoding of the URL standard: an escape that is not followed
    by two hexadecimal digits is kept as it is. *)
Fixpoint percent_decode (s : string) : string :=
  match s with
  | EmptyString => EmptyString
  | String c s' =>
      if (c =? "%")%char then
        match s' with
        | String h (String l rest) =>
            match hex_val h, hex_val l with
            | Some x, Some y => String (byte (x * 16 + y)) (percent_decode rest)
            | _, _ => String c (percent_decode s')
            end
        | _ => String c (percent_decode s')
        end
      else String c (percent_decode s')
  end.

Fixpoint percent_encode (set : ascii -> bool) (s : string) : string :=
  match s with
  | EmptyString => EmptyString
  | String c s' =>
      if set c then percent_escape c +++ percent_encode set s'
      else String c (percent_encode set s')
  end.

Definition c0_control_set (c : ascii) : bool := (code c <=? 31) || (127 <=? code c).
Definition path_set (c : ascii) : bool :=
  c0_control_set c || (code c =? 32) || (code c =? 34) || one_of "#<>?^`{}" c.

Definition forbidden_host (c : ascii) : bool :=
  (code c =? 0) || (code c =? 9) || (code c =? 10) || (code c =? 13)
  || (code c =? 32) || one_of "#/:<>?@[\]^|" c.
Definition forbidden_domain (c : ascii) : bool :=
  forbidden_host c || (code c <=? 31) || (c =? "%")%char || (code c =? 127).

Definition special_schemes : list string := ["http"; "https"; "ftp"; "ws"; "wss"].
Definition mem_string (s : string) (l : list string) : bool :=
  existsb (String.eqb s) l.

Definition is_scheme_char (c : ascii) : bool := is_alnum c || one_of "+-." c.

Definition parse_scheme (s : string) : option (string * string) :=
  match s with
  | String c _ =>
      if is_alpha c then
        let (sch, rest) := span is_scheme_char s in
        match strip_prefix ":" rest with
        | Some rest' => Some (toLowerCase sch, rest')
        | None => None
        end
      else None
  | EmptyString => None
  end.

(** The host of an authority, up to the first [:] outside brackets, and
    the port text after that [:], if there is one. *)
Fixpoint split_host_port (inside : bool) (s : string) : string * option string :=
  match s with
  | EmptyString => (EmptyString, None)
  | String c s' =>
      if (c =? ":")%char && negb inside then (EmptyString, Some s')
      else
        let inside' := if (c =? "[")%char then true
                       else if (c =? "]")%char then false else inside in
        let (h, p) := split_host_port inside' s' in (String c h, p)
  end.

Fixpoint decimal_value (s : string) (acc : N) : N :=
  match s with
  | EmptyString => acc
  | String c s' => decimal_value s' (acc * 10 + N.of_nat (code c - 48))%N
  end.

Definition port_ok (p : string) : bool :=
  str_forallb is_digit p && (decimal_value p 0 <=? 65535)%N.

Definition is_hex_digit (c : ascii) : bool :=
  match hex_val c with Some _ => true | None => false end.

Definition ends_in_number (host : string) : bool :=
  let parts := split_on (fun c => (c =? ".")%char) host in
  let parts' := match rev parts with
                | EmptyString :: ((_ :: _) as l) => l
                | l => l
                end in
  match parts' with
  | final :: _ =>
      nonempty final
      && (str_forallb is_digit final
          || match final with
             | String z (String x r) =>
                 (z =? "0")%char && one_of "xX" x && str_forallb is_hex_digit r
             | _ => false
             end)
  | [] => false
  end.

Definition parse_host (special : bool) (input : string) : option string :=
  if startsWith input "[" then None
  else if special then
    let domain := percent_decode input in
    if negb (str_forallb is_ascii domain) then None
    else
      let asciiDomain := toLowerCase domain in
      if negb (nonempty asciiDomain) then None
      else if str_existsb forbidden_domain asciiDomain then None
      else if ends_in_number asciiDomain then None
      else Some asciiDomain
  else
    if str_existsb forbidden_host input then None
    else Some (percent_encode c0_control_set input).

Definition is_single_dot (seg : string) : bool :=
  mem_string (toLowerCase seg) ["."; "%2e"].
Definition is_double_dot (seg : string) : bool :=
  mem_string (toLowerCase seg) [".."; ".%2e"; "%2e."; "%2e%2e"].

(** The path state: [segs] are the segments still to read, [path] the
    path built so far. *)
Fixpoint path_state (segs path : list string) : list string :=
  match segs with
  | [] => path
  | seg :: rest =>
      let final := match rest with [] => true | _ => false end in
      let path' :=
        if is_double_dot seg then
          removelast path ++ (if final then [EmptyString] else [])
        else if is_single_dot seg then
          path ++ (if final then [EmptyString] else [])
        else path ++ [percent_encode path_set seg] in
      path_state rest path'
  end.

Definition serialize_path (path : list string) : string :=
  str_concat (map (fun seg => "/" +++ seg) path).

Definition parse_path (special : bool) (text : string) : string :=
  let is_sep := fun c => (c =? "/")%char || (special && (c =? "\")%char) in
  match text with
  | EmptyString =>
      if special then serialize_path (path_state [EmptyString] []) else EmptyString
  | String c text' =>
      let body := if is_sep c then text' else text in
      serialize_path (path_state (split_on is_sep body) [])
  end.

Definition parse_query (rest : string) : string :=
  match strip_prefix "?" rest with
  | Some q => fst (span (fun c => negb (c =? "#")%char) q)
  | None => EmptyString
  end.

Definition parse_authority (special : bool) (s : string) : option URL :=
  let is_end := fun c =>
    one_of "/?#" c || (special && (c =? "\")%char) in
  let (authority, rest) := span (fun c => negb (is_end c)) s in
  let pieces := split_on (fun c => (c =? "@")%char) authority in
  let hostport := last pieces EmptyString in
  let atSignSeen := 1 <? List.length pieces in
  if atSignSeen && negb (nonempty hostport) then None
  else
    let (host, port) := split_host_port false hostport in
    let port_fine := match port with
                     | Some p => nonempty host && port_ok p
                     | None => negb special || nonempty host
                     end in
    if negb port_fine then None
    else
      match (if nonempty host then parse_host special host else Some EmptyString) with
      | None => None
      | Some h =>
          let (pathText, rest') := span (fun c => negb (one_of "?#" c)) rest in
          Some (mkURL h (parse_path special pathText) (parse_query rest'))
      end.

Definition URL_parse (input : string) : option URL :=
  match parse_scheme (url_clean input) with
  | None => None
  | Some (scheme, rest) =>
      if (scheme =? "file")%string then None
      else if mem_string scheme special_schemes then
        parse_authority true (snd (span (one_of "/\") rest))
      else
        match strip_prefix "//" rest with
        | Some rest' => parse_authority false rest'
        | None =>
            let (pathText, rest') := span (fun c => negb (one_of "?#" c)) rest in
            Some (mkURL EmptyString
                    (if startsWith pathText "/" then parse_path false pathText
                     else percent_encode c0_control_set pathText)
                    (parse_query rest'))
        end
  end.

(** [url.searchParams.get(name)]: the query is read as
    [application/x-www-form-urlencoded]. *)
Definition form_decode (s : string) : string :=
  utf8_decode
    (list_ascii_of_string
       (percent_decode (str_map (fun c => if (c =? "+")%char then " "%char else c) s))).

Definition form_pair (piece : string) : string * string :=
  let (n, r) := span (fun c => negb (c =? "=")%char) piece in
  (form_decode n, form_decode (str_drop 1 r)).

Definition searchParams (q : string) : list (string * string) :=
  map form_pair (filter nonempty (split_on (fun c => (c =? "&")%char) q)).

Definition searchParams_get (name : string) (q : string) : option string :=
  option_map snd (find (fun nv => (fst nv =? name)%string) (searchParams q)).

(** ** Video identifiers *)

Definition is_id_char (c : ascii) : bool := is_alnum c || one_of "_-" c.

(** [/^[a-zA-Z0-9_-]{11}$/.test(s)] *)
Definition test_video_id (s : string) : bool :=
  (String.length s =? 11) && str_forallb is_id_char s.

(** The group [([a-zA-Z0-9_-]{11})] matched at the start of [s]. *)
Definition take_id (s : string) : option string :=
  let t := str_take 11 s in
  if test_video_id t then Some t else None.

(** The first alternative of [alts] after which [k] matches. *)
Fixpoint alternatives {A} (alts : list string) (k : string -> option A)
    (s : string) : option A :=
  match alts with
  | [] => None
  | a :: alts' =>
      match (match strip_prefix a s with Some r => k r | None => None end) with
      | Some x => Some x
      | None => alternatives alts' k s
      end
  end.

(** [/^\/(shorts|embed|v)\/([a-zA-Z0-9_-]{11})/], group 2 *)
Definition match_path_id (pathname : string) : option string :=
  match strip_prefix "/" pathname with
  | Some r => alternatives ["shorts"; "embed"; "v"]
                (fun r' => match strip_prefix "/" r' with
                           | Some r'' => take_id r''
                           | None => None
                           end) r
  | None => None
  end.

(** [/(?:v=|\/(?:embed|v|shorts)\/)([a-zA-Z0-9_-]{11})/], group 1 *)
Definition match_last_resort (s : string) : option string :=
  first_match
    (fun t =>
       match (match strip_prefix "v=" t with Some r => take_id r | None => None end) with
       | Some x => Some x
       | None =>
           match strip_prefix "/" t with
           | Some r => alternatives ["embed"; "v"; "shorts"]
                         (fun r' => match strip_prefix "/" r' with
                                    | Some r'' => take_id r''
                                    | None => None
                                    end) r
           | None => None
           end
       end) s.

(** [hostname.replace(/^www\./, "")] *)
Definition strip_www (h : string) : string :=
  match strip_prefix "www." h with Some r => r | None => h end.

(** What the [try] block returns, if it returns. *)
Definition id_from_url (url : URL) : option string :=
  let hostname := strip_www (hostname url) in
  let fromShort :=
    if (hostname =? "youtu.be")%string then
      let id := hd EmptyString
                  (split_on (fun c => (c =? "/")%char) (str_drop 1 (pathname url))) in
      if nonempty id && test_video_id id then Some id else None
    else None in
  match fromShort with
  | Some id => Some id
  | None =>
      if (hostname =? "youtube.com")%string || (hostname =? "m.youtube.com")%string then
        let fromQuery :=
          match searchParams_get "v" (query url) with
          | Some v => if nonempty v && test_video_id v then Some v else None
          | None => None
          end in
        match fromQuery with
        | Some v => Some v
        | None => match_path_id (pathname url)
        end
      else None
  end.

Definition extractVideoId (input : string) : option string :=
  let trimmed := trim input in
  if test_video_id trimmed then Some trimmed
  else
    let fromUrl :=
      match URL_parse (if startsWith trimmed "http" then trimmed
                       else "https://" +++ trimmed) with
      | Some url => id_from_url url
      | None => None
      end in
    match fromUrl with
    | Some id => Some id
    | None => match_last_resort trimmed
    end.

(** ** JSON documents *)

#[warnings="-register-all"] Inductive json : Type :=
  | JNull
  | JBool (b : bool)
  | JNumber (text : string)  (** a number, by its JSON text *)
  | JString (s : string)
  | JArray (items : list json)
  | JObject (fields : list (string * json)).

Definition QUOTE : string := String (byte 34) EmptyString.

(** The escapes of [JSON.stringify] inside a string. *)
Definition json_escape_char (c : ascii) : string :=
  let n := code c in
  if n =? 34 then "\" +++ QUOTE
  else if n =? 92 then "\\"
  else if n =? 8 then "\b"
  else if n =? 12 then "\f"
  else if n =? 10 then "\n"
  else if n =? 13 then "\r"
  else if n =? 9 then "\t"
  else if n <=? 31 then
    "\u00" +++ String (lower_char (hex_char (n / 16)))
                 (String (lower_char (hex_char (n mod 16))) EmptyString)
  else String c EmptyString.

Fixpoint json_escape (s : string) : string :=
  match s with
  | EmptyString => EmptyString
  | String c s' => json_escape_char c +++ json_escape s'
  end.

Definition json_quote (s : string) : string := QUOTE +++ json_escape s +++ QUOTE.

(** [JSON.stringify(j)]; the fields of an object are in its property
    order. *)
Fixpoint JSON_stringify (j : json) : string :=
  match j with
  | JNull => "null"
  | JBool true => "true"
  | JBool false => "false"
  | JNumber text => text
  | JString s => json_quote s
  | JArray items =>
      "[" +++ (fix go (l : list json) : string :=
                 match l with
                 | [] => EmptyString
                 | [x] => JSON_stringify x
                 | x :: l' => JSON_stringify x +++ "," +++ go l'
                 end) items +++ "]"
  | JObject fields =>
      "{" +++ (fix go (l : list (string * json)) : string :=
                 match l with
                 | [] => EmptyString
                 | [(k, v)] => json_quote k +++ ":" +++ JSON_stringify v
                 | (k, v) :: l' =>
                     json_quote k +++ ":" +++ JSON_stringify v +++ "," +++ go l'
                 end) fields +++ "}"
  end.

(** [j?.key]: the property of an object; [None] is [undefined]. *)
Definition json_get (key : string) (j : option json) : option json :=
  match j with
  | Some (JObject fields) =>
      option_map snd (find (fun kv => (fst kv =? key)%string) fields)
  | _ => None
  end.

(** ** The documents of the page and of the API *)

Record TextRun : Type := mkTextRun { run_text : option string }.

Record AttributedString : Type := mkAttributedString { content : option string }.

Record Snippet : Type := mkSnippet
  { elementsAttributedString : option AttributedString;
    runs : option (list TextRun) }.

Record TranscriptSegmentRenderer : Type := mkRenderer
  { r_startMs : option string;
    r_endMs : option string;
    snippet : option Snippet }.

Record TranscriptSegmentItem : Type := mkItem
  { transcriptSegmentRenderer : option TranscriptSegmentRenderer }.

Record Overwrite : Type := mkOverwrite
  { initialSegments : option (list TranscriptSegmentItem) }.
Record TransformTranscriptSegmentListArguments : Type := mkTransformArgs
  { overwrite : option Overwrite }.
Record CommandArguments : Type := mkCommandArguments
  { transformTranscriptSegmentListArguments :
      option TransformTranscriptSegmentListArguments }.
Record TransformEntityCommand : Type := mkTransformEntityCommand
  { arguments : option CommandArguments }.
Record ElementsCommand : Type := mkElementsCommand
  { transformEntityCommand : option TransformEntityCommand }.
Record Action : Type := mkAction
  { elementsCommand : option ElementsCommand }.

Record TranscriptApiResponse : Type := mkApiResponse
  { actions : option (list Action) }.

Record TrackName : Type := mkTrackName { simpleText : option string }.

Record CaptionTrack : Type := mkCaptionTrack
  { baseUrl : string;
    languageCode : string;
    kind : option string;
    name : option TrackName }.

Record TracklistRenderer : Type := mkTracklistRenderer
  { captionTracks : option (list CaptionTrack) }.
Record Captions : Type := mkCaptions
  { playerCaptionsTracklistRenderer : option TracklistRenderer }.
Record PlayabilityStatus : Type := mkPlayabilityStatus
  { status : option string;
    reason : option string }.

Record PlayerResponse : Type := mkPlayerResponse
  { captions : option Captions;
    playabilityStatus : option PlayabilityStatus }.

(** An engagement panel is any JSON object; [InitialData] is read only
    through its panels. *)
Record InitialData : Type := mkInitialData
  { engagementPanels : option (list json) }.

Record PageData : Type := mkPageData
  { playerResponse : option PlayerResponse;
    initialData : option InitialData;
    visitorData : option string;
    clientVersion : string;
    cookies : string }.

(** ** Numbers *)

Inductive number : Type :=
  | NaN
  | Num (z : Z).

(** [a - b] and [a + b], exact while the operands and the result are
    below 2^53 in magnitude. *)
Definition num_sub (a b : number) : number :=
  match a, b with Num x, Num y => Num (x - y) | _, _ => NaN end.
Definition num_add (a b : number) : number :=
  match a, b with Num x, Num y => Num (x + y) | _, _ => NaN end.
(** [Math.floor(a / d)] for a positive integer constant [d], exact
    while [a] is below 2^53 in magnitude. *)
Definition num_floor_div (a : number) (d : Z) : number :=
  match a with Num x => Num (x / d) | NaN => NaN end.
(** [a % d]: the remainder has the sign of [a]. *)
Definition num_rem (a : number) (d : Z) : number :=
  match a with Num x => Num (Z.rem x d) | NaN => NaN end.

Definition digit_char (n : nat) : ascii := byte (48 + n).

(** The decimal digits of [n]; [fuel] bounds their number. *)
Fixpoint nat_digits (fuel n : nat) : string :=
  match fuel with
  | O => EmptyString
  | S fuel' =>
      if n <? 10 then String (digit_char n) EmptyString
      else nat_digits fuel' (n / 10) +++ String (digit_char (n mod 10)) EmptyString
  end.
Definition String_of_nat (n : nat) : string := nat_digits (S n) n.

(** [String(n)] *)
Definition String_of_number (n : number) : string :=
  match n with
  | NaN => "NaN"
  | Num z =>
      if (z <? 0)%Z then "-" +++ String_of_nat (Z.abs_nat z)
      else String_of_nat (Z.abs_nat z)
  end.

Fixpoint repeat_char (c : ascii) (n : nat) : string :=
  match n with
  | O => EmptyString
  | S n' => String c (repeat_char c n')
  end.
(** [s.padStart(len, "0")] *)
Definition padStart0 (s : string) (len : nat) : string :=
  repeat_char "0" (len - String.length s) +++ s.

(** [parseInt(s, 10)]: the integer that the digits denote, which is the
    result of the code while it is below 2^53 in magnitude (beyond, the
    code rounds it to a double). *)
Definition parseInt (s : string) : number :=
  let s1 := trimStart s in
  let (negative, s2) :=
    match strip_prefix "-" s1 with
    | Some r => (true, r)
    | None => match strip_prefix "+" s1 with
              | Some r => (false, r)
              | None => (false, s1)
              end
    end in
  let (digits, _) := span is_digit s2 in
  if nonempty digits then
    let v := Z.of_N (decimal_value digits 0) in
    Num (if negative then (- v)%Z else v)
  else NaN.

(** ** Errors *)

(** What the pipeline throws: an error of one of the four classes of the
    repository, or the [TypeError] that the runtime raises when a member
    of [null] is read. The latter is no [ScribeError] of the source; it
    is listed here because the functions let it through as they let
    through the others, and its message is the runtime's. *)
Inductive ScribeError : Type :=
  | VideoNotFoundError (videoId : string)
  | CaptionsDisabledError (videoId : string)
  | LanguageNotAvailableError (language : string) (available : list string)
  | TranscriptionError (message : string) (cause : option string)
  | TypeError (message : string).

Fixpoint join (sep : string) (l : list string) : string :=
  match l with
  | [] => EmptyString
  | [x] => x
  | x :: l' => x +++ sep +++ join sep l'
  end.


(** [this.constructor.name] *)
Definition error_name (e : ScribeError) : string :=
  match e with
  | VideoNotFoundError _ => "VideoNotFoundError"
  | CaptionsDisabledError _ => "CaptionsDisabledError"
  | LanguageNotAvailableError _ _ => "LanguageNotAvailableError"
  | TranscriptionError _ _ => "TranscriptionError"
  | TypeError _ => "TypeError"
  end.

Inductive Result (A : Type) : Type :=
  | Ok (a : A)
  | Err (e : ScribeError).
Arguments Ok {A} a.
Arguments Err {A} e.

(** ** The network
    The two requests of the pipeline are answered by the [World]: what the
    watch page of a video gives, and what the transcript endpoint answers
    to a token and a visitor token. The write-only diagnostics of the
    source ([console.error]) are left out. *)

(** What the regular expressions and [JSON.parse] of [fetchPageData] find
    in the HTML of the page; a document that is absent or does not parse
    is [None]. *)
Record PageScrape : Type := mkPageScrape
  { scraped_playerResponse : option PlayerResponse;
    scraped_initialData : option InitialData;
    scraped_visitorData : option string;
    scraped_clientVersion : option string }.

Inductive PageReply : Type :=
  | PageNetworkError (cause : option string)
      (** [fetch] or [resp.text()] rejected *)
  | PageResponse (ok : bool) (httpStatus : nat)
      (headers : list (string * string)) (scrape : PageScrape).

(** The [error] member of an API answer, when it is truthy: its members
    [message] and [status], as [String] renders them, when they are
    neither absent nor [null]. *)
Record ApiError : Type := mkApiError
  { err_message : option string;
    err_status : option string }.

(** The body of an answer as [resp.json()] gives it: no JSON at all; the
    JSON [null], on which the read of the member [error] throws the
    [TypeError] of the runtime with the message given here; or another
    JSON value, with its member [error] when that one is truthy ([None]
    when it is absent or falsy) and with what the value is as a
    response. *)
Inductive ApiBody : Type :=
  | BodyNotJson (cause : option string)
  | BodyNull (typeErrorMessage : string)
  | BodyJson (error : option ApiError) (data : TranscriptApiResponse).

Inductive ApiReply : Type :=
  | ApiNetworkError (cause : option string)
  | ApiResponse (ok : bool) (httpStatus : nat) (text : string) (body : ApiBody).

Record World : Type := mkWorld
  { get_watch_page : string -> PageReply;
    post_get_transcript : string -> option string -> ApiReply }.

Definition CONSENT_COOKIE : string := "CONSENT=YES+cb.20210328-17-p0.en+FX+000".

Definition fetchPageData (w : World) (videoId : string) : Result PageData :=
  match get_watch_page w videoId with
  | PageNetworkError cause =>
      Err (TranscriptionError
             ("Network error fetching YouTube page for video " +++ videoId) cause)
  | PageResponse ok httpStatus headers scrape =>
      if negb ok then
        Err (TranscriptionError
               ("HTTP " +++ String_of_nat httpStatus
                  +++ " fetching YouTube page for video " +++ videoId) None)
      else
        let cookieParts :=
          CONSENT_COOKIE ::
          flat_map
            (fun nv : string * string =>
               if (toLowerCase (fst nv) =? "set-cookie")%string then
                 let cookiePart :=
                   hd EmptyString (split_on (fun c => (c =? ";")%char) (snd nv)) in
                 if nonempty cookiePart then [cookiePart] else []
               else [])
            headers in
        Ok {| playerResponse := scraped_playerResponse scrape;
              initialData := scraped_initialData scrape;
              visitorData := scraped_visitorData scrape;
              clientVersion :=
                match scraped_clientVersion scrape with
                | Some v => v
                | None => "2.20241121.01.00"
                end;
              cookies := join "; " cookieParts |}
  end.

(** ** Transcript parameters found in the page *)

Definition transcript_panel_id : string := "engagement-panel-searchable-transcript".

Definition is_transcript_panel (p : json) : bool :=
  match json_get "panelIdentifier"
          (json_get "engagementPanelSectionListRenderer" (Some p)) with
  | Some (JString s) => (s =? transcript_panel_id)%string
  | _ => false
  end.

(** The pattern of the source at the start of [s]: the key
    [getTranscriptEndpoint] in quotes, a colon, an opening brace, the key
    [params] in quotes, a colon, and a quoted value of one or more
    characters other than a quote; the result is that value. *)
Definition match_endpoint_params (s : string) : option string :=
  match strip_prefix
          (QUOTE +++ "getTranscriptEndpoint" +++ QUOTE +++ ":{"
             +++ QUOTE +++ "params" +++ QUOTE +++ ":" +++ QUOTE) s with
  | Some r =>
      let (value, rest) := span (fun c => negb (code c =? 34)) r in
      if nonempty value && startsWith rest QUOTE then Some value else None
  | None => None
  end.

Definition extractTranscriptParams (initialData : InitialData) : option string :=
  let panels := match engagementPanels initialData with
                | Some l => l
                | None => []
                end in
  match find is_transcript_panel panels with
  | None => None
  | Some transcriptPanel =>
      first_match match_endpoint_params (JSON_stringify transcriptPanel)
  end.

(** ** The API call *)

Definition fetchTranscriptViaApi (w : World) (params : string)
    (visitorData : option string) : Result TranscriptApiResponse :=
  match post_get_transcript w params visitorData with
  | ApiNetworkError cause =>
      Err (TranscriptionError "Network error calling YouTube transcript API" cause)
  | ApiResponse ok httpStatus text body =>
      if negb ok then
        Err (TranscriptionError
               ("YouTube transcript API returned HTTP " +++ String_of_nat httpStatus
                  +++ ": " +++ str_take 200 text) None)
      else
        match body with
        | BodyNotJson cause =>
            Err (TranscriptionError
                   "Failed to parse YouTube transcript API response" cause)
        | BodyNull typeErrorMessage => Err (TypeError typeErrorMessage)
        | BodyJson (Some err) data =>
            let message := match err_message err with
                           | Some m => m
                           | None => "Unknown API error"
                           end in
            let status := match err_status err with
                          | Some st => st
                          | None => EmptyString
                          end in
            if (status =? "FAILED_PRECONDITION")%string then
              Err (CaptionsDisabledError
                     "(API precondition failed — captions may be unavailable)")
            else Err (TranscriptionError ("YouTube API error: " +++ message) None)
        | BodyJson None data => Ok data
        end
  end.

(** ** Segments *)

Record TranscriptSegment : Type := mkSegment
  { text : string;
    startMs : number;
    durationMs : number }.

(** [action.elementsCommand?. ... ?.overwrite?.initialSegments] *)
Definition action_segments (action : Action) : option (list TranscriptSegmentItem) :=
  match elementsCommand action with
  | None => None
  | Some ec =>
      match transformEntityCommand ec with
      | None => None
      | Some tec =>
          match arguments tec with
          | None => None
          | Some args =>
              match transformTranscriptSegmentListArguments args with
              | None => None
              | Some targs =>
                  match overwrite targs with
                  | None => None
                  | Some ov => initialSegments ov
                  end
              end
          end
      end
  end.

Definition or_default (o : option string) (d : string) : string :=
  match o with Some s => s | None => d end.

(** The text of a renderer before it is flattened and trimmed: the
    pre-joined string if there is one, else the runs joined, else
    nothing. *)
Definition snippet_text (renderer : TranscriptSegmentRenderer) : string :=
  let fromContent :=
    match snippet renderer with
    | Some sn => match elementsAttributedString sn with
                 | Some a => content a
                 | None => None
                 end
    | None => None
    end in
  match fromContent with
  | Some t => t
  | None =>
      match snippet renderer with
      | Some sn =>
          match runs sn with
          | Some rs => str_concat (map (fun r => or_default (run_text r) EmptyString) rs)
          | None => EmptyString
          end
      | None => EmptyString
      end
  end.

(** [text.replace(/\n/g, " ")] *)
Definition flatten_newlines (s : string) : string :=
  str_map (fun c => if code c =? 10 then " "%char else c) s.

(** One turn of the inner loop: what an item pushes on [result]. *)
Definition parse_item (item : TranscriptSegmentItem) : option TranscriptSegment :=
  match transcriptSegmentRenderer item with
  | None => None
  | Some renderer =>
      let startMs := parseInt (or_default (r_startMs renderer) "0") in
      let endMs := parseInt (or_default (r_endMs renderer) "0") in
      let durationMs := num_sub endMs startMs in
      let text := trim (flatten_newlines (snippet_text renderer)) in
      if negb (nonempty text) then None
      else Some (mkSegment text startMs durationMs)
  end.

Fixpoint parse_items (segments : list TranscriptSegmentItem) : list TranscriptSegment :=
  match segments with
  | [] => []
  | item :: rest =>
      match parse_item item with
      | Some seg => seg :: parse_items rest
      | None => parse_items rest
      end
  end.

Fixpoint parse_actions (actions : list Action) : list TranscriptSegment :=
  match actions with
  | [] => []
  | action :: rest =>
      match action_segments action with
      | None | Some [] => parse_actions rest
      | Some segments =>
          let result := parse_items segments in
          if 0 <? List.length result then result else parse_actions rest
      end
  end.

Definition parseTranscriptSegments (apiResponse : TranscriptApiResponse)
    : list TranscriptSegment :=
  parse_actions (match actions apiResponse with Some l => l | None => [] end).

(** ** Output formats *)

Definition pad (n : number) (len : nat) : string :=
  padStart0 (String_of_number n) len.

Definition msToSrtTimestamp (ms : number) : string :=
  let totalSeconds := num_floor_div ms 1000 in
  let milliseconds := num_rem ms 1000 in
  let hours := num_floor_div totalSeconds 3600 in
  let minutes := num_floor_div (num_rem totalSeconds 3600) 60 in
  let seconds := num_rem totalSeconds 60 in
  pad hours 2 +++ ":" +++ pad minutes 2 +++ ":" +++ pad seconds 2
    +++ "," +++ pad milliseconds 3.

(** The first of [pats] that [s] starts with, and what follows it. *)
Fixpoint match_any (pats : list string) (s : string) : option (string * string) :=
  match pats with
  | [] => None
  | p :: pats' =>
      match strip_prefix p s with
      | Some r => Some (p, r)
      | None => match_any pats' s
      end
  end.

(** [s.replace(/\s{2,}/g, " ")] *)
Fixpoint collapse_spaces (fuel : nat) (s : string) : string :=
  match fuel with
  | O => s
  | S fuel' =>
      match s with
      | EmptyString => EmptyString
      | String c s' =>
          match match_any js_whitespace s with
          | None => String c (collapse_spaces fuel' s')
          | Some (ws, r1) =>
              match strip_any js_whitespace r1 with
              | None => ws +++ collapse_spaces fuel' r1
              | Some r2 =>
                  " " +++ collapse_spaces fuel'
                            (drop_leading js_whitespace (String.length r2) r2)
              end
          end
      end
  end.

Definition formatAsText (segments : list TranscriptSegment) : string :=
  let joined := join " " (map text segments) in
  trim (collapse_spaces (String.length joined) joined).

(** The cue of the segment at index [i]. *)
Definition srt_cue (i : nat) (seg : TranscriptSegment) : string :=
  let start := msToSrtTimestamp (startMs seg) in
  let stop := msToSrtTimestamp (num_add (startMs seg) (durationMs seg)) in
  String_of_nat (i + 1) +++ LF +++ start +++ " --> " +++ stop +++ LF +++ text seg.

Fixpoint map_indexed {A B} (f : nat -> A -> B) (i : nat) (l : list A) : list B :=
  match l with
  | [] => []
  | x :: l' => f i x :: map_indexed f (S i) l'
  end.

Definition formatAsSrt (segments : list TranscriptSegment) : string :=
  join (LF +++ LF) (map_indexed srt_cue 0 segments).

(** ** Listing the languages *)

Record LanguageInfo : Type := mkLanguageInfo
  { li_code : string;
    li_name : string;
    li_isAutoGenerated : bool }.

(** [pageData.playerResponse?.playabilityStatus?.status] *)
Definition page_status (pageData : PageData) : option string :=
  match playerResponse pageData with
  | Some pr => match playabilityStatus pr with
               | Some ps => status ps
               | None => None
               end
  | None => None
  end.

(** [pageData.playerResponse?.playabilityStatus?.reason] *)
Definition page_reason (pageData : PageData) : option string :=
  match playerResponse pageData with
  | Some pr => match playabilityStatus pr with
               | Some ps => reason ps
               | None => None
               end
  | None => None
  end.

(** [status && status !== "OK" && status !== "LIVE_STREAM_OFFLINE"] *)
Definition status_blocks (st : option string) : bool :=
  match st with
  | Some s =>
      nonempty s && negb (s =? "OK")%string
      && negb (s =? "LIVE_STREAM_OFFLINE")%string
  | None => false
  end.

(** [pageData.playerResponse?.captions?.playerCaptionsTracklistRenderer
      ?.captionTracks ?? []] *)
Definition page_tracks (pageData : PageData) : list CaptionTrack :=
  match playerResponse pageData with
  | Some pr =>
      match captions pr with
      | Some c =>
          match playerCaptionsTracklistRenderer c with
          | Some r => match captionTracks r with
                      | Some l => l
                      | None => []
                      end
          | None => []
          end
      | None => []
      end
  | None => []
  end.

Definition is_asr (k : option string) : bool :=
  match k with
  | Some s => (s =? "asr")%string
  | None => false
  end.

Definition listAvailableLanguages (w : World) (videoId : string)
    : Result (list LanguageInfo) :=
  match fetchPageData w videoId with
  | Err e => Err e
  | Ok pageData =>
      if status_blocks (page_status pageData) then Err (VideoNotFoundError videoId)
      else
        Ok (map (fun t =>
                   {| li_code := languageCode t;
                      li_name :=
                        match name t with
                        | Some n => or_default (simpleText n) (languageCode t)
                        | None => languageCode t
                        end;
                      li_isAutoGenerated := is_asr (kind t) |})
                (page_tracks pageData))
  end.

(** ** Transcription *)

Inductive TranscriptFormat : Type := FormatText | FormatSrt | FormatJson.

Record TranscribeOptions : Type := mkOptions
  { opt_language : option string;
    opt_format : option TranscriptFormat }.

Inductive Transcript : Type :=
  | TranscriptString (s : string)
  | TranscriptSegments (l : list TranscriptSegment).

Record TranscribeResult : Type := mkResult
  { res_videoId : string;
    res_language : string;
    res_isAutoGenerated : bool;
    res_transcript : Transcript }.

(** The token sent to the API: the one of the page if it is for the
    requested language, else a fresh one. *)
Definition chooseTranscriptParams (pageData : PageData) (videoId language : string)
    : string :=
  let reused :=
    match initialData pageData with
    | Some d =>
        match extractTranscriptParams d with
        | Some existingParams =>
            if nonempty existingParams then
              let existingLang := extractLangFromParams existingParams in
              if (toLowerCase existingLang =? toLowerCase language)%string
              then Some existingParams else None
            else None
        | None => None
        end
    | None => None
    end in
  match reused with
  | Some p => if nonempty p then p else buildTranscriptParams videoId language
  | None => buildTranscriptParams videoId language
  end.

(** What is thrown when no segment was obtained. *)
Definition no_segments_error (pageData : PageData) (language : string)
    (otherwise : ScribeError) : ScribeError :=
  let tracks := page_tracks pageData in
  if 0 <? List.length tracks then
    LanguageNotAvailableError language (map languageCode tracks)
  else otherwise.

Definition transcribeVideo (w : World) (input : string) (options : TranscribeOptions)
    : Result TranscribeResult :=
  let language := or_default (opt_language options) "en" in
  let format := match opt_format options with Some f => f | None => FormatText end in
  match extractVideoId input with
  | None =>
      Err (TranscriptionError
             ("Could not extract a valid YouTube video ID from: "
                +++ QUOTE +++ input +++ QUOTE) None)
  | Some videoId =>
      match fetchPageData w videoId with
      | Err e => Err e
      | Ok pageData =>
          if status_blocks (page_status pageData) then
            let reason := or_default (page_reason pageData) "unknown reason" in
            Err (VideoNotFoundError (videoId +++ " (" +++ reason +++ ")"))
          else
            let transcriptParams := chooseTranscriptParams pageData videoId language in
            match fetchTranscriptViaApi w transcriptParams (visitorData pageData) with
            | Err (CaptionsDisabledError v) =>
                Err (no_segments_error pageData language (CaptionsDisabledError v))
            | Err e => Err e
            | Ok apiResponse =>
                let segments := parseTranscriptSegments apiResponse in
                if List.length segments =? 0 then
                  Err (no_segments_error pageData language
                         (CaptionsDisabledError videoId))
                else
                  let tracks := page_tracks pageData in
                  let matchingTrack :=
                    find (fun t => startsWith (toLowerCase (languageCode t))
                                     (toLowerCase language)) tracks in
                  let isAutoGenerated :=
                    match matchingTrack with
                    | Some t => is_asr (kind t)
                    | None => false
                    end in
                  let transcript :=
                    match format with
                    | FormatText => TranscriptString (formatAsText segments)
                    | FormatSrt => TranscriptString (formatAsSrt segments)
                    | FormatJson => TranscriptSegments segments
                    end in
                  Ok {| res_videoId := videoId;
                        res_language := language;
                        res_isAutoGenerated := isAutoGenerated;
                        res_transcript := transcript |}
            end
      end
  end.


(** The page state has no playability status: the player document is
    absent, or it has no [playabilityStatus], or that has no [status]. *)
Definition lacks_status (pageData : PageData) : Prop :=
  playerResponse pageData = None
  \/ exists pr, playerResponse pageData = Some pr
       /\ (playabilityStatus pr = None
           \/ exists ps, playabilityStatus pr = Some ps /\ status ps = None).

(** The same player document, reporting the status [OK]. *)
Definition mark_playable (pr : option PlayerResponse) : PlayerResponse :=
  match pr with
  | Some p =>
      mkPlayerResponse (captions p)
        (Some (mkPlayabilityStatus (Some "OK")
                 (match playabilityStatus p with
                  | Some ps => reason ps
                  | None => None
                  end)))
  | None => mkPlayerResponse None (Some (mkPlayabilityStatus (Some "OK") None))
  end.

(** The world whose watch pages differ from those of [w] only in that
    their player document reports the status [OK]. *)
Definition playable_world (w : World) : World :=
  mkWorld
    (fun v =>
       match get_watch_page w v with
       | PageResponse ok st hs sc =>
           PageResponse ok st hs
             (mkPageScrape (Some (mark_playable (scraped_playerResponse sc)))
                (scraped_initialData sc) (scraped_visitorData sc)
                (scraped_clientVersion sc))
       | PageNetworkError c => PageNetworkError c
       end)
    (post_get_transcript w).

(** The requested language is a prefix of the code of the track, letter
    case apart. *)
Definition track_matches (language : string) (t : CaptionTrack) : bool :=
  startsWith (toLowerCase (languageCode t)) (toLowerCase language).

(** The segment list of an action, as the specification finds it in the
    response: every level of the document is present, from the action
    down to its list of initial segments. *)
Inductive nested_segments (action : Action) (items : list TranscriptSegmentItem) : Prop :=
  | nested_at (ec : ElementsCommand) (tec : TransformEntityCommand)
      (args : CommandArguments) (targs : TransformTranscriptSegmentListArguments)
      (ov : Overwrite) :
      elementsCommand action = Some ec ->
      transformEntityCommand ec = Some tec ->
      arguments tec = Some args ->
      transformTranscriptSegmentListArguments args = Some targs ->
      overwrite targs = Some ov ->
      initialSegments ov = Some items ->
      nested_segments action items.

(** The display text of a renderer, as the specification reads it from
    the fields of the snippet: the pre-joined string when that field is
    there, else the texts of the runs one after the other (a run without
    a text gives nothing), else nothing. *)
Definition display_text (renderer : TranscriptSegmentRenderer) : string :=
  match snippet renderer with
  | None => EmptyString
  | Some sn =>
      match elementsAttributedString sn with
      | Some (mkAttributedString (Some t)) => t
      | _ =>
          match runs sn with
          | Some rs =>
              fold_right
                (fun r rest =>
                   match run_text r with
                   | Some t => t +++ rest
                   | None => rest
                   end) EmptyString rs
          | None => EmptyString
          end
      end
  end.

(** The text the specification derives for an entry of the segment list:
    its display text with its newlines replaced by spaces, trimmed; an
    entry without a renderer has no text. *)
Definition derived_text (item : TranscriptSegmentItem) : string :=
  match transcriptSegmentRenderer item with
  | Some renderer => trim (flatten_newlines (display_text renderer))
  | None => EmptyString
  end.

(** The entries that segment parsing is to keep. *)
Definition kept (item : TranscriptSegmentItem) : bool := nonempty (derived_text item).

(** The fields of a timestamp as the specification writes them, for a
    count that is not negative. *)
Definition two_digits (n : Z) : string :=
  String (digit_char (Z.to_nat (n / 10)))
    (String (digit_char (Z.to_nat (n mod 10))) EmptyString).
Definition three_digits (n : Z) : string :=
  String (digit_char (Z.to_nat (n / 100))) (two_digits (n mod 100)).
(** Hours are padded to two digits and take more when they need more. *)
Definition hours_field (h : Z) : string :=
  if (h <? 100)%Z then two_digits h else String_of_nat (Z.to_nat h).

Definition spec_timestamp (ms : Z) : string :=
  let totalSeconds := (ms / 1000)%Z in
  hours_field (totalSeconds / 3600)
    +++ ":" +++ two_digits (totalSeconds mod 3600 / 60)
    +++ ":" +++ two_digits (totalSeconds mod 60)
    +++ "," +++ three_digits (ms mod 1000).

(** A cue with the index [i] counted from one. *)
Definition spec_cue (i : nat) (seg : TranscriptSegment) : string :=
  String_of_nat i +++ LF
    +++ msToSrtTimestamp (startMs seg) +++ " --> "
    +++ msToSrtTimestamp (num_add (startMs seg) (durationMs seg))
    +++ LF +++ text seg.

(** ** The supported input shapes *)

(** The URL shapes of the specification, written from the host on. *)
Inductive UrlShape : Type := WatchPage | ShortLink | ShortsPage | EmbedPage | LegacyPage.

Definition shape_url (shape : UrlShape) (id : string) : string :=
  match shape with
  | WatchPage => "youtube.com/watch?v=" +++ id
  | ShortLink => "youtu.be/" +++ id
  | ShortsPage => "youtube.com/shorts/" +++ id
  | EmbedPage => "youtube.com/embed/" +++ id
  | LegacyPage => "youtube.com/v/" +++ id
  end.

(** What may precede the host: a scheme, and www. *)
Definition url_prefixes : list string :=
  [""; "www."; "https://"; "https://www."; "http://"; "http://www."].


(** The characters of the URLs of the supported shapes. *)
Definition is_word (c : ascii) : bool := is_id_char c || one_of ":/.?=" c.

(** ** Sample worlds, used to exercise the theorems *)

Definition sample_id : string := "dQw4w9WgXcQ".

Definition track (code : string) (k : option string) : CaptionTrack :=
  mkCaptionTrack "https://www.youtube.com/api/timedtext" code k None.

Definition player_with (st : option PlayabilityStatus) (tracks : list CaptionTrack)
    : PlayerResponse :=
  mkPlayerResponse (Some (mkCaptions (Some (mkTracklistRenderer (Some tracks))))) st.

Definition page_of (pr : option PlayerResponse) : PageReply :=
  PageResponse true 200 [] (mkPageScrape pr None None None).

Definition item_of (t a b : string) : TranscriptSegmentItem :=
  mkItem (Some (mkRenderer (Some a) (Some b)
                  (Some (mkSnippet (Some (mkAttributedString (Some t))) None)))).

Definition response_of (items : list TranscriptSegmentItem) : TranscriptApiResponse :=
  mkApiResponse
    (Some [mkAction (Some (mkElementsCommand (Some (mkTransformEntityCommand
       (Some (mkCommandArguments (Some (mkTransformArgs
          (Some (mkOverwrite (Some items)))))))))))]).

Definition precondition_failed : ApiReply :=
  ApiResponse true 200 EmptyString
    (BodyJson (Some (mkApiError (Some "Precondition check failed.")
                       (Some "FAILED_PRECONDITION")))
       (mkApiResponse None)).

Definition world_of (page : PageReply) (api : ApiReply) : World :=
  mkWorld (fun _ => page) (fun _ _ => api).

Definition no_options : TranscribeOptions := mkOptions None None.

(** An entry whose text is given by runs, and an action with a segment
    list. *)
Definition run_item (texts : list (option string)) (a b : string)
    : TranscriptSegmentItem :=
  mkItem (Some (mkRenderer (Some a) (Some b)
                  (Some (mkSnippet None (Some (map mkTextRun texts)))))).

Definition action_of (items : option (list TranscriptSegmentItem)) : Action :=
  mkAction (Some (mkElementsCommand (Some (mkTransformEntityCommand
    (Some (mkCommandArguments (Some (mkTransformArgs
       (Some (mkOverwrite items)))))))))).

(** A response with an action without a command, an action with an empty
    list, an action whose entries all have an empty text, the action that
    is parsed, and an action that is not looked at. *)
Definition sample_response : TranscriptApiResponse :=
  mkApiResponse
    (Some [mkAction None;
           action_of (Some []);
           action_of (Some [run_item [Some "  "; Some LF] "0" "10"; mkItem None]);
           action_of
             (Some [run_item [Some "Hello"; None; Some (LF +++ "world ")] "0" "1500";
                    mkItem None;
                    run_item [Some " "] "1500" "1600";
                    item_of "Second line" "1500" "4000";
                    mkItem (Some (mkRenderer None None
                              (Some (mkSnippet (Some (mkAttributedString None))
                                       (Some [mkTextRun (Some "tail")])))))]);
           action_of (Some [item_of "ignored" "0" "1"])]).

(** ** White space at the ends of a text *)

(** Printable ASCII other than the space. *)
Definition is_graphic (c : ascii) : bool := (33 <=? code c) && (code c <=? 126).

(** The ASCII white space: TAB, LF, VT, FF, CR and the space. *)
Definition is_ascii_space (c : ascii) : bool :=
  ((9 <=? code c) && (code c <=? 13)) || (code c =? 32).

Definition starts_graphic (s : string) : bool :=
  match s with
  | String c _ => is_graphic c
  | EmptyString => false
  end.

(** [s] begins, or ends, with a character that [trim] removes. *)
Definition starts_with_space (s : string) : bool :=
  match strip_any js_whitespace s with Some _ => true | None => false end.
Definition ends_with_space (s : string) : bool :=
  match strip_any (map str_rev js_whitespace) (str_rev s) with
  | Some _ => true
  | None => false
  end.

(** Words of printable characters separated by single spaces. *)
Fixpoint spaced (s : string) : bool :=
  match s with
  | EmptyString => true
  | String c s' =>
      if is_graphic c then spaced s'
      else (c =? " ")%char && starts_graphic s' && spaced s'
  end.

(** A non-empty word of printable characters. *)
Definition graphic_word (x : string) : Prop :=
  nonempty x = true /\ str_forallb is_graphic x = true.

(** ** Content providers and their registry *)

Inductive OutputFormat : Type := OutText | OutMarkdown | OutJson | OutSrt.

Record ExtractionOptions : Type := mkExtractionOptions
  { eo_language : option string;
    eo_format : option OutputFormat;
    eo_timestamps : option bool }.

(** The named members of the metadata; [md_other] holds the members of
    the index signature. *)
Record ExtractionMetadata : Type := mkMetadata
  { md_title : option string;
    md_author : option string;
    md_date : option string;
    md_source : option string;
    md_other : list (string * json) }.

Record ExtractionResult : Type := mkExtraction
  { er_content : string;
    er_metadata : ExtractionMetadata;
    er_provider : string }.

Record ProviderCapabilities : Type := mkCapabilities
  { cap_formats : list OutputFormat;
    supportsLanguage : bool;
    supportsTimestamps : bool }.

(** What a rejected promise carries: an error of the [ScribeError]
    family, another [Error], or a value that is no [Error]. *)
Inductive Thrown : Type :=
  | ThrownScribe (className message : string)
  | ThrownError (message : string)
  | ThrownValue.

(** A provider; [extract] is given by its outcome on an input. *)
Record ContentProvider : Type := mkProvider
  { provider_name : string;
    provider_description : string;
    canHandle : string -> bool;
    extract : string -> ExtractionOptions -> ExtractionResult + Thrown;
    capabilities : ProviderCapabilities }.

(** The registry is the array of its providers, in the order of their
    registration. *)
Definition ProviderRegistry : Type := list ContentProvider.

Definition register (registry : ProviderRegistry) (provider : ContentProvider)
    : ProviderRegistry :=
  registry ++ [provider].

Definition resolve (registry : ProviderRegistry) (input : string)
    : option ContentProvider :=
  find (fun provider => canHandle provider input) registry.

Definition registry_list (registry : ProviderRegistry)
    : list (string * string * ProviderCapabilities) :=
  map (fun p => (provider_name p, provider_description p, capabilities p)) registry.





(** [s.endsWith(suffix)] *)
Definition endsWith (s suffix : string) : bool :=
  startsWith (str_rev s) (str_rev suffix).

(** The members of a [URL] that the providers read. *)
Record URLParts : Type := mkURLParts
  { url_protocol : string;
    url_hostname : string;
    url_pathname : string }.

Section UrlProviders.

(** [new URL(input)], with [None] for the [TypeError] it throws. *)
Variable new_URL : string -> option URLParts.

Definition is_web_protocol (protocol : string) : bool :=
  (protocol =? "http:")%string || (protocol =? "https:")%string.

Definition PdfProvider_canHandle (input : string) : bool :=
  if startsWith input "/" && endsWith (toLowerCase input) ".pdf" then true
  else
    match new_URL input with
    | Some url =>
        is_web_protocol (url_protocol url)
        && endsWith (toLowerCase (url_pathname url)) ".pdf"
    | None => false
    end.

Definition ArticleProvider_canHandle (input : string) : bool :=
  match new_URL input with
  | None => false
  | Some url =>
      if negb (is_web_protocol (url_protocol url)) then false
      else
        let hostname := strip_www (url_hostname url) in
        if (hostname =? "youtube.com")%string || (hostname =? "m.youtube.com")%string
           || (hostname =? "youtu.be")%string
        then false
        else if endsWith (toLowerCase (url_pathname url)) ".pdf" then false
        else true
  end.

End UrlProviders.

(** The parser of this file as a [new URL]: the protocol is the scheme
    with its colon. *)
Definition model_URL (input : string) : option URLParts :=
  match parse_scheme (url_clean input), URL_parse input with
  | Some (scheme, _), Some url =>
      Some (mkURLParts (scheme +++ ":") (hostname url) (pathname url))
  | _, _ => None
  end.

(** ** Anchors of the table of contents *)

Definition is_slug_char (c : ascii) : bool := is_lower c || is_digit c.

(** [s.replace(/[^a-z0-9]+/g, "-")]; [inRun] tells that the character
    before belongs to a run that was already replaced. *)
Fixpoint dash_runs (inRun : bool) (s : string) : string :=
  match s with
  | EmptyString => EmptyString
  | String c s' =>
      if is_slug_char c then String c (dash_runs false s')
      else if inRun then dash_runs true s'
      else String "-" (dash_runs true s')
  end.

Definition strip_leading_dash (s : string) : string :=
  match strip_prefix "-" s with Some r => r | None => s end.

(** [s] without the dash that is its last character. *)
Fixpoint strip_trailing_dash (s : string) : string :=
  match s with
  | EmptyString => EmptyString
  | String c s' =>
      if (c =? "-")%char && negb (nonempty s') then EmptyString
      else String c (strip_trailing_dash s')
  end.

(** [s.replace(/^-|-$/g, ...)] with the empty replacement: the dash at
    the start goes, and the dash at the end of what is left. *)
Definition strip_edge_dashes (s : string) : string :=
  strip_trailing_dash (strip_leading_dash s).

(** The letters outside ASCII are left as they are by [toLowerCase]
    here, and replaced by the dash with every other character that is
    no ASCII letter or digit. *)
Definition slugify (text : string) : string :=
  strip_edge_dashes (dash_runs false (toLowerCase text)).

(** Letters, digits and dashes, with no two dashes in a row. *)
Fixpoint dashed (s : string) : bool :=
  match s with
  | EmptyString => true
  | String c s' =>
      (is_slug_char c || ((c =? "-")%char && negb (startsWith s' "-")))
      && dashed s'
  end.

(** A slug: lower-case letters, digits and single dashes between
    them. *)
Fixpoint slug_body (s : string) : bool :=
  match s with
  | EmptyString => true
  | String c s' =>
      if is_slug_char c then slug_body s'
      else (c =? "-")%char
           && match s' with
              | String d _ => is_slug_char d
              | EmptyString => false
              end
           && slug_body s'
  end.
Definition is_slug (s : string) : bool :=
  match s with
  | EmptyString => true
  | String c _ => is_slug_char c && slug_body s
  end.

(** ** The session key of the chat service *)

Record Cookie : Type := mkCookie
  { cookie_name : string;
    cookie_value : string }.

Record ProcessEnv : Type := mkEnv
  { CLAUDE_SESSION_KEY : option string;
    CLAUDE_COOKIES_FILE : option string;
    CLAUDE_ORG_ID : option string }.

(** [readCookies path] is the array that [Bun.file(path).json()] gives;
    [None] stands for every way in which reading it or searching it
    throws. *)
Definition resolveSessionKey (env : ProcessEnv)
    (readCookies : string -> option (list Cookie)) : option string :=
  let fromFile :=
    match CLAUDE_COOKIES_FILE env with
    | Some cookiesFile =>
        if nonempty cookiesFile then
          match readCookies cookiesFile with
          | Some cookies =>
              match find (fun c => (cookie_name c =? "sessionKey")%string) cookies with
              | Some entry =>
                  if nonempty (cookie_value entry) then Some (cookie_value entry)
                  else None
              | None => None
              end
          | None => None
          end
        else None
    | None => None
    end in
  match CLAUDE_SESSION_KEY env with
  | Some key => if nonempty key then Some key else fromFile
  | None => fromFile
  end.

(** ** The provider of the chat service *)

Definition truthy (v : option string) : bool :=
  match v with Some s => nonempty s | None => false end.

(** A literal of a regular expression with the flag [i]; [lit] is in
    lower case. *)
Definition lit_ci (lit s : string) : option string :=
  let n := String.length lit in
  if (toLowerCase (str_take n s) =? lit)%string then Some (str_drop n s) else None.

Definition is_uuid_char (c : ascii) : bool :=
  is_hex_digit c || (c =? "-")%char.

Definition test_uuid (s : string) : bool :=
  (String.length s =? 36) && str_forallb is_uuid_char s.

(** The group [([0-9a-f-]{36})] under the flag [i], matched at the
    start of [s]. *)
Definition take_uuid (s : string) : option string :=
  let t := str_take 36 s in
  if test_uuid t then Some t else None.

(** [input.match(CHAT_RE)] and [input.match(PROJECT_RE)]: the first
    group of the leftmost match. *)
Definition CHAT_RE (input : string) : option string :=
  first_match
    (fun t => match lit_ci "claude.ai/chat/" t with
              | Some r => take_uuid r
              | None => None
              end) input.
Definition PROJECT_RE (input : string) : option string :=
  first_match
    (fun t => match lit_ci "claude.ai/project/" t with
              | Some r => take_uuid r
              | None => None
              end) input.

Definition is_some {A : Type} (o : option A) : bool :=
  match o with Some _ => true | None => false end.

Definition ClaudeProvider_canHandle (env : ProcessEnv) (input : string) : bool :=
  if negb (truthy (CLAUDE_SESSION_KEY env)) && negb (truthy (CLAUDE_COOKIES_FILE env))
  then false
  else is_some (CHAT_RE input) || is_some (PROJECT_RE input).

(** ** Conversations fetched one after the other *)

(** The answer to the request for one conversation: [fetch] rejects, or
    gives a response whose body is the data or is no JSON. *)
Inductive ConversationReply (Data : Type) : Type :=
  | ConversationNetworkError
  | ConversationResponse (ok : bool) (httpStatus : nat) (body : option Data).
Arguments ConversationNetworkError {Data}.
Arguments ConversationResponse {Data} ok httpStatus body.

(** [fetchConversation]: the data, or what is thrown: the message of
    the [Error] made here, or [None] for the rejection of [fetch] or of
    [resp.json()]. *)
Definition fetchConversation {Data : Type} (chatId : string)
    (reply : ConversationReply Data) : Data + option string :=
  match reply with
  | ConversationNetworkError => inr None
  | ConversationResponse ok httpStatus body =>
      if (httpStatus =? 401) || (httpStatus =? 403) then
        inr (Some ("Authentication failed (HTTP " +++ String_of_nat httpStatus +++ "). "
                     +++ "Your session key may be expired — refresh it from DevTools → Application → Cookies → claude.ai → sessionKey."))
      else if negb ok then
        inr (Some ("Failed to fetch conversation " +++ chatId
                     +++ " (HTTP " +++ String_of_nat httpStatus +++ ")"))
      else
        match body with
        | Some data => inl data
        | None => inr None
        end
  end.

(** [fetchMultipleConversations]: the requests are made in the order of
    [chatIds]; [network i chatId] is the answer to the request made at
    position [i]. The pauses between the requests are left out. *)
Fixpoint fetchMultipleFrom {Data : Type}
    (network : nat -> string -> ConversationReply Data) (i : nat)
    (chatIds : list string) : list (string * Data) :=
  match chatIds with
  | [] => []
  | chatId :: rest =>
      match fetchConversation chatId (network i chatId) with
      | inl data => (chatId, data) :: fetchMultipleFrom network (S i) rest
      | inr _ => fetchMultipleFrom network (S i) rest
      end
  end.

Definition fetchMultipleConversations {Data : Type}
    (network : nat -> string -> ConversationReply Data) (chatIds : list string)
    : list (string * Data) :=
  fetchMultipleFrom network 0 chatIds.

(** ** The text of an article *)

(** [s.replace(re, rep)] for a global [re] that matches no empty text:
    [m t] is what follows the match of [re] at the start of [t];
    [skip] counts the characters of a match still to be passed. *)
Fixpoint replace_all (m : string -> option string) (rep : string) (skip : nat)
    (s : string) : string :=
  match s with
  | EmptyString => EmptyString
  | String c s' =>
      match skip with
      | S k => replace_all m rep k s'
      | O =>
          match m s with
          | Some r =>
              rep +++ replace_all m rep (String.length s' - String.length r) s'
          | None => String c (replace_all m rep 0 s')
          end
      end
  end.

Definition replace (m : string -> option string) (rep s : string) : string :=
  replace_all m rep 0 s.

Definition not_gt (c : ascii) : bool := negb (c =? ">")%char.

(** [<br\s*\/?>] with the flag [i] *)
Definition re_br (s : string) : option string :=
  match lit_ci "<br" s with
  | Some r =>
      let r1 := drop_leading js_whitespace (String.length r) r in
      let r2 := match strip_prefix "/" r1 with Some x => x | None => r1 end in
      strip_prefix ">" r2
  | None => None
  end.

(** [<\/h[1-6]>] with the flag [i] *)
Definition re_heading_end (s : string) : option string :=
  match lit_ci "</h" s with
  | Some (String d r) => if in_range 49 54 d then strip_prefix ">" r else None
  | _ => None
  end.

(** [<li[^>]*>] with the flag [i] *)
Definition re_li (s : string) : option string :=
  match lit_ci "<li" s with
  | Some r => strip_prefix ">" (snd (span not_gt r))
  | None => None
  end.

(** [<[^>]+>] *)
Definition re_tag (s : string) : option string :=
  match strip_prefix "<" s with
  | Some r =>
      let (a, b) := span not_gt r in
      if nonempty a then strip_prefix ">" b else None
  | None => None
  end.

(** [\n{3,}] *)
Definition re_blank_lines (s : string) : option string :=
  let (a, b) := span (fun c => code c =? 10) s in
  if 3 <=? String.length a then Some b else None.

Definition APOSTROPHE : string := String (byte 39) EmptyString.

Definition stripHtml (html : string) : string :=
  let s1 := replace re_br LF html in
  let s2 := replace (lit_ci "</p>") (LF +++ LF) s1 in
  let s3 := replace re_heading_end (LF +++ LF) s2 in
  let s4 := replace (lit_ci "</li>") LF s3 in
  let s5 := replace re_li "- " s4 in
  let s6 := replace re_tag EmptyString s5 in
  let s7 := replace (strip_prefix "&amp;") "&" s6 in
  let s8 := replace (strip_prefix "&lt;") "<" s7 in
  let s9 := replace (strip_prefix "&gt;") ">" s8 in
  let s10 := replace (strip_prefix "&quot;") QUOTE s9 in
  let s11 := replace (strip_prefix "&#39;") APOSTROPHE s10 in
  let s12 := replace (strip_prefix "&nbsp;") " " s11 in
  let s13 := replace re_blank_lines (LF +++ LF) s12 in
  trim s13.

(** No three line feeds in a row. *)
Fixpoint no_blank_lines (s : string) : bool :=
  match s with
  | EmptyString => true
  | String c s' =>
      negb (startsWith s (LF +++ LF +++ LF)) && no_blank_lines s'
  end.

(** * Theorems *)

(** ** Orchestration *)

Lemma fetchPageData_error (w : World) (videoId : string) (e : ScribeError) :
  fetchPageData w videoId = Err e -> exists m c, e = TranscriptionError m c.
Proof.
  unfold fetchPageData.
  destruct (get_watch_page w videoId) as [cause | ok st hs sc].
  - intros H; inversion H; eauto.
  - destruct ok; simpl; intros H; inversion H; eauto.
Qed.

Lemma fetchTranscriptViaApi_error (w : World) (params : string)
    (vd : option string) (e : ScribeError) :
  fetchTranscriptViaApi w params vd = Err e ->
  (exists m c, e = TranscriptionError m c)
  \/ (exists v, e = CaptionsDisabledError v)
  \/ (exists m, e = TypeError m).
Proof.
  unfold fetchTranscriptViaApi.
  destruct (post_get_transcript w params vd) as [cause | ok st txt body].
  - intros H; inversion H; eauto.
  - destruct ok; simpl.
    + destruct body as [cause | m | [err |] data].
      * intros H; inversion H; eauto.
      * intros H; inversion H; eauto.
      * destruct (_ =? _)%string; intros H; inversion H; eauto.
      * discriminate.
    + intros H; inversion H; eauto.
Qed.



(** Unfolding of [transcribeVideo] once the identifier and the page are
    known and the playability check has passed. *)
Lemma transcribeVideo_after_page (w : World) (input videoId : string)
    (options : TranscribeOptions) (pageData : PageData) :
  extractVideoId input = Some videoId ->
  fetchPageData w videoId = Ok pageData ->
  status_blocks (page_status pageData) = false ->
  let language := or_default (opt_language options) "en" in
  transcribeVideo w input options =
  match fetchTranscriptViaApi w (chooseTranscriptParams pageData videoId language)
          (visitorData pageData) with
  | Err (CaptionsDisabledError v) =>
      Err (no_segments_error pageData language (CaptionsDisabledError v))
  | Err e => Err e
  | Ok apiResponse =>
      let segments := parseTranscriptSegments apiResponse in
      if List.length segments =? 0 then
        Err (no_segments_error pageData language (CaptionsDisabledError videoId))
      else
        Ok {| res_videoId := videoId;
              res_language := language;
              res_isAutoGenerated :=
                match find (fun t => startsWith (toLowerCase (languageCode t))
                                       (toLowerCase language))
                        (page_tracks pageData) with
                | Some t => is_asr (kind t)
                | None => false
                end;
              res_transcript :=
                match (match opt_format options with
                       | Some f => f
                       | None => FormatText
                       end) with
                | FormatText => TranscriptString (formatAsText segments)
                | FormatSrt => TranscriptString (formatAsSrt segments)
                | FormatJson => TranscriptSegments segments
                end |}
  end.
Proof.
  intros Hid Hpage Hst; unfold transcribeVideo.
  rewrite Hid, Hpage, Hst; reflexivity.
Qed.



(** A successful transcription went through every step. *)
Lemma transcribeVideo_ok_inv (w : World) (input : string)
    (options : TranscribeOptions) (r : TranscribeResult) :
  transcribeVideo w input options = Ok r ->
  exists videoId pageData apiResponse,
    extractVideoId input = Some videoId
    /\ fetchPageData w videoId = Ok pageData
    /\ status_blocks (page_status pageData) = false
    /\ fetchTranscriptViaApi w
         (chooseTranscriptParams pageData videoId (or_default (opt_language options) "en"))
         (visitorData pageData) = Ok apiResponse
    /\ parseTranscriptSegments apiResponse <> []
    /\ res_videoId r = videoId
    /\ res_language r = or_default (opt_language options) "en"
    /\ res_isAutoGenerated r =
       match find (track_matches (or_default (opt_language options) "en"))
               (page_tracks pageData) with
       | Some t => is_asr (kind t)
       | None => false
       end.
Proof.
  intros H.
  destruct (extractVideoId input) as [videoId |] eqn:Hid;
    [| unfold transcribeVideo in H; rewrite Hid in H; discriminate].
  destruct (fetchPageData w videoId) as [pageData | e] eqn:Hpage;
    [| unfold transcribeVideo in H; rewrite Hid, Hpage in H; discriminate].
  destruct (status_blocks (page_status pageData)) eqn:Hst;
    [unfold transcribeVideo in H; rewrite Hid, Hpage, Hst in H; discriminate |].
  rewrite (transcribeVideo_after_page w input videoId options pageData Hid Hpage Hst) in H.
  cbv zeta in H.
  destruct (fetchTranscriptViaApi _ _ _) as [apiResponse | e] eqn:Hapi.
  - exists videoId, pageData, apiResponse.
    destruct (parseTranscriptSegments apiResponse) as [| seg segs] eqn:Hseg;
      [simpl in H; discriminate |].
    simpl in H. inversion H; subst r; simpl.
    repeat split; try assumption; try reflexivity; discriminate.
  - destruct e; discriminate.
Qed.






(** C5 (as stated it fails): an input without a video identifier makes the
    transcription fail with the generic TranscriptionError; the code has no
    error kind of its own for an invalid identifier. *)
Lemma invalid_identifier_is_generic_failure :
  extractVideoId "not a video" = None
  /\ transcribeVideo (world_of (PageNetworkError None) (ApiNetworkError None))
       "not a video" no_options
     = Err (TranscriptionError
              ("Could not extract a valid YouTube video ID from: "
                 +++ QUOTE +++ "not a video" +++ QUOTE) None)
  /\ ~ (exists e,
          transcribeVideo (world_of (PageNetworkError None) (ApiNetworkError None))
            "not a video" no_options = Err e
          /\ error_name e <> "TranscriptionError").
Proof.
  split; [vm_compute; reflexivity |].
  split; [vm_compute; reflexivity |].
  intros [e [He Hne]]. vm_compute in He. inversion He; subst e.
  apply Hne; reflexivity.
Qed.

(** C5 (amended): for every input from which no identifier can be parsed,
    the transcription fails, before any request is made, with a
    TranscriptionError (the generic kind) whose message quotes the
    input. *)
Theorem invalid_identifier_fails (w : World) (input : string)
    (options : TranscribeOptions) :
  extractVideoId input = None ->
  transcribeVideo w input options =
  Err (TranscriptionError
         ("Could not extract a valid YouTube video ID from: "
            +++ QUOTE +++ input +++ QUOTE) None).
Proof. intros H; unfold transcribeVideo; rewrite H; reflexivity. Qed.

Lemma invalid_identifier_fails_witness :
  transcribeVideo (world_of (PageNetworkError None) (ApiNetworkError None))
    "https://example.com/" no_options
  = Err (TranscriptionError
           ("Could not extract a valid YouTube video ID from: "
              +++ QUOTE +++ "https://example.com/" +++ QUOTE) None).
Proof.
  apply (invalid_identifier_fails
           (world_of (PageNetworkError None) (ApiNetworkError None))
           "https://example.com/" no_options).
  vm_compute; reflexivity.
Defined.

(** C8: the language of a successful transcription is the language the
    caller asked for (en by default), whatever token was sent. *)
Theorem result_language_is_requested (w : World) (input : string)
    (options : TranscribeOptions) (r : TranscribeResult) :
  transcribeVideo w input options = Ok r ->
  res_language r = match opt_language options with
                   | Some language => language
                   | None => "en"
                   end.
Proof.
  intros H.
  destruct (transcribeVideo_ok_inv w input options r H)
    as (videoId & pageData & apiResponse & _ & _ & _ & _ & _ & _ & Hl & _).
  exact Hl.
Qed.

Lemma result_language_is_requested_witness :
  res_language
    (mkResult sample_id "de" true
       (TranscriptString "Hallo Welt")) = "de".
Proof.
  apply (result_language_is_requested
           (world_of (page_of (Some (player_with None [track "de-DE" (Some "asr")])))
              (ApiResponse true 200 EmptyString
                 (BodyJson None (response_of [item_of "Hallo" "0" "1500";
                                              item_of " Welt " "1500" "2500"]))))
           sample_id (mkOptions (Some "de") None)).
  vm_compute; reflexivity.
Defined.

Lemma lacks_status_page_status (pageData : PageData) :
  lacks_status pageData -> page_status pageData = None.
Proof.
  unfold lacks_status, page_status.
  intros [-> | [pr [-> [-> | [ps [-> Hs]]]]]]; auto.
Qed.

Lemma page_tracks_mark_playable (pr : option PlayerResponse)
    (d : option InitialData) (v : option string) (cv ck : string) :
  page_tracks (mkPageData (Some (mark_playable pr)) d v cv ck)
  = page_tracks (mkPageData pr d v cv ck).
Proof. destruct pr; reflexivity. Qed.

Lemma fetchPageData_playable_world (w : World) (videoId : string)
    (pageData : PageData) :
  fetchPageData w videoId = Ok pageData ->
  fetchPageData (playable_world w) videoId =
  Ok (mkPageData (Some (mark_playable (playerResponse pageData)))
        (initialData pageData) (visitorData pageData)
        (clientVersion pageData) (cookies pageData)).
Proof.
  unfold fetchPageData, playable_world; simpl.
  destruct (get_watch_page w videoId) as [c | ok st hs sc]; [discriminate |].
  destruct ok; simpl; [| discriminate].
  intros H; inversion H; reflexivity.
Qed.

(** C9: when the player document is absent or carries no playability
    status, neither operation fails with VideoUnavailable, and both give
    what they give when the same page reports the status OK. *)
Theorem missing_status_passes_playability (w : World) (input videoId : string)
    (options : TranscribeOptions) (pageData : PageData) :
  fetchPageData w videoId = Ok pageData ->
  lacks_status pageData ->
  (forall v, listAvailableLanguages w videoId <> Err (VideoNotFoundError v))
  /\ listAvailableLanguages w videoId = listAvailableLanguages (playable_world w) videoId
  /\ (extractVideoId input = Some videoId ->
      (forall v, transcribeVideo w input options <> Err (VideoNotFoundError v))
      /\ transcribeVideo w input options = transcribeVideo (playable_world w) input options).
Proof.
  intros Hpage Hlack.
  pose proof (lacks_status_page_status pageData Hlack) as Hst.
  pose proof (fetchPageData_playable_world w videoId pageData Hpage) as Hpage'.
  assert (Hblocks : status_blocks (page_status pageData) = false)
    by (rewrite Hst; reflexivity).
  destruct pageData as [pr d vd cv ck]; simpl in Hpage'.
  repeat split.
  - intros v; unfold listAvailableLanguages; rewrite Hpage, Hblocks; discriminate.
  - unfold listAvailableLanguages; rewrite Hpage, Hpage', Hblocks.
    replace (status_blocks (page_status (mkPageData (Some (mark_playable pr)) d vd cv ck)))
      with false by (destruct pr; reflexivity).
    rewrite page_tracks_mark_playable; reflexivity.
  - intros v.
    rewrite (transcribeVideo_after_page w input videoId options _ H Hpage Hblocks).
    cbv zeta.
    destruct (fetchTranscriptViaApi _ _ _) as [r | e] eqn:Hapi.
    + destruct (_ =? 0); [| discriminate].
      unfold no_segments_error; destruct (0 <? _); discriminate.
    + destruct (fetchTranscriptViaApi_error _ _ _ _ Hapi)
        as [[m [c ->]] | [[v' ->] | [m ->]]].
      * discriminate.
      * unfold no_segments_error; destruct (0 <? _); discriminate.
      * discriminate.
  - rewrite (transcribeVideo_after_page w input videoId options _ H Hpage Hblocks).
    rewrite (transcribeVideo_after_page (playable_world w) input videoId options _ H Hpage')
      by (destruct pr; reflexivity).
    unfold no_segments_error.
    rewrite page_tracks_mark_playable; reflexivity.
Qed.

Lemma missing_status_passes_playability_witness :
  listAvailableLanguages (world_of (page_of None) precondition_failed) sample_id
  = listAvailableLanguages
      (playable_world (world_of (page_of None) precondition_failed)) sample_id
  /\ transcribeVideo
       (world_of (page_of (Some (player_with (Some (mkPlayabilityStatus None None))
                                   [track "en" None])))
          precondition_failed)
       sample_id no_options
     = transcribeVideo
         (playable_world
            (world_of (page_of (Some (player_with (Some (mkPlayabilityStatus None None))
                                        [track "en" None])))
               precondition_failed))
         sample_id no_options.
Proof.
  split.
  - refine (proj1 (proj2 (missing_status_passes_playability
              (world_of (page_of None) precondition_failed) sample_id sample_id
              no_options
              (mkPageData None None None "2.20241121.01.00" CONSENT_COOKIE) _ _))).
    + reflexivity.
    + left; reflexivity.
  - refine (proj2 (proj2 (proj2 (missing_status_passes_playability
              (world_of (page_of (Some (player_with (Some (mkPlayabilityStatus None None))
                                          [track "en" None])))
                 precondition_failed)
              sample_id sample_id no_options
              (mkPageData (Some (player_with (Some (mkPlayabilityStatus None None))
                                   [track "en" None]))
                 None None "2.20241121.01.00" CONSENT_COOKIE) _ _)) _)).
    + reflexivity.
    + right; eexists; split; [reflexivity |].
      right; eexists; split; reflexivity.
    + vm_compute; reflexivity.
Defined.

Lemma find_some_split {A} (p : A -> bool) (l : list A) (x : A) :
  find p l = Some x ->
  exists pre post,
    l = pre ++ x :: post /\ p x = true /\ forall y, In y pre -> p y = false.
Proof.
  induction l as [| a l IH]; simpl; [discriminate |].
  destruct (p a) eqn:Hpa.
  - intros H; inversion H; subst a.
    exists [], l; repeat split; auto. intros y [].
  - intros H; destruct (IH H) as (pre & post & -> & Hx & Hpre).
    exists (a :: pre), post; repeat split; auto.
    intros y [<- | Hy]; auto.
Qed.

(** C10: in a successful transcription the auto-generated flag is false
    when no caption track of the page state has a code that the requested
    language is a prefix of (letter case apart); it is true only when such
    a track exists, and the first such track has the kind asr. *)
Theorem auto_generated_flag (w : World) (input videoId : string)
    (options : TranscribeOptions) (pageData : PageData) (r : TranscribeResult) :
  extractVideoId input = Some videoId ->
  fetchPageData w videoId = Ok pageData ->
  transcribeVideo w input options = Ok r ->
  let language := match opt_language options with
                  | Some l => l
                  | None => "en"
                  end in
  ((forall t, In t (page_tracks pageData) -> track_matches language t = false) ->
   res_isAutoGenerated r = false)
  /\ (res_isAutoGenerated r = true ->
      exists before t after,
        page_tracks pageData = before ++ t :: after
        /\ (forall t', In t' before -> track_matches language t' = false)
        /\ track_matches language t = true
        /\ kind t = Some "asr").
Proof.
  intros Hid Hpage Hok language.
  destruct (transcribeVideo_ok_inv w input options r Hok)
    as (videoId' & pageData' & apiResponse & Hid' & Hpage' & _ & _ & _ & _ & _ & Hauto).
  rewrite Hid in Hid'; inversion Hid'; subst videoId'.
  rewrite Hpage in Hpage'; inversion Hpage'; subst pageData'.
  change (or_default (opt_language options) "en") with language in Hauto.
  split.
  - intros Hnone.
    destruct (find (track_matches language) (page_tracks pageData)) as [t |] eqn:Hf;
      [| exact Hauto].
    destruct (find_some _ _ Hf) as [Hin Hm].
    rewrite (Hnone t Hin) in Hm; discriminate.
  - intros Htrue; rewrite Htrue in Hauto.
    destruct (find (track_matches language) (page_tracks pageData)) as [t |] eqn:Hf;
      [| discriminate].
    destruct (find_some_split _ _ _ Hf) as (pre & post & Hl & Hm & Hpre).
    exists pre, t, post; repeat split; auto.
    unfold is_asr in Hauto. destruct (kind t) as [k |]; [| discriminate].
    symmetry in Hauto; apply String.eqb_eq in Hauto; subst k; reflexivity.
Qed.

Lemma auto_generated_flag_witness :
  exists before t after,
    [track "fr" None; track "de-DE" (Some "asr"); track "de" None]
    = before ++ t :: after
    /\ (forall t', In t' before -> track_matches "DE" t' = false)
    /\ track_matches "DE" t = true
    /\ kind t = Some "asr".
Proof.
  refine (proj2 (auto_generated_flag
            (world_of (page_of (Some (player_with None
                         [track "fr" None; track "de-DE" (Some "asr"); track "de" None])))
               (ApiResponse true 200 EmptyString
                  (BodyJson None (response_of [item_of "Hallo" "0" "1500"]))))
            sample_id sample_id (mkOptions (Some "DE") None)
            (mkPageData (Some (player_with None
                         [track "fr" None; track "de-DE" (Some "asr"); track "de" None]))
               None None "2.20241121.01.00" CONSENT_COOKIE)
            (mkResult sample_id "DE" true (TranscriptString "Hallo"))
            _ _ _) _).
  - vm_compute; reflexivity.
  - reflexivity.
  - vm_compute; reflexivity.
  - reflexivity.
Defined.

(** ** Segment parsing *)

Lemma concat_runs (rs : list TextRun) :
  str_concat (map (fun r => or_default (run_text r) EmptyString) rs)
  = fold_right
      (fun r rest => match run_text r with
                     | Some t => t +++ rest
                     | None => rest
                     end) EmptyString rs.
Proof.
  induction rs as [| r rs IH]; [reflexivity |].
  cbn [map str_concat fold_right]. rewrite IH.
  destruct (run_text r); reflexivity.
Qed.

(** The code reads the text of a renderer as the specification does. *)
Lemma snippet_text_display (renderer : TranscriptSegmentRenderer) :
  snippet_text renderer = display_text renderer.
Proof.
  unfold snippet_text, display_text.
  destruct (snippet renderer) as [sn |]; [| reflexivity].
  destruct (elementsAttributedString sn) as [[[t |]] |]; cbn [content];
    try reflexivity;
    (destruct (runs sn) as [rs |]; [apply concat_runs | reflexivity]).
Qed.

(** The code finds the segment list of an action where the specification
    does. *)
Lemma action_segments_nested (action : Action) (items : list TranscriptSegmentItem) :
  action_segments action = Some items <-> nested_segments action items.
Proof.
  unfold action_segments. split.
  - destruct (elementsCommand action) as [ec |] eqn:H1; [| discriminate].
    destruct (transformEntityCommand ec) as [tec |] eqn:H2; [| discriminate].
    destruct (arguments tec) as [args |] eqn:H3; [| discriminate].
    destruct (transformTranscriptSegmentListArguments args) as [targs |] eqn:H4;
      [| discriminate].
    destruct (overwrite targs) as [ov |] eqn:H5; [| discriminate].
    intros H6. exact (nested_at action items ec tec args targs ov H1 H2 H3 H4 H5 H6).
  - intros [ec tec args targs ov H1 H2 H3 H4 H5 H6].
    rewrite H1, H2, H3, H4, H5. exact H6.
Qed.

Lemma parse_item_kept (item : TranscriptSegmentItem) :
  kept item = true ->
  exists seg, parse_item item = Some seg /\ text seg = derived_text item.
Proof.
  unfold kept, derived_text, parse_item.
  destruct (transcriptSegmentRenderer item) as [renderer |]; [| discriminate].
  rewrite snippet_text_display.
  intros ->; simpl; eexists; split; reflexivity.
Qed.

Lemma parse_item_dropped (item : TranscriptSegmentItem) :
  kept item = false -> parse_item item = None.
Proof.
  unfold kept, derived_text, parse_item.
  destruct (transcriptSegmentRenderer item) as [renderer |]; [| reflexivity].
  rewrite snippet_text_display.
  intros ->; reflexivity.
Qed.

Lemma parse_items_kept (items : list TranscriptSegmentItem) :
  Forall2 (fun item seg => parse_item item = Some seg /\ text seg = derived_text item)
    (filter kept items) (parse_items items).
Proof.
  induction items as [| item items IH]; simpl; [constructor |].
  destruct (kept item) eqn:Hk.
  - destruct (parse_item_kept item Hk) as [seg [Hp Ht]].
    rewrite Hp; constructor; auto.
  - rewrite (parse_item_dropped item Hk); exact IH.
Qed.

Lemma parse_items_nil (items : list TranscriptSegmentItem) :
  parse_items items = [] <-> filter kept items = [].
Proof.
  pose proof (parse_items_kept items) as H.
  split; intros E; rewrite E in H; inversion H; reflexivity.
Qed.

Lemma parse_actions_spec (acts : list Action) :
  (exists before a after items,
      acts = before ++ a :: after
      /\ action_segments a = Some items
      /\ (forall b its, In b before -> action_segments b = Some its -> filter kept its = [])
      /\ filter kept items <> []
      /\ parse_actions acts = parse_items items)
  \/ ((forall a its, In a acts -> action_segments a = Some its -> filter kept its = [])
      /\ parse_actions acts = []).
Proof.
  induction acts as [| a acts IH]; simpl.
  - right; split; [intros a its [] | reflexivity].
  - assert (Hskip :
      (forall its, action_segments a = Some its -> filter kept its = []) ->
      (exists before a0 after items,
          a :: acts = before ++ a0 :: after
          /\ action_segments a0 = Some items
          /\ (forall b its, In b before -> action_segments b = Some its -> filter kept its = [])
          /\ filter kept items <> []
          /\ parse_actions acts = parse_items items)
      \/ ((forall a0 its, In a0 (a :: acts) -> action_segments a0 = Some its -> filter kept its = [])
          /\ parse_actions acts = [])).
    { intros Ha.
      destruct IH as [(before & a0 & after & items & -> & Hs & Hb & Hne & Hp) | [Hall Hp]].
      - left; exists (a :: before), a0, after, items; repeat split; auto.
        intros b its [<- | Hin]; eauto.
      - right; split; auto.
        intros a0 its [<- | Hin]; eauto. }
    destruct (action_segments a) as [[| item items] |] eqn:Hseg.
    + apply Hskip; intros its E; inversion E; reflexivity.
    + destruct (parse_items (item :: items)) as [| seg segs] eqn:Hp.
      * simpl. apply Hskip; intros its E; inversion E; subst its.
        apply parse_items_nil; exact Hp.
      * simpl. left; exists [], a, acts, (item :: items); repeat split; auto.
        -- intros b its [].
        -- intros E; apply parse_items_nil in E; rewrite E in Hp; discriminate.
    + apply Hskip; intros its E; discriminate.
Qed.

(** C6: the segments returned for an API response are those of the first
    action whose segment list keeps an entry, where the segment list of an
    action is the list of initial segments nested in it; they correspond,
    one to one and in the order of that list, to its entries whose derived
    text (the pre-joined string or else the runs joined, newlines replaced
    by spaces, then trimmed) is not empty, so exactly the entries with an
    empty text are dropped. When no action keeps an entry the result is
    empty. *)
Theorem parsing_drops_empty_keeps_order (apiResponse : TranscriptApiResponse) :
  let acts := match actions apiResponse with Some l => l | None => [] end in
  (exists before a after items,
      acts = before ++ a :: after
      /\ nested_segments a items
      /\ (forall b its, In b before -> nested_segments b its -> filter kept its = [])
      /\ filter kept items <> []
      /\ Forall2 (fun item seg => parse_item item = Some seg
                                  /\ text seg = derived_text item)
           (filter kept items) (parseTranscriptSegments apiResponse))
  \/ ((forall a its, In a acts -> nested_segments a its -> filter kept its = [])
      /\ parseTranscriptSegments apiResponse = []).
Proof.
  intros acts; unfold parseTranscriptSegments; fold acts.
  destruct (parse_actions_spec acts)
    as [(before & a & after & items & Hacts & Hs & Hb & Hne & Hp) | [Hall Hnil]].
  - left; exists before, a, after, items; repeat split; auto.
    + apply action_segments_nested; exact Hs.
    + intros b its Hin Hn. apply (Hb b its Hin). apply action_segments_nested; exact Hn.
    + rewrite Hp; apply parse_items_kept.
  - right; split; [| exact Hnil].
    intros a its Hin Hn. apply (Hall a its Hin). apply action_segments_nested; exact Hn.
Qed.

Lemma parsing_drops_empty_keeps_order_witness :
  parseTranscriptSegments sample_response
  = [mkSegment "Hello world" (Num 0) (Num 1500);
     mkSegment "Second line" (Num 1500) (Num 2500);
     mkSegment "tail" (Num 0) (Num 0)]
  /\ map derived_text
       [run_item [Some "Hello"; None; Some (LF +++ "world ")] "0" "1500";
        mkItem None;
        run_item [Some " "] "1500" "1600";
        item_of "Second line" "1500" "4000"]
     = ["Hello world"; EmptyString; EmptyString; "Second line"].
Proof.
  destruct (parsing_drops_empty_keeps_order sample_response)
    as [(before & a & after & items & _ & _ & _ & _ & Hkept) | [_ Hnil]].
  - split; vm_compute; reflexivity.
  - vm_compute in Hnil. discriminate Hnil.
Defined.

(** ** SRT output *)

Lemma pad_two_digits_small :
  forallb (fun k => (pad (Num (Z.of_nat k)) 2 =? two_digits (Z.of_nat k))%string)
    (seq 0 100) = true.
Proof. vm_compute; reflexivity. Qed.

Lemma pad_three_digits_small :
  forallb (fun k => (pad (Num (Z.of_nat k)) 3 =? three_digits (Z.of_nat k))%string)
    (seq 0 1000) = true.
Proof. vm_compute; reflexivity. Qed.

Lemma pad_two_digits (n : Z) :
  (0 <= n < 100)%Z -> pad (Num n) 2 = two_digits n.
Proof.
  intros Hn.
  pose proof pad_two_digits_small as H.
  rewrite forallb_forall in H.
  specialize (H (Z.to_nat n)).
  rewrite Z2Nat.id in H by lia.
  apply String.eqb_eq, H, in_seq; lia.
Qed.

Lemma pad_three_digits (n : Z) :
  (0 <= n < 1000)%Z -> pad (Num n) 3 = three_digits n.
Proof.
  intros Hn.
  pose proof pad_three_digits_small as H.
  rewrite forallb_forall in H.
  specialize (H (Z.to_nat n)).
  rewrite Z2Nat.id in H by lia.
  apply String.eqb_eq, H, in_seq; lia.
Qed.

Lemma length_append (a b : string) :
  String.length (a +++ b) = String.length a + String.length b.
Proof. induction a; simpl; auto. Qed.

Lemma nat_digits_length (fuel n : nat) :
  1 <= String.length (nat_digits (S fuel) n).
Proof.
  simpl. destruct (n <? 10); simpl; [lia |].
  rewrite length_append; simpl; lia.
Qed.

Lemma String_of_nat_long (n : nat) :
  10 <= n -> 2 <= String.length (String_of_nat n).
Proof.
  intros Hn. unfold String_of_nat.
  destruct n as [| n]; [lia |].
  change (nat_digits (S (S n)) (S n))
    with (if S n <? 10 then String (digit_char (S n)) EmptyString
          else nat_digits (S n) (S n / 10) +++ String (digit_char (S n mod 10)) EmptyString).
  destruct (Nat.ltb_spec (S n) 10); [lia |].
  rewrite length_append. pose proof (nat_digits_length n (S n / 10)).
  cbn [String.length]; lia.
Qed.

Lemma pad_hours (h : Z) : (0 <= h)%Z -> pad (Num h) 2 = hours_field h.
Proof.
  intros Hh. unfold hours_field.
  destruct (Z.ltb_spec h 100).
  - apply pad_two_digits; lia.
  - unfold pad, String_of_number.
    destruct (Z.ltb_spec h 0); [lia |].
    rewrite Zabs2Nat.abs_nat_nonneg by lia.
    unfold padStart0.
    pose proof (String_of_nat_long (Z.to_nat h)) as Hl.
    replace (2 - String.length (String_of_nat (Z.to_nat h))) with 0 by lia.
    reflexivity.
Qed.

Lemma msToSrtTimestamp_spec (ms : Z) :
  (0 <= ms)%Z -> msToSrtTimestamp (Num ms) = spec_timestamp ms.
Proof.
  intros Hms. unfold msToSrtTimestamp, spec_timestamp; simpl.
  assert (Hts : (0 <= ms / 1000)%Z) by (apply Z.div_pos; lia).
  rewrite !Z.rem_mod_nonneg by lia.
  rewrite pad_hours by (apply Z.div_pos; lia).
  rewrite (pad_two_digits ((ms / 1000) mod 3600 / 60)).
  2:{ pose proof (Z.mod_pos_bound (ms / 1000) 3600 ltac:(lia)).
      split; [apply Z.div_pos; lia | apply Z.div_lt_upper_bound; lia]. }
  rewrite (pad_two_digits ((ms / 1000) mod 60)).
  2:{ pose proof (Z.mod_pos_bound (ms / 1000) 60 ltac:(lia)); lia. }
  rewrite (pad_three_digits (ms mod 1000)).
  2:{ pose proof (Z.mod_pos_bound ms 1000 ltac:(lia)); lia. }
  reflexivity.
Qed.

Lemma map_indexed_cues (segs : list TranscriptSegment) (i : nat) :
  map_indexed srt_cue i segs =
  map (fun p => spec_cue (fst p) (snd p)) (combine (seq (S i) (List.length segs)) segs).
Proof.
  revert i; induction segs as [| seg segs IH]; intros i; simpl; [reflexivity |].
  rewrite IH. unfold srt_cue at 1, spec_cue at 2; simpl.
  rewrite Nat.add_1_r; reflexivity.
Qed.

(** C7: for a count of milliseconds that is not negative and is below
    2^53 (where the doubles of the code are exact),
    a timestamp is HH:MM:SS,mmm with hours = floor(totalSeconds/3600),
    minutes = floor((totalSeconds mod 3600)/60), seconds = totalSeconds
    mod 60 and milliseconds = ms mod 1000, hours, minutes and seconds
    padded to two digits and milliseconds to three; the SRT text is made
    of one cue per segment, numbered from one, from its start to its start
    plus its duration, the cues separated by an empty line; and the single
    segment Hi that starts at 1000 ms and lasts 2000 ms gives the cue of
    the specification. *)
Theorem srt_format (ms : Z) (segments : list TranscriptSegment) :
  (0 <= ms)%Z ->
  (ms < 2 ^ 53)%Z ->
  msToSrtTimestamp (Num ms) =
    hours_field (ms / 1000 / 3600)
      +++ ":" +++ two_digits ((ms / 1000) mod 3600 / 60)
      +++ ":" +++ two_digits ((ms / 1000) mod 60)
      +++ "," +++ three_digits (ms mod 1000)
  /\ formatAsSrt segments =
     join (LF +++ LF)
       (map (fun p => spec_cue (fst p) (snd p))
          (combine (seq 1 (List.length segments)) segments))
  /\ formatAsSrt [mkSegment "Hi" (Num 1000) (Num 2000)] =
     "1" +++ LF +++ "00:00:01,000 --> 00:00:03,000" +++ LF +++ "Hi".
Proof.
  intros Hms _; split; [| split].
  - exact (msToSrtTimestamp_spec ms Hms).
  - unfold formatAsSrt; rewrite map_indexed_cues; reflexivity.
  - vm_compute; reflexivity.
Qed.

Lemma srt_format_witness :
  msToSrtTimestamp (Num 3661001) = "01:01:01,001"
  /\ formatAsSrt [mkSegment "Hi" (Num 1000) (Num 2000); mkSegment "there" (Num 3000) (Num 500)]
     = "1" +++ LF +++ "00:00:01,000 --> 00:00:03,000" +++ LF +++ "Hi"
       +++ LF +++ LF
       +++ "2" +++ LF +++ "00:00:03,000 --> 00:00:03,500" +++ LF +++ "there".
Proof.
  destruct (srt_format 3661001
              [mkSegment "Hi" (Num 1000) (Num 2000); mkSegment "there" (Num 3000) (Num 500)]
              ltac:(lia) eq_refl) as [Hts [Hsrt _]].
  split.
  - rewrite Hts; vm_compute; reflexivity.
  - rewrite Hsrt; vm_compute; reflexivity.
Defined.

(** ** Bytes, Base64 and URI escapes *)

Lemma code_lt (c : ascii) : code c < 256.
Proof. apply nat_ascii_bounded. Qed.

Lemma code_byte (n : nat) : n < 256 -> code (byte n) = n.
Proof.
  intros H; unfold code, byte.
  rewrite Nat.mod_small by assumption. apply nat_ascii_embedding; assumption.
Qed.

Lemma byte_code (c : ascii) : byte (code c) = c.
Proof.
  unfold byte, code. rewrite Nat.mod_small by apply nat_ascii_bounded.
  apply ascii_nat_embedding.
Qed.

Lemma list_ind3 {A} (P : list A -> Prop) :
  P [] -> (forall x, P [x]) -> (forall x y, P [x; y]) ->
  (forall x y z l, P l -> P (x :: y :: z :: l)) ->
  forall l, P l.
Proof.
  intros H0 H1 H2 H3.
  assert (H : forall l, P l /\ (forall x, P (x :: l)) /\ (forall x y, P (x :: y :: l))).
  { induction l as [| a l [IH0 [IH1 IH2]]]; repeat split; auto. }
  intros l; apply H.
Qed.

Lemma b64_char_table :
  forallb (fun n => match unbase64 (b64_char n) with
                    | Some m => (m =? n) && negb (b64_char n =? "=")%char
                                && is_ascii (b64_char n)
                    | None => false
                    end) (seq 0 64) = true.
Proof. vm_compute; reflexivity. Qed.

Lemma b64_char_facts (n : nat) :
  n < 64 ->
  unbase64 (b64_char n) = Some n
  /\ (b64_char n =? "=")%char = false
  /\ is_ascii (b64_char n) = true.
Proof.
  intros Hn. pose proof b64_char_table as H.
  rewrite forallb_forall in H. specialize (H n ltac:(apply in_seq; lia)).
  destruct (unbase64 (b64_char n)) as [m |]; [| discriminate].
  apply andb_true_iff in H; destruct H as [H Ha].
  apply andb_true_iff in H; destruct H as [Hm He].
  apply Nat.eqb_eq in Hm; subst m.
  apply negb_true_iff in He. auto.
Qed.

Lemma base64_decode_step (pos hi n : nat) (s : string) :
  n < 64 ->
  base64_decode pos hi (String (b64_char n) s) =
  match pos with
  | 0 => base64_decode 1 n s
  | 1 => byte (hi mod 64 * 4 + n / 16) :: base64_decode 2 n s
  | 2 => byte (hi mod 16 * 16 + n / 4) :: base64_decode 3 n s
  | _ => byte (hi mod 4 * 64 + n) :: base64_decode 0 n s
  end.
Proof.
  intros Hn. destruct (b64_char_facts n Hn) as [Hu [He _]].
  cbn [base64_decode]. rewrite He, Hu. reflexivity.
Qed.

Lemma base64_decode_pad (pos hi : nat) (s : string) :
  base64_decode pos hi (String "=" s) = [].
Proof. reflexivity. Qed.

Lemma byte_eq (n : nat) (c : ascii) : n = code c -> byte n = c.
Proof. intros ->; apply byte_code. Qed.

(** Decoding what was encoded gives the bytes back. *)
Lemma base64_roundtrip (b : Buffer) (hi : nat) :
  base64_decode 0 hi (Buffer_toString_base64 b) = b.
Proof.
  revert hi; induction b as [| x | x y | x y z b IH] using list_ind3; intros hi.
  - reflexivity.
  - pose proof (code_lt x) as Hx.
    cbn [Buffer_toString_base64].
    rewrite !base64_decode_step by lia.
    rewrite base64_decode_pad.
    repeat (apply f_equal2; [apply byte_eq; lia |]); reflexivity.
  - pose proof (code_lt x) as Hx. pose proof (code_lt y) as Hy.
    cbn [Buffer_toString_base64].
    rewrite !base64_decode_step by lia.
    rewrite base64_decode_pad.
    repeat (apply f_equal2; [apply byte_eq; lia |]); reflexivity.
  - pose proof (code_lt x) as Hx. pose proof (code_lt y) as Hy.
    pose proof (code_lt z) as Hz.
    cbn [Buffer_toString_base64].
    rewrite !base64_decode_step by lia.
    rewrite IH.
    repeat (apply f_equal2; [apply byte_eq; lia |]); reflexivity.
Qed.

Ltac ascii_cases c := destruct c as [[] [] [] [] [] [] [] []].

Lemma unreserved_plain (c : ascii) :
  uri_unreserved c = true -> (c =? "%")%char = false /\ is_ascii c = true.
Proof. ascii_cases c; vm_compute; intros H; try discriminate H; split; reflexivity. Qed.

Lemma hex_char_table :
  forallb (fun n => match hex_val (hex_char n) with
                    | Some m => (m =? n) && is_ascii (hex_char n)
                    | None => false
                    end) (seq 0 16) = true.
Proof. vm_compute; reflexivity. Qed.

Lemma hex_char_facts (n : nat) :
  n < 16 -> hex_val (hex_char n) = Some n /\ is_ascii (hex_char n) = true.
Proof.
  intros Hn. pose proof hex_char_table as H.
  rewrite forallb_forall in H. specialize (H n ltac:(apply in_seq; lia)).
  destruct (hex_val (hex_char n)) as [m |]; [| discriminate].
  apply andb_true_iff in H; destruct H as [Hm Ha].
  apply Nat.eqb_eq in Hm; subst m; auto.
Qed.

Lemma uri_decode_escape (c : ascii) (s : string) :
  is_ascii c = true ->
  uri_decode [] 0 (percent_escape c +++ s) = option_map (String c) (uri_decode [] 0 s).
Proof.
  intros Hc. pose proof (code_lt c) as Hlt.
  destruct (hex_char_facts (code c / 16) ltac:(lia)) as [Hh _].
  destruct (hex_char_facts (code c mod 16) ltac:(lia)) as [Hl _].
  unfold percent_escape. cbn [String.append uri_decode].
  change ("%" =? "%")%char with true. cbv iota.
  rewrite Hh, Hl.
  replace (byte (code c / 16 * 16 + code c mod 16)) with c
    by (symmetry; apply byte_eq; lia).
  rewrite Hc. reflexivity.
Qed.

(** On ASCII text, unescaping what was escaped gives the text back. *)
Lemma uri_roundtrip (s : string) :
  str_forallb is_ascii s = true ->
  decodeURIComponent (encodeURIComponent s) = Some s.
Proof.
  unfold decodeURIComponent.
  induction s as [| c s IH]; [reflexivity |].
  cbn [str_forallb encodeURIComponent].
  intros H; apply andb_true_iff in H; destruct H as [Hc Hs].
  destruct (uri_unreserved c) eqn:Hu.
  - destruct (unreserved_plain c Hu) as [Hp _].
    cbn [uri_decode]. rewrite Hp, (IH Hs). reflexivity.
  - rewrite (uri_decode_escape c _ Hc), (IH Hs). reflexivity.
Qed.

Lemma str_forallb_append (p : ascii -> bool) (a b : string) :
  str_forallb p (a +++ b) = str_forallb p a && str_forallb p b.
Proof.
  induction a as [| c a IH]; [reflexivity |].
  cbn [String.append str_forallb]. rewrite IH, andb_assoc. reflexivity.
Qed.

Lemma encodeURIComponent_ascii (s : string) :
  str_forallb is_ascii (encodeURIComponent s) = true.
Proof.
  induction s as [| c s IH]; [reflexivity |].
  cbn [encodeURIComponent].
  destruct (uri_unreserved c) eqn:Hu.
  - destruct (unreserved_plain c Hu) as [_ Ha].
    cbn [str_forallb]. rewrite Ha, IH. reflexivity.
  - pose proof (code_lt c) as Hlt.
    destruct (hex_char_facts (code c / 16) ltac:(lia)) as [_ Hh].
    destruct (hex_char_facts (code c mod 16) ltac:(lia)) as [_ Hl].
    rewrite str_forallb_append, IH. unfold percent_escape.
    cbn [str_forallb]. rewrite Hh, Hl. reflexivity.
Qed.

Lemma encodeURIComponent_length (s : string) :
  String.length s <= String.length (encodeURIComponent s) <= 3 * String.length s.
Proof.
  induction s as [| c s IH]; [simpl; lia |].
  cbn [encodeURIComponent].
  destruct (uri_unreserved c).
  - cbn [String.length]; lia.
  - rewrite length_append. unfold percent_escape. cbn [String.length]; lia.
Qed.

Lemma base64_length (b : Buffer) :
  String.length (Buffer_toString_base64 b) = 4 * ((List.length b + 2) / 3).
Proof.
  induction b as [| x | x y | x y z b IH] using list_ind3;
    cbn [Buffer_toString_base64 String.length List.length];
    try rewrite IH; lia.
Qed.

Lemma base64_ascii (b : Buffer) :
  str_forallb is_ascii (Buffer_toString_base64 b) = true.
Proof.
  assert (Hc : forall n, n < 64 -> is_ascii (b64_char n) = true)
    by (intros n Hn; apply b64_char_facts; assumption).
  induction b as [| x | x y | x y z b IH] using list_ind3;
    try pose proof (code_lt x); try pose proof (code_lt y); try pose proof (code_lt z);
    cbn [Buffer_toString_base64 str_forallb];
    rewrite ?Hc by lia; try rewrite IH; reflexivity.
Qed.

Lemma utf8_run_ascii (bs : list ascii) :
  forallb is_ascii bs = true -> utf8_run None bs = bs.
Proof.
  induction bs as [| b bs IH]; [reflexivity |].
  cbn [forallb utf8_run].
  intros H; apply andb_true_iff in H; destruct H as [Hb Hbs].
  unfold utf8_lead. unfold is_ascii in Hb. rewrite Hb.
  cbn [app]. rewrite (IH Hbs). reflexivity.
Qed.

Lemma forallb_list_ascii_of_string (p : ascii -> bool) (s : string) :
  forallb p (list_ascii_of_string s) = str_forallb p s.
Proof. induction s as [| c s IH]; [reflexivity |]; simpl; rewrite IH; reflexivity. Qed.

Lemma length_list_ascii_of_string (s : string) :
  List.length (list_ascii_of_string s) = String.length s.
Proof. induction s as [| c s IH]; [reflexivity |]; simpl; rewrite IH; reflexivity. Qed.

Lemma utf8_decode_ascii (s : string) :
  str_forallb is_ascii s = true -> utf8_decode (list_ascii_of_string s) = s.
Proof.
  intros H. unfold utf8_decode.
  rewrite utf8_run_ascii by (rewrite forallb_list_ascii_of_string; exact H).
  apply string_of_list_ascii_of_string.
Qed.

(** ** The transcript token *)

Lemma test_video_id_shape (s : string) :
  test_video_id s = true ->
  exists c1 c2 c3 c4 c5 c6 c7 c8 c9 c10 c11,
    s = String c1 (String c2 (String c3 (String c4 (String c5 (String c6
          (String c7 (String c8 (String c9 (String c10 (String c11 EmptyString))))))))))
    /\ is_id_char c11 = true.
Proof.
  unfold test_video_id. intros H; apply andb_true_iff in H; destruct H as [Hl Hc].
  apply Nat.eqb_eq in Hl.
  do 11 (destruct s as [| ? s]; [discriminate Hl |]).
  destruct s; [| discriminate Hl].
  do 11 eexists; split; [reflexivity |].
  cbn [str_forallb] in Hc.
  repeat (apply andb_true_iff in Hc; destruct Hc as [? Hc]); assumption.
Qed.

Lemma id_char_not_tag (c : ascii) :
  is_id_char c = true -> (c =? byte 18)%char = false.
Proof. ascii_cases c; vm_compute; intros H; try discriminate H; reflexivity. Qed.

Lemma firstn_length_app {A} (l t : list A) : firstn (List.length l) (l ++ t) = l.
Proof.
  rewrite firstn_app, Nat.sub_diag, firstn_all. simpl. apply app_nil_r.
Qed.

(** The inner message gives its language back. *)
Lemma inner_language (lang : string) :
  str_forallb is_ascii lang = true ->
  1 <= String.length lang <= 255 ->
  let inner := Buffer_concat
    [ Buffer_from_array [10; 0];
      Buffer_from_array [18; List.length (Buffer_from_utf8 lang)];
      Buffer_from_utf8 lang;
      Buffer_from_array [26; 0] ] in
  match Buffer_indexOf (byte 18) 0 inner with
  | None => "en"
  | Some innerTag =>
      match nth_error inner (innerTag + 1) with
      | None => "en"
      | Some innerLenByte =>
          if code innerLenByte =? 0 then "en"
          else Buffer_toString_utf8
                 (Buffer_subarray (innerTag + 2) (innerTag + 2 + code innerLenByte) inner)
      end
  end = lang.
Proof.
  intros Hascii Hlen inner. subst inner.
  unfold Buffer_from_utf8.
  cbn [Buffer_concat List.concat Buffer_from_array map app].
  rewrite length_list_ascii_of_string.
  unfold Buffer_indexOf. cbn [skipn index_of].
  change (byte 10 =? byte 18)%char with false.
  change (byte 0 =? byte 18)%char with false.
  change (byte 18 =? byte 18)%char with true.
  cbn [option_map Nat.add nth_error].
  rewrite code_byte by lia.
  destruct (Nat.eqb_spec (String.length lang) 0) as [E | _]; [lia |].
  unfold Buffer_subarray. cbn [skipn Nat.sub].
  rewrite Nat.sub_0_r, <- (length_list_ascii_of_string lang), firstn_length_app.
  apply utf8_decode_ascii; assumption.
Qed.

Lemma buildLangProto_length (lang : string) :
  String.length lang <= 57 ->
  1 <= String.length (buildLangProto lang) <= 255.
Proof.
  intros Hlen. unfold buildLangProto, Buffer_from_utf8.
  cbn [Buffer_concat List.concat Buffer_from_array map app].
  rewrite length_list_ascii_of_string.
  match goal with
  | |- context [encodeURIComponent ?s] => pose proof (encodeURIComponent_length s) as H
  end.
  rewrite base64_length in H.
  cbn [List.length] in H.
  rewrite length_app, !length_list_ascii_of_string in H. cbn [List.length] in H.
  lia.
Qed.

(** A fresh token for any short ASCII language code decodes to that code. *)
Lemma fresh_token_language (videoId lang : string) :
  test_video_id videoId = true ->
  str_forallb is_ascii lang = true ->
  1 <= String.length lang <= 57 ->
  extractLangFromParams (buildTranscriptParams videoId lang) = lang.
Proof.
  intros Hid Hascii Hlen.
  destruct (test_video_id_shape videoId Hid)
    as (c1 & c2 & c3 & c4 & c5 & c6 & c7 & c8 & c9 & c10 & c11 & -> & Hc11).
  pose proof (buildLangProto_length lang ltac:(lia)) as HL.
  unfold extractLangFromParams, buildTranscriptParams, Buffer_from_base64.
  rewrite base64_roundtrip.
  unfold Buffer_from_utf8.
  rewrite !length_list_ascii_of_string.
  set (tail := Buffer_from_array [24; 1] :: _).
  cbn [Buffer_concat List.concat Buffer_from_array map app list_ascii_of_string].
  unfold Buffer_indexOf at 1. cbn [skipn index_of].
  rewrite (id_char_not_tag c11 Hc11).
  change (byte 18 =? byte 18)%char with true.
  cbn [option_map Nat.add nth_error].
  rewrite code_byte by lia.
  destruct (Nat.eqb_spec (String.length (buildLangProto lang)) 0) as [E | _]; [lia |].
  unfold Buffer_subarray at 1. cbn [skipn Nat.sub].
  rewrite Nat.sub_0_r, <- (length_list_ascii_of_string (buildLangProto lang)),
    firstn_length_app.
  unfold Buffer_toString_utf8 at 1.
  rewrite utf8_decode_ascii by apply encodeURIComponent_ascii.
  unfold buildLangProto at 1.
  rewrite uri_roundtrip by apply base64_ascii.
  rewrite base64_roundtrip.
  apply inner_language; [assumption | lia].
Qed.

(** C3: the language decoded from a freshly built token is the language it
    was built for: for every video identifier, a token built for de
    decodes to de, and the same holds for every ASCII language code of 1 to
    57 characters. *)
Theorem token_language_round_trip (videoId : string) :
  test_video_id videoId = true ->
  extractLangFromParams (buildTranscriptParams videoId "de") = "de"
  /\ (forall lang,
        str_forallb is_ascii lang = true ->
        1 <= String.length lang <= 57 ->
        extractLangFromParams (buildTranscriptParams videoId lang) = lang).
Proof.
  intros Hid; split.
  - apply fresh_token_language; [assumption | reflexivity | simpl; lia].
  - intros lang Ha Hl; apply fresh_token_language; assumption.
Qed.

Lemma token_language_round_trip_witness :
  extractLangFromParams (buildTranscriptParams sample_id "de") = "de"
  /\ extractLangFromParams (buildTranscriptParams sample_id "pt-BR") = "pt-BR".
Proof.
  destruct (token_language_round_trip sample_id ltac:(vm_compute; reflexivity))
    as [Hde Hany].
  split; [exact Hde |].
  apply Hany; [vm_compute; reflexivity | simpl; lia].
Defined.

(** ** Strings made of plain characters *)

Lemma str_forallb_impl (p q : ascii -> bool) (s : string) :
  (forall c, p c = true -> q c = true) ->
  str_forallb p s = true -> str_forallb q s = true.
Proof.
  intros Hpq; induction s as [| c s IH]; [reflexivity |].
  cbn [str_forallb]; intros H; apply andb_true_iff in H; destruct H as [Hc Hs].
  rewrite (Hpq c Hc), (IH Hs); reflexivity.
Qed.

Lemma span_all (p : ascii -> bool) (s : string) :
  str_forallb p s = true -> span p s = (s, EmptyString).
Proof.
  induction s as [| c s IH]; [reflexivity |].
  cbn [str_forallb span]; intros H; apply andb_true_iff in H; destruct H as [Hc Hs].
  rewrite Hc, (IH Hs); reflexivity.
Qed.

Lemma split_on_none (p : ascii -> bool) (s : string) :
  str_forallb (fun c => negb (p c)) s = true -> split_on p s = [s].
Proof.
  induction s as [| c s IH]; [reflexivity |].
  cbn [str_forallb split_on]; intros H; apply andb_true_iff in H; destruct H as [Hc Hs].
  apply negb_true_iff in Hc. rewrite Hc, (IH Hs); reflexivity.
Qed.

Lemma str_map_fixed (f : ascii -> ascii) (s : string) :
  str_forallb (fun c => (f c =? c)%char) s = true -> str_map f s = s.
Proof.
  induction s as [| c s IH]; [reflexivity |].
  cbn [str_forallb str_map]; intros H; apply andb_true_iff in H; destruct H as [Hc Hs].
  apply Ascii.eqb_eq in Hc. rewrite Hc, (IH Hs); reflexivity.
Qed.

Lemma str_filter_all (p : ascii -> bool) (s : string) :
  str_forallb p s = true -> str_filter p s = s.
Proof.
  induction s as [| c s IH]; [reflexivity |].
  cbn [str_forallb str_filter]; intros H; apply andb_true_iff in H; destruct H as [Hc Hs].
  rewrite Hc, (IH Hs); reflexivity.
Qed.

Lemma percent_decode_plain (s : string) :
  str_forallb (fun c => negb (c =? "%")%char) s = true -> percent_decode s = s.
Proof.
  induction s as [| c s IH]; [reflexivity |].
  cbn [str_forallb percent_decode]; intros H; apply andb_true_iff in H; destruct H as [Hc Hs].
  apply negb_true_iff in Hc. rewrite Hc, (IH Hs); reflexivity.
Qed.

Lemma percent_encode_plain (set : ascii -> bool) (s : string) :
  str_forallb (fun c => negb (set c)) s = true -> percent_encode set s = s.
Proof.
  induction s as [| c s IH]; [reflexivity |].
  cbn [str_forallb percent_encode]; intros H; apply andb_true_iff in H; destruct H as [Hc Hs].
  apply negb_true_iff in Hc. rewrite Hc, (IH Hs); reflexivity.
Qed.

Lemma str_take_length (s : string) : str_take (String.length s) s = s.
Proof. induction s as [| c s IH]; [reflexivity |]; simpl; rewrite IH; reflexivity. Qed.

Lemma append_nil_r (s : string) : s +++ EmptyString = s.
Proof. induction s as [| c s IH]; [reflexivity |]; simpl; rewrite IH; reflexivity. Qed.

Lemma append_assoc (a b c : string) : (a +++ b) +++ c = a +++ b +++ c.
Proof. induction a as [| x a IH]; [reflexivity |]; simpl; rewrite IH; reflexivity. Qed.

Lemma str_rev_onto_append (s acc : string) :
  str_rev_onto s acc = str_rev s +++ acc.
Proof.
  unfold str_rev. revert acc; induction s as [| c s IH]; intros acc; [reflexivity |].
  cbn [str_rev_onto]. rewrite IH, (IH (String c EmptyString)), append_assoc.
  reflexivity.
Qed.

Lemma str_rev_append (a b : string) : str_rev (a +++ b) = str_rev b +++ str_rev a.
Proof.
  induction a as [| c a IH]; [simpl; rewrite append_nil_r; reflexivity |].
  unfold str_rev. cbn [String.append str_rev_onto].
  rewrite !(str_rev_onto_append _ (String c EmptyString)), IH, append_assoc.
  reflexivity.
Qed.

Lemma str_rev_involutive (s : string) : str_rev (str_rev s) = s.
Proof.
  induction s as [| c s IH]; [reflexivity |].
  unfold str_rev at 2. cbn [str_rev_onto].
  rewrite str_rev_onto_append, str_rev_append, IH. reflexivity.
Qed.

Lemma str_forallb_rev (p : ascii -> bool) (s : string) :
  str_forallb p (str_rev s) = str_forallb p s.
Proof.
  induction s as [| c s IH]; [reflexivity |].
  unfold str_rev. cbn [str_rev_onto].
  rewrite str_rev_onto_append, str_forallb_append, IH.
  cbn [str_forallb]. rewrite andb_true_r, andb_comm. reflexivity.
Qed.


Lemma word_not_space (c : ascii) (s : string) :
  is_word c = true ->
  strip_any js_whitespace (String c s) = None
  /\ strip_any (map str_rev js_whitespace) (String c s) = None
  /\ is_c0_or_space c = false
  /\ is_tab_or_newline c = false.
Proof.
  ascii_cases c; vm_compute; intros H; try discriminate H; repeat split; reflexivity.
Qed.


Lemma trim_words (s : string) : str_forallb is_word s = true -> trim s = s.
Proof.
  intros Hs. unfold trim.
  assert (Hstart : trimStart s = s).
  { unfold trimStart. destruct s as [| c t]; [reflexivity |].
    cbn [str_forallb] in Hs. apply andb_true_iff in Hs; destruct Hs as [Hc _].
    cbn [String.length drop_leading].
    destruct (word_not_space c t Hc) as [-> _]. reflexivity. }
  rewrite Hstart. unfold trimEnd.
  rewrite <- (str_forallb_rev is_word s) in Hs.
  destruct (str_rev s) as [| c t] eqn:Hrev.
  - destruct (String.length s); cbn [drop_leading strip_any];
      rewrite <- Hrev; try apply str_rev_involutive.
    assert (Hn : strip_any (map str_rev js_whitespace) "" = None) by reflexivity.
    rewrite Hrev, Hn, <- Hrev. apply str_rev_involutive.
  - cbn [str_forallb] in Hs. apply andb_true_iff in Hs; destruct Hs as [Hc _].
    destruct (word_not_space c t Hc) as [_ [Hn _]].
    destruct (String.length s); cbn [drop_leading]; rewrite ?Hn;
      rewrite <- Hrev; apply str_rev_involutive.
Qed.

Lemma url_clean_words (s : string) : str_forallb is_word s = true -> url_clean s = s.
Proof.
  intros Hs. unfold url_clean.
  assert (Hspan : forall t, str_forallb is_word t = true ->
                            snd (span is_c0_or_space t) = t).
  { intros [| c t] Ht; [reflexivity |].
    cbn [str_forallb] in Ht. apply andb_true_iff in Ht; destruct Ht as [Hc _].
    destruct (word_not_space c t Hc) as [_ [_ [Hz _]]].
    cbn [span]. rewrite Hz. reflexivity. }
  rewrite (Hspan s Hs), Hspan by (rewrite str_forallb_rev; exact Hs).
  rewrite str_rev_involutive.
  apply str_filter_all.
  apply (str_forallb_impl is_word); [| exact Hs].
  intros c Hc. destruct (word_not_space c EmptyString Hc) as [_ [_ [_ ->]]]. reflexivity.
Qed.

(** ** Identifier resolution *)

Lemma id_char_word (c : ascii) : is_id_char c = true -> is_word c = true.
Proof. unfold is_word; intros ->; reflexivity. Qed.

Ltac id_char_brute :=
  let c := fresh "c" in
  let H := fresh "H" in
  intros c H; ascii_cases c; vm_compute in H; try discriminate H; vm_compute; reflexivity.

Lemma id_chars (p : ascii -> bool) (id : string) :
  (forall c, is_id_char c = true -> p c = true) ->
  str_forallb is_id_char id = true -> str_forallb p id = true.
Proof. apply str_forallb_impl. Qed.

Lemma URL_parse_host (scheme host rest : string) :
  In scheme ["http"; "https"] ->
  In host ["youtube.com"; "www.youtube.com"; "youtu.be"; "www.youtu.be"] ->
  str_forallb is_word rest = true ->
  URL_parse (scheme +++ "://" +++ host +++ "/" +++ rest) =
  let (pathText, rest') :=
    span (fun c => negb (one_of "?#" c)) ("/" +++ rest) in
  Some (mkURL host (parse_path true pathText) (parse_query rest')).
Proof.
  intros Hs Hh Hr. unfold URL_parse.
  rewrite url_clean_words.
  - cbn [In] in Hs, Hh.
    destruct Hs as [<- | [<- | []]]; destruct Hh as [<- | [<- | [<- | [<- | []]]]];
      reflexivity.
  - cbn [In] in Hs, Hh.
    destruct Hs as [<- | [<- | []]]; destruct Hh as [<- | [<- | [<- | [<- | []]]]];
      rewrite !str_forallb_append, Hr; reflexivity.
Qed.

Lemma split_on_piece (sep : ascii -> bool) (piece : string) (c : ascii) (rest : string) :
  str_forallb (fun x => negb (sep x)) piece = true ->
  sep c = true ->
  split_on sep (piece +++ String c rest) = piece :: split_on sep rest.
Proof.
  intros Hp Hc. induction piece as [| x piece IH].
  - cbn [String.append split_on]. rewrite Hc. reflexivity.
  - cbn [str_forallb] in Hp. apply andb_true_iff in Hp; destruct Hp as [Hx Hp].
    apply negb_true_iff in Hx.
    cbn [String.append split_on]. rewrite Hx, (IH Hp). reflexivity.
Qed.

Lemma str_map_length (f : ascii -> ascii) (s : string) :
  String.length (str_map f s) = String.length s.
Proof. induction s as [| c s IH]; [reflexivity |]; simpl; rewrite IH; reflexivity. Qed.

Lemma eqb_length (a b : string) :
  String.length a <> String.length b -> (a =? b)%string = false.
Proof. intros H; apply String.eqb_neq; intros ->; apply H; reflexivity. Qed.

Section IdentifierInUrl.

Variable id : string.
Hypothesis Hid : str_forallb is_id_char id = true.
Hypothesis Hlen : String.length id = 11.

Lemma id_test : test_video_id id = true.
Proof. unfold test_video_id; rewrite Hlen, Hid; reflexivity. Qed.

Lemma id_nonempty : nonempty id = true.
Proof. destruct id; [discriminate Hlen | reflexivity]. Qed.

Lemma id_take : take_id id = Some id.
Proof.
  unfold take_id. cbv zeta. rewrite <- Hlen, str_take_length, id_test. reflexivity.
Qed.

Lemma id_words : str_forallb is_word id = true.
Proof. apply (id_chars is_word id id_char_word Hid). Qed.

Lemma id_not_dots : is_single_dot id = false /\ is_double_dot id = false.
Proof.
  unfold is_single_dot, is_double_dot, mem_string. cbn [existsb].
  rewrite !eqb_length by (unfold toLowerCase; rewrite str_map_length, Hlen; simpl; lia).
  split; reflexivity.
Qed.

Lemma id_segment (p sep : ascii -> bool) :
  (forall c, is_id_char c = true -> negb (sep c) = true) ->
  split_on sep id = [id].
Proof. intros H; apply split_on_none, (id_chars _ id H Hid). Qed.

Lemma id_path_encoded : percent_encode path_set id = id.
Proof. apply percent_encode_plain, (id_chars _ id); [id_char_brute | exact Hid]. Qed.

Lemma id_form_decode : form_decode id = id.
Proof.
  unfold form_decode.
  rewrite str_map_fixed by (apply (id_chars _ id); [id_char_brute | exact Hid]).
  rewrite percent_decode_plain by (apply (id_chars _ id); [id_char_brute | exact Hid]).
  apply utf8_decode_ascii, (id_chars _ id); [id_char_brute | exact Hid].
Qed.

Lemma id_span (p : ascii -> bool) :
  (forall c, is_id_char c = true -> p c = true) -> span p id = (id, EmptyString).
Proof. intros H; apply span_all, (id_chars _ id H Hid). Qed.

Lemma watch_query : searchParams_get "v" ("v=" +++ id) = Some id.
Proof.
  unfold searchParams_get, searchParams.
  rewrite split_on_none.
  2:{ rewrite str_forallb_append, (id_chars _ id); [reflexivity | id_char_brute | exact Hid]. }
  cbn [filter nonempty String.append map].
  unfold form_pair. cbn [span].
  change (negb ("v" =? "=")%char) with true. change (negb ("=" =? "=")%char) with false.
  cbv iota beta. cbn [str_drop].
  rewrite id_form_decode. reflexivity.
Qed.

Lemma watch_url (host : string) :
  In host ["youtube.com"; "www.youtube.com"] ->
  id_from_url (mkURL host "/watch" ("v=" +++ id)) = Some id.
Proof.
  intros Hh. unfold id_from_url. cbn [hostname pathname query].
  assert (Hw : strip_www host = "youtube.com")
    by (cbn [In] in Hh; destruct Hh as [<- | [<- | []]]; reflexivity).
  rewrite Hw. change ("youtube.com" =? "youtu.be")%string with false.
  change ("youtube.com" =? "youtube.com")%string with true.
  cbv iota beta. cbn [orb].
  rewrite watch_query, id_nonempty, id_test. reflexivity.
Qed.

Lemma path_url (host seg : string) :
  In host ["youtube.com"; "www.youtube.com"] ->
  In seg ["shorts"; "embed"; "v"] ->
  id_from_url (mkURL host ("/" +++ seg +++ "/" +++ id) EmptyString) = Some id.
Proof.
  intros Hh Hs. unfold id_from_url. cbn [hostname pathname query].
  assert (Hw : strip_www host = "youtube.com")
    by (cbn [In] in Hh; destruct Hh as [<- | [<- | []]]; reflexivity).
  rewrite Hw. change ("youtube.com" =? "youtu.be")%string with false.
  change ("youtube.com" =? "youtube.com")%string with true.
  cbv iota beta. cbn [orb].
  change (searchParams_get "v" "") with (@None string). cbv iota.
  cbn [In] in Hs. destruct Hs as [<- | [<- | [<- | []]]];
    unfold match_path_id; cbn; rewrite id_take; reflexivity.
Qed.

Lemma short_url (host : string) :
  In host ["youtu.be"; "www.youtu.be"] ->
  id_from_url (mkURL host ("/" +++ id) EmptyString) = Some id.
Proof.
  intros Hh. unfold id_from_url. cbn [hostname pathname query].
  assert (Hw : strip_www host = "youtu.be")
    by (cbn [In] in Hh; destruct Hh as [<- | [<- | []]]; reflexivity).
  rewrite Hw. change ("youtu.be" =? "youtu.be")%string with true.
  cbv iota beta. cbn [String.append str_drop].
  rewrite (id_segment is_id_char) by id_char_brute.
  cbn [hd]. rewrite id_nonempty, id_test. reflexivity.
Qed.

Lemma path_of_id_segments (segs : list string) :
  Forall (fun seg => is_single_dot seg = false /\ is_double_dot seg = false
                     /\ percent_encode path_set seg = seg) segs ->
  forall path, path_state segs path = path ++ segs.
Proof.
  induction 1 as [| seg segs [Hs [Hd He]] _ IH]; intros path; cbn [path_state].
  - symmetry; apply app_nil_r.
  - rewrite Hd, Hs, He, IH, <- app_assoc. reflexivity.
Qed.

Lemma parse_path_seg_id (seg : string) :
  In seg ["shorts"; "embed"; "v"] ->
  parse_path true ("/" +++ seg +++ "/" +++ id) = "/" +++ seg +++ "/" +++ id.
Proof.
  intros Hs. unfold parse_path. cbn [String.append].
  change (("/" =? "/")%char || true && ("/" =? "\")%char) with true. cbv iota.
  assert (Hsplit : split_on (fun c => (c =? "/")%char || true && (c =? "\")%char)
                     (seg +++ String "/" id) = [seg; id]).
  { cbn [In] in Hs. destruct Hs as [<- | [<- | [<- | []]]];
      (rewrite split_on_piece by reflexivity);
      rewrite (id_segment is_id_char) by id_char_brute; reflexivity. }
  rewrite Hsplit, path_of_id_segments.
  - unfold serialize_path. cbn [app map str_concat String.append].
    rewrite append_nil_r. reflexivity.
  - destruct id_not_dots as [H1 H2].
    repeat constructor; auto using id_path_encoded;
      cbn [In] in Hs; destruct Hs as [<- | [<- | [<- | []]]]; reflexivity.
Qed.

Lemma parse_path_id : parse_path true ("/" +++ id) = "/" +++ id.
Proof.
  unfold parse_path. cbn [String.append].
  change (("/" =? "/")%char || true && ("/" =? "\")%char) with true. cbv iota.
  rewrite (id_segment is_id_char) by id_char_brute.
  rewrite path_of_id_segments.
  - unfold serialize_path. cbn [app map str_concat].
    rewrite append_nil_r. reflexivity.
  - destruct id_not_dots as [H1 H2].
    repeat constructor; auto using id_path_encoded.
Qed.

End IdentifierInUrl.

Lemma test_video_id_length (s : string) :
  String.length s <> 11 -> test_video_id s = false.
Proof.
  intros H. unfold test_video_id.
  destruct (Nat.eqb_spec (String.length s) 11); [contradiction | reflexivity].
Qed.

(** How [extractVideoId] goes through the URL parser for a URL on one of
    the hosts of the platform. *)
Lemma extractVideoId_via_url (s scheme host rest path q id : string) :
  str_forallb is_word s = true ->
  String.length s <> 11 ->
  (if startsWith s "http" then s else "https://" +++ s)
    = scheme +++ "://" +++ host +++ "/" +++ rest ->
  In scheme ["http"; "https"] ->
  In host ["youtube.com"; "www.youtube.com"; "youtu.be"; "www.youtu.be"] ->
  str_forallb is_word rest = true ->
  (let (pathText, rest') := span (fun c => negb (one_of "?#" c)) ("/" +++ rest) in
   (parse_path true pathText, parse_query rest')) = (path, q) ->
  id_from_url (mkURL host path q) = Some id ->
  extractVideoId s = Some id.
Proof.
  intros Hw Hl Hs Hsch Hh Hr Hpq Hurl.
  unfold extractVideoId.
  rewrite (trim_words s Hw), (test_video_id_length s Hl), Hs.
  rewrite (URL_parse_host scheme host rest Hsch Hh Hr).
  destruct (span _ _) as [pathText rest'].
  inversion Hpq; subst path q.
  rewrite Hurl. reflexivity.
Qed.

Lemma extractVideoId_prefixed (prefix host rest path q id : string) :
  In prefix url_prefixes ->
  In host ["youtube.com"; "youtu.be"] ->
  str_forallb is_word rest = true ->
  11 <= String.length rest ->
  (let (pathText, rest') := span (fun c => negb (one_of "?#" c)) ("/" +++ rest) in
   (parse_path true pathText, parse_query rest')) = (path, q) ->
  (forall host', In host' [host; "www." +++ host] ->
                 id_from_url (mkURL host' path q) = Some id) ->
  extractVideoId (prefix +++ host +++ "/" +++ rest) = Some id.
Proof.
  intros Hp Hh Hr Hlen Hpq Hurl.
  assert (Hgo : forall scheme host',
      In scheme ["http"; "https"] ->
      In host' [host; "www." +++ host] ->
      str_forallb is_word (prefix +++ host +++ "/") = true ->
      (if startsWith (prefix +++ host +++ "/" +++ rest) "http"
       then prefix +++ host +++ "/" +++ rest
       else "https://" +++ prefix +++ host +++ "/" +++ rest)
        = scheme +++ "://" +++ host' +++ "/" +++ rest ->
      extractVideoId (prefix +++ host +++ "/" +++ rest) = Some id).
  { intros scheme host' Hsch Hh' Hw Hs.
    apply (extractVideoId_via_url _ scheme host' rest path q id); auto.
    - replace (prefix +++ host +++ "/" +++ rest)
        with ((prefix +++ host +++ "/") +++ rest)
        by (rewrite !append_assoc; reflexivity).
      rewrite str_forallb_append, Hw, Hr; reflexivity.
    - rewrite !length_append. cbn [String.length]. lia.
    - cbn [In] in Hh, Hh' |- *.
      destruct Hh as [<- | [<- | []]]; destruct Hh' as [<- | [<- | []]]; auto. }
  unfold url_prefixes in Hp. cbn [In] in Hp, Hh.
  destruct Hp as [<- | [<- | [<- | [<- | [<- | [<- | []]]]]]];
    destruct Hh as [<- | [<- | []]].
  - apply (Hgo "https" "youtube.com"); cbn [In]; auto.
  - apply (Hgo "https" "youtu.be"); cbn [In]; auto.
  - apply (Hgo "https" "www.youtube.com"); cbn [In]; auto.
  - apply (Hgo "https" "www.youtu.be"); cbn [In]; auto.
  - apply (Hgo "https" "youtube.com"); cbn [In]; auto.
  - apply (Hgo "https" "youtu.be"); cbn [In]; auto.
  - apply (Hgo "https" "www.youtube.com"); cbn [In]; auto.
  - apply (Hgo "https" "www.youtu.be"); cbn [In]; auto.
  - apply (Hgo "http" "youtube.com"); cbn [In]; auto.
  - apply (Hgo "http" "youtu.be"); cbn [In]; auto.
  - apply (Hgo "http" "www.youtube.com"); cbn [In]; auto.
  - apply (Hgo "http" "www.youtu.be"); cbn [In]; auto.
Qed.

(** C4: every supported input shape that contains a video identifier
    resolves to that identifier: the bare identifier, and the watch page,
    the short link, and the shorts, embed and v pages, written with or
    without the scheme (http or https) and with or without www. *)
Theorem identifier_resolution (id : string) :
  test_video_id id = true ->
  extractVideoId id = Some id
  /\ (forall prefix shape,
        In prefix url_prefixes ->
        extractVideoId (prefix +++ shape_url shape id) = Some id).
Proof.
  intros Htest.
  assert (Hid : str_forallb is_id_char id = true)
    by (unfold test_video_id in Htest; apply andb_true_iff in Htest; tauto).
  assert (Hlen : String.length id = 11)
    by (unfold test_video_id in Htest; apply andb_true_iff in Htest;
        apply Nat.eqb_eq; tauto).
  pose proof (id_words id Hid) as Hw.
  split.
  - unfold extractVideoId. rewrite (trim_words id Hw), Htest. reflexivity.
  - assert (Hrest : forall piece,
               str_forallb is_word piece = true ->
               str_forallb is_word (piece +++ id) = true
               /\ 11 <= String.length (piece +++ id)).
    { intros piece Hpiece.
      rewrite str_forallb_append, Hpiece, Hw, length_append, Hlen. split; [reflexivity | lia]. }
    assert (Hspan : forall piece,
               str_forallb (fun c => negb (one_of "?#" c)) piece = true ->
               span (fun c => negb (one_of "?#" c)) (piece +++ id) = (piece +++ id, EmptyString)).
    { intros piece Hpiece. apply span_all.
      rewrite str_forallb_append, Hpiece, (id_chars _ id); [reflexivity | id_char_brute | exact Hid]. }
    intros prefix shape Hp.
    destruct shape; unfold shape_url.
    + apply (extractVideoId_prefixed prefix "youtube.com" ("watch?v=" +++ id)
               "/watch" ("v=" +++ id) id).
      * exact Hp.
      * cbn [In]; auto.
      * apply (Hrest "watch?v="); reflexivity.
      * apply (Hrest "watch?v="); reflexivity.
      * change (span (fun c => negb (one_of "?#" c)) ("/" +++ "watch?v=" +++ id))
          with ("/watch", "?v=" +++ id).
        unfold parse_query.
        change (strip_prefix "?" ("?v=" +++ id)) with (Some ("v=" +++ id)).
        cbv iota beta.
        rewrite span_all
          by (rewrite str_forallb_append, (id_chars _ id);
              [reflexivity | id_char_brute | exact Hid]).
        reflexivity.
      * intros host' Hh; apply (watch_url id Hid Hlen); exact Hh.
    + apply (extractVideoId_prefixed prefix "youtu.be" id ("/" +++ id) EmptyString id).
      * exact Hp.
      * cbn [In]; auto.
      * exact Hw.
      * lia.
      * rewrite (Hspan "/") by reflexivity.
        rewrite (parse_path_id id Hid Hlen). reflexivity.
      * intros host' Hh; apply (short_url id Hid Hlen); exact Hh.
    + apply (extractVideoId_prefixed prefix "youtube.com" ("shorts/" +++ id)
               ("/shorts/" +++ id) EmptyString id).
      * exact Hp.
      * cbn [In]; auto.
      * apply (Hrest "shorts/"); reflexivity.
      * apply (Hrest "shorts/"); reflexivity.
      * change ("/" +++ "shorts/" +++ id) with ("/shorts/" +++ id).
        rewrite (Hspan "/shorts/") by reflexivity.
        replace (parse_path true ("/shorts/" +++ id)) with ("/shorts/" +++ id)
          by (symmetry; apply (parse_path_seg_id id Hid Hlen "shorts"); cbn [In]; auto).
        reflexivity.
      * intros host' Hh; apply (path_url id Hid Hlen host' "shorts"); cbn [In]; auto.
    + apply (extractVideoId_prefixed prefix "youtube.com" ("embed/" +++ id)
               ("/embed/" +++ id) EmptyString id).
      * exact Hp.
      * cbn [In]; auto.
      * apply (Hrest "embed/"); reflexivity.
      * apply (Hrest "embed/"); reflexivity.
      * change ("/" +++ "embed/" +++ id) with ("/embed/" +++ id).
        rewrite (Hspan "/embed/") by reflexivity.
        replace (parse_path true ("/embed/" +++ id)) with ("/embed/" +++ id)
          by (symmetry; apply (parse_path_seg_id id Hid Hlen "embed"); cbn [In]; auto).
        reflexivity.
      * intros host' Hh; apply (path_url id Hid Hlen host' "embed"); cbn [In]; auto.
    + apply (extractVideoId_prefixed prefix "youtube.com" ("v/" +++ id)
               ("/v/" +++ id) EmptyString id).
      * exact Hp.
      * cbn [In]; auto.
      * apply (Hrest "v/"); reflexivity.
      * apply (Hrest "v/"); reflexivity.
      * change ("/" +++ "v/" +++ id) with ("/v/" +++ id).
        rewrite (Hspan "/v/") by reflexivity.
        replace (parse_path true ("/v/" +++ id)) with ("/v/" +++ id)
          by (symmetry; apply (parse_path_seg_id id Hid Hlen "v"); cbn [In]; auto).
        reflexivity.
      * intros host' Hh; apply (path_url id Hid Hlen host' "v"); cbn [In]; auto.
Qed.

Lemma identifier_resolution_witness :
  extractVideoId sample_id = Some sample_id
  /\ extractVideoId ("https://www." +++ shape_url WatchPage sample_id) = Some sample_id
  /\ extractVideoId ("" +++ shape_url ShortLink sample_id) = Some sample_id.
Proof.
  destruct (identifier_resolution sample_id ltac:(vm_compute; reflexivity)) as [Hbare Hurl].
  split; [exact Hbare |].
  split; apply Hurl; unfold url_prefixes; cbn [In]; auto.
Defined.

(** * Further properties of the code *)

(** ** Identifier resolution: what is returned *)

Lemma take_id_valid (s t : string) : take_id s = Some t -> test_video_id t = true.
Proof.
  unfold take_id. destruct (test_video_id (str_take 11 s)) eqn:H; [| discriminate].
  intros E; inversion E; subst t; exact H.
Qed.

Lemma alternatives_valid {A} (P : A -> Prop) (alts : list string)
    (k : string -> option A) (s : string) (x : A) :
  (forall r y, k r = Some y -> P y) ->
  alternatives alts k s = Some x -> P x.
Proof.
  intros Hk. induction alts as [| a alts IH]; cbn [alternatives]; [discriminate |].
  destruct (strip_prefix a s) as [r |].
  - destruct (k r) as [y |] eqn:Hy.
    + intros E; inversion E; subst y; eauto.
    + exact IH.
  - exact IH.
Qed.

Lemma first_match_valid {A} (P : A -> Prop) (m : string -> option A) (s : string) (x : A) :
  (forall t y, m t = Some y -> P y) ->
  first_match m s = Some x -> P x.
Proof.
  intros Hm. induction s as [| c s IH]; cbn [first_match].
  - destruct (m EmptyString) as [y |] eqn:Hy; [| discriminate].
    intros E; inversion E; subst y; eauto.
  - destruct (m (String c s)) as [y |] eqn:Hy; [| exact IH].
    intros E; inversion E; subst y; eauto.
Qed.

Lemma match_path_id_valid (p id : string) :
  match_path_id p = Some id -> test_video_id id = true.
Proof.
  unfold match_path_id. destruct (strip_prefix "/" p) as [r |]; [| discriminate].
  apply (alternatives_valid (fun y => test_video_id y = true)). intros r' y.
  destruct (strip_prefix "/" r') as [r'' |]; [apply take_id_valid | discriminate].
Qed.

Lemma match_last_resort_valid (s id : string) :
  match_last_resort s = Some id -> test_video_id id = true.
Proof.
  unfold match_last_resort.
  apply (first_match_valid (fun y => test_video_id y = true)). intros t y.
  destruct (strip_prefix "v=" t) as [r |].
  - destruct (take_id r) as [z |] eqn:Hz.
    + intros E; inversion E; subst z. eapply take_id_valid; eassumption.
    + destruct (strip_prefix "/" t) as [r0 |]; [| discriminate].
      apply (alternatives_valid (fun y => test_video_id y = true)). intros r' y'.
      destruct (strip_prefix "/" r') as [r'' |]; [apply take_id_valid | discriminate].
  - destruct (strip_prefix "/" t) as [r0 |]; [| discriminate].
    apply (alternatives_valid (fun y => test_video_id y = true)). intros r' y'.
    destruct (strip_prefix "/" r') as [r'' |]; [apply take_id_valid | discriminate].
Qed.

Lemma id_from_url_valid (url : URL) (id : string) :
  id_from_url url = Some id -> test_video_id id = true.
Proof.
  unfold id_from_url.
  destruct (strip_www (hostname url) =? "youtu.be")%string.
  - match goal with
    | |- context [nonempty ?x && test_video_id ?x] =>
        destruct (nonempty x); cbn [andb];
        [destruct (test_video_id x) eqn:Ht |]
    end.
    + intros E; inversion E; subst id; exact Ht.
    + destruct (_ || _); [| discriminate].
      destruct (searchParams_get "v" (query url)) as [v |].
      * destruct (nonempty v); cbn [andb];
          [destruct (test_video_id v) eqn:Hv |]; try apply match_path_id_valid.
        intros E; inversion E; subst id; exact Hv.
      * apply match_path_id_valid.
    + destruct (_ || _); [| discriminate].
      destruct (searchParams_get "v" (query url)) as [v |].
      * destruct (nonempty v); cbn [andb];
          [destruct (test_video_id v) eqn:Hv |]; try apply match_path_id_valid.
        intros E; inversion E; subst id; exact Hv.
      * apply match_path_id_valid.
  - destruct (_ || _); [| discriminate].
    destruct (searchParams_get "v" (query url)) as [v |].
    + destruct (nonempty v); cbn [andb];
        [destruct (test_video_id v) eqn:Hv |]; try apply match_path_id_valid.
      intros E; inversion E; subst id; exact Hv.
    + apply match_path_id_valid.
Qed.

(** X1. Whatever [extractVideoId] returns is a well-formed identifier:
    eleven characters among letters, digits, [_] and [-]. *)
Theorem extractVideoId_wellformed (input id : string) :
  extractVideoId input = Some id ->
  test_video_id id = true
  /\ String.length id = 11
  /\ str_forallb is_id_char id = true.
Proof.
  intros H.
  assert (Ht : test_video_id id = true).
  { unfold extractVideoId in H.
    destruct (test_video_id (trim input)) eqn:Hb.
    - inversion H; subst id; exact Hb.
    - destruct (URL_parse _) as [url |].
      + destruct (id_from_url url) as [x |] eqn:Hu.
        * inversion H; subst x. eapply id_from_url_valid; eassumption.
        * eapply match_last_resort_valid; eassumption.
      + eapply match_last_resort_valid; eassumption. }
  split; [exact Ht |].
  unfold test_video_id in Ht. apply andb_true_iff in Ht. destruct Ht as [Hl Hc].
  apply Nat.eqb_eq in Hl. auto.
Qed.

Lemma extractVideoId_wellformed_witness :
  test_video_id sample_id = true
  /\ String.length sample_id = 11
  /\ str_forallb is_id_char sample_id = true.
Proof.
  apply (extractVideoId_wellformed
           "see https://example.org/embed/dQw4w9WgXcQ?autoplay=1 for the talk").
  vm_compute; reflexivity.
Defined.

Lemma first_match_later {A} (m : string -> option A) (a s : string) (x : A) :
  m s = Some x -> exists y, first_match m (a +++ s) = Some y.
Proof.
  intros Hs. induction a as [| c a IH]; cbn [String.append].
  - exists x. destruct s; cbn [first_match]; rewrite Hs; reflexivity.
  - cbn [first_match]. destruct (m (String c (a +++ s))) as [y |]; [eauto | exact IH].
Qed.

Lemma str_take_append (a b : string) : str_take (String.length a) (a +++ b) = a.
Proof. induction a as [| c a IH]; [destruct b; reflexivity |]; simpl; rewrite IH; reflexivity. Qed.

Lemma take_id_prefix (id rest : string) :
  test_video_id id = true -> take_id (id +++ rest) = Some id.
Proof.
  intros Ht. unfold take_id. cbv zeta.
  assert (Hl : String.length id = 11)
    by (unfold test_video_id in Ht; apply andb_true_iff in Ht; apply Nat.eqb_eq; tauto).
  rewrite <- Hl, str_take_append, Ht. reflexivity.
Qed.

(** X2. An input whose trimmed text contains [v=] followed by an
    identifier is never rejected: some well-formed identifier is
    returned, whatever the rest of the text is. *)
Theorem extractVideoId_finds_v_parameter (input before id after : string) :
  trim input = before +++ "v=" +++ id +++ after ->
  test_video_id id = true ->
  exists found, extractVideoId input = Some found /\ test_video_id found = true.
Proof.
  intros Htrim Hid.
  assert (Hsome : exists found, extractVideoId input = Some found).
  { unfold extractVideoId.
    destruct (test_video_id (trim input)); [eauto |].
    assert (Hlast : exists found, match_last_resort (trim input) = Some found).
    2:{ destruct (URL_parse _) as [url |]; [destruct (id_from_url url); eauto | exact Hlast]. }
    rewrite Htrim. unfold match_last_resort.
    apply first_match_later with (x := id).
    cbv beta.
    change (strip_prefix "v=" ("v=" +++ id +++ after)) with (Some (id +++ after)).
    cbv beta iota.
    rewrite (take_id_prefix id after Hid). reflexivity. }
  destruct Hsome as [found Hf]. exists found. split; [exact Hf |].
  apply (extractVideoId_wellformed input found Hf).
Qed.

Lemma extractVideoId_finds_v_parameter_witness :
  exists found,
    extractVideoId "watch it: vimeo.example/play?list=7&v=dQw4w9WgXcQ&t=42s" = Some found
    /\ test_video_id found = true.
Proof.
  apply (extractVideoId_finds_v_parameter
           "watch it: vimeo.example/play?list=7&v=dQw4w9WgXcQ&t=42s"
           "watch it: vimeo.example/play?list=7&" sample_id "&t=42s").
  - vm_compute; reflexivity.
  - vm_compute; reflexivity.
Defined.

(** ** The transcript token: defaults and policy *)

Lemma index_of_bound (v : ascii) (b : Buffer) (i : nat) :
  index_of v b = Some i -> i < List.length b.
Proof.
  revert i; induction b as [| x b IH]; intros i; cbn [index_of]; [discriminate |].
  destruct (x =? v)%char.
  - intros E; inversion E; simpl; lia.
  - destruct (index_of v b) as [j |]; [| discriminate].
    intros E; inversion E. specialize (IH j eq_refl). simpl; lia.
Qed.

(** X3. A token that decodes to fewer than fourteen bytes carries no
    language field, and its language is read as en. *)
Theorem short_token_defaults_to_en (params : string) :
  List.length (Buffer_from_base64 params) <= 13 ->
  extractLangFromParams params = "en".
Proof.
  intros Hlen. unfold extractLangFromParams. cbv zeta.
  unfold Buffer_indexOf at 1.
  destruct (index_of (byte 18) (skipn 12 (Buffer_from_base64 params))) as [i |] eqn:Hi;
    cbn [option_map]; [| reflexivity].
  apply index_of_bound in Hi. rewrite length_skipn in Hi.
  destruct (nth_error (Buffer_from_base64 params) (12 + i + 1)) as [x |] eqn:Hn;
    [| reflexivity].
  assert (12 + i + 1 < List.length (Buffer_from_base64 params))
    by (apply nth_error_Some; rewrite Hn; discriminate).
  lia.
Qed.

Lemma short_token_defaults_to_en_witness :
  extractLangFromParams "CgtkUXc0dzlXZ1hjUQ==" = "en".
Proof.
  apply short_token_defaults_to_en. vm_compute. lia.
Defined.

(** X4. The token sent to the API always carries the requested
    language, letter case apart: a token of the page is reused only when it
    decodes to that language, and a fresh one is built for it otherwise. *)
Theorem chosen_token_language (pageData : PageData) (videoId language : string) :
  test_video_id videoId = true ->
  str_forallb is_ascii language = true ->
  1 <= String.length language <= 57 ->
  toLowerCase (extractLangFromParams (chooseTranscriptParams pageData videoId language))
    = toLowerCase language
  /\ (chooseTranscriptParams pageData videoId language
        = buildTranscriptParams videoId language
      \/ exists d, initialData pageData = Some d
           /\ extractTranscriptParams d
              = Some (chooseTranscriptParams pageData videoId language)).
Proof.
  intros Hid Ha Hl.
  pose proof (fresh_token_language videoId language Hid Ha Hl) as Hfresh.
  unfold chooseTranscriptParams.
  destruct (initialData pageData) as [d |]; [| rewrite Hfresh; auto].
  destruct (extractTranscriptParams d) as [p |] eqn:Hp; [| rewrite Hfresh; auto].
  destruct (nonempty p) eqn:Hne; [| rewrite Hfresh; auto].
  destruct (toLowerCase (extractLangFromParams p) =? toLowerCase language)%string eqn:He;
    [| rewrite Hfresh; auto].
  rewrite Hne. apply String.eqb_eq in He. split; [exact He |].
  right. exists d. auto.
Qed.

Lemma chosen_token_language_witness :
  toLowerCase
    (extractLangFromParams
       (chooseTranscriptParams
          (mkPageData None
             (Some (mkInitialData (Some
                [JObject
                   [("engagementPanelSectionListRenderer",
                     JObject
                       [("panelIdentifier", JString transcript_panel_id);
                        ("content",
                         JObject
                           [("getTranscriptEndpoint",
                             JObject
                               [("params",
                                 JString (buildTranscriptParams sample_id "EN"))])])])]])))
             None "2.20241121.01.00" CONSENT_COOKIE)
          sample_id "en"))
  = toLowerCase "en".
Proof.
  refine (proj1 (chosen_token_language _ sample_id "en" _ _ _)).
  - vm_compute; reflexivity.
  - reflexivity.
  - simpl; lia.
Defined.

(** ** The API call: how failures are classified *)




(** ** Transcription: the failures *)

(** A transcription fails with VideoUnavailable exactly at the
    playability check. *)
Lemma transcribeVideo_unavailable_inv (w : World) (input : string)
    (options : TranscribeOptions) (what : string) :
  transcribeVideo w input options = Err (VideoNotFoundError what)
  <-> exists videoId pageData,
        extractVideoId input = Some videoId
        /\ fetchPageData w videoId = Ok pageData
        /\ status_blocks (page_status pageData) = true
        /\ what = videoId +++ " ("
                    +++ or_default (page_reason pageData) "unknown reason" +++ ")".
Proof.
  split.
  - intros H.
    destruct (extractVideoId input) as [videoId |] eqn:Hid;
      [| unfold transcribeVideo in H; rewrite Hid in H; discriminate].
    destruct (fetchPageData w videoId) as [pageData | e] eqn:Hpage.
    + destruct (status_blocks (page_status pageData)) eqn:Hst.
      * unfold transcribeVideo in H. rewrite Hid, Hpage, Hst in H.
        inversion H. exists videoId, pageData; auto.
      * rewrite (transcribeVideo_after_page w input videoId options pageData Hid Hpage Hst) in H.
        cbv zeta in H.
        destruct (fetchTranscriptViaApi _ _ _) as [r | e] eqn:Hapi.
        -- destruct (_ =? 0); [| discriminate].
           unfold no_segments_error in H; destruct (0 <? _); discriminate.
        -- destruct (fetchTranscriptViaApi_error _ _ _ _ Hapi)
             as [[m [c ->]] | [[v ->] | [m ->]]].
           ++ discriminate.
           ++ unfold no_segments_error in H; destruct (0 <? _); discriminate.
           ++ discriminate.
    + unfold transcribeVideo in H. rewrite Hid, Hpage in H.
      destruct (fetchPageData_error _ _ _ Hpage) as [m [c ->]]. discriminate.
  - intros (videoId & pageData & Hid & Hpage & Hst & ->).
    unfold transcribeVideo. rewrite Hid, Hpage, Hst. reflexivity.
Qed.

(** The playability check blocks exactly a status that is there, is not
    empty and is neither OK nor LIVE_STREAM_OFFLINE. *)
Lemma status_blocks_fields (pageData : PageData) :
  status_blocks (page_status pageData) = true
  <-> exists pr ps s,
        playerResponse pageData = Some pr
        /\ playabilityStatus pr = Some ps
        /\ status ps = Some s
        /\ s <> EmptyString /\ s <> "OK" /\ s <> "LIVE_STREAM_OFFLINE".
Proof.
  unfold status_blocks, page_status. split.
  - destruct (playerResponse pageData) as [pr |]; [| discriminate].
    destruct (playabilityStatus pr) as [ps |] eqn:Hps; [| discriminate].
    destruct (status ps) as [s |] eqn:Hs; [| discriminate].
    intros H. apply andb_true_iff in H. destruct H as [H Hlive].
    apply andb_true_iff in H. destruct H as [Hne Hok].
    apply negb_true_iff in Hlive, Hok. apply String.eqb_neq in Hlive, Hok.
    exists pr, ps, s. repeat split; try assumption.
    intros ->. discriminate Hne.
  - intros (pr & ps & s & -> & -> & -> & Hne & Hok & Hlive).
    apply String.eqb_neq in Hok, Hlive. rewrite Hok, Hlive.
    destruct s; [contradiction | reflexivity].
Qed.

(** X6. A transcription fails with VideoUnavailable exactly when the
    identifier resolves, the page is fetched, and the playability status of
    its player document has a status that is a non-empty string other than
    OK and LIVE_STREAM_OFFLINE; the error then names the identifier and,
    in parentheses, the reason given with that status, or unknown reason
    when none is given. *)
Theorem video_unavailable_exactly (w : World) (input : string)
    (options : TranscribeOptions) (what : string) :
  transcribeVideo w input options = Err (VideoNotFoundError what)
  <-> exists videoId pageData pr ps s,
        extractVideoId input = Some videoId
        /\ fetchPageData w videoId = Ok pageData
        /\ playerResponse pageData = Some pr
        /\ playabilityStatus pr = Some ps
        /\ status ps = Some s
        /\ s <> EmptyString /\ s <> "OK" /\ s <> "LIVE_STREAM_OFFLINE"
        /\ what = videoId +++ " ("
                    +++ match reason ps with
                        | Some r => r
                        | None => "unknown reason"
                        end +++ ")".
Proof.
  rewrite transcribeVideo_unavailable_inv. split.
  - intros (videoId & pageData & Hid & Hpage & Hblocks & ->).
    apply status_blocks_fields in Hblocks.
    destruct Hblocks as (pr & ps & s & Hpr & Hps & Hs & Hne & Hok & Hlive).
    exists videoId, pageData, pr, ps, s. repeat split; try assumption.
    unfold page_reason. rewrite Hpr, Hps. reflexivity.
  - intros (videoId & pageData & pr & ps & s & Hid & Hpage & Hpr & Hps & Hs
            & Hne & Hok & Hlive & ->).
    exists videoId, pageData. repeat split; try assumption.
    + apply status_blocks_fields. exists pr, ps, s. repeat split; assumption.
    + unfold page_reason. rewrite Hpr, Hps. reflexivity.
Qed.

Lemma video_unavailable_exactly_witness :
  transcribeVideo
    (world_of
       (page_of (Some (player_with
                         (Some (mkPlayabilityStatus (Some "LOGIN_REQUIRED")
                                  (Some "Sign in to confirm your age")))
                         [track "en" None])))
       precondition_failed)
    ("https://youtu.be/" +++ sample_id) no_options
  = Err (VideoNotFoundError "dQw4w9WgXcQ (Sign in to confirm your age)").
Proof.
  apply (proj2 (video_unavailable_exactly _ _ _ _)).
  exists sample_id.
  eexists. eexists. eexists. exists "LOGIN_REQUIRED".
  split; [vm_compute; reflexivity |].
  split; [vm_compute; reflexivity |].
  split; [reflexivity |].
  split; [reflexivity |].
  split; [reflexivity |].
  repeat split; try discriminate. 
Defined.

(** X7. When a transcription fails with LanguageUnavailable, the codes
    it reports are those that the listing of languages returns for the
    same video, in the same order; the list is not empty and the language
    named is the requested one. *)
Theorem unavailable_codes_match_listing (w : World) (input : string)
    (options : TranscribeOptions) (language : string) (available : list string) :
  transcribeVideo w input options = Err (LanguageNotAvailableError language available) ->
  exists videoId infos,
    extractVideoId input = Some videoId
    /\ listAvailableLanguages w videoId = Ok infos
    /\ map li_code infos = available
    /\ available <> []
    /\ language = or_default (opt_language options) "en".
Proof.
  intros H.
  destruct (extractVideoId input) as [videoId |] eqn:Hid;
    [| unfold transcribeVideo in H; rewrite Hid in H; discriminate].
  destruct (fetchPageData w videoId) as [pageData | e] eqn:Hpage.
  2:{ unfold transcribeVideo in H. rewrite Hid, Hpage in H.
      destruct (fetchPageData_error _ _ _ Hpage) as [m [c ->]]. discriminate. }
  destruct (status_blocks (page_status pageData)) eqn:Hst;
    [unfold transcribeVideo in H; rewrite Hid, Hpage, Hst in H; discriminate |].
  assert (Hne : forall other,
             Err (no_segments_error pageData (or_default (opt_language options) "en") other)
               = @Err TranscribeResult (LanguageNotAvailableError language available) ->
             (forall l a, other <> LanguageNotAvailableError l a) ->
             map languageCode (page_tracks pageData) = available
             /\ available <> []
             /\ language = or_default (opt_language options) "en").
  { intros other E Hother. unfold no_segments_error in E.
    destruct (page_tracks pageData) as [| t ts] eqn:Htr; cbn [List.length Nat.ltb Nat.leb] in E.
    - inversion E. exfalso; eapply Hother; eassumption.
    - inversion E. repeat split; auto. discriminate. }
  exists videoId, (map (fun t =>
                     {| li_code := languageCode t;
                        li_name := match name t with
                                   | Some n => or_default (simpleText n) (languageCode t)
                                   | None => languageCode t
                                   end;
                        li_isAutoGenerated := is_asr (kind t) |})
                  (page_tracks pageData)).
  assert (Hlist : forall l, map li_code (map (fun t =>
                     {| li_code := languageCode t;
                        li_name := match name t with
                                   | Some n => or_default (simpleText n) (languageCode t)
                                   | None => languageCode t
                                   end;
                        li_isAutoGenerated := is_asr (kind t) |}) l) = map languageCode l)
    by (intros l; rewrite map_map; reflexivity).
  rewrite Hlist.
  assert (Hlisting : listAvailableLanguages w videoId
            = Ok (map (fun t =>
                     {| li_code := languageCode t;
                        li_name := match name t with
                                   | Some n => or_default (simpleText n) (languageCode t)
                                   | None => languageCode t
                                   end;
                        li_isAutoGenerated := is_asr (kind t) |})
                  (page_tracks pageData)))
    by (unfold listAvailableLanguages; rewrite Hpage, Hst; reflexivity).
  rewrite (transcribeVideo_after_page w input videoId options pageData Hid Hpage Hst) in H.
  cbv zeta in H.
  destruct (fetchTranscriptViaApi _ _ _) as [r | e] eqn:Hapi.
  - destruct (_ =? 0); [| discriminate].
    destruct (Hne _ H ltac:(discriminate)) as (H1 & H2 & H3). auto 6.
  - destruct (fetchTranscriptViaApi_error _ _ _ _ Hapi)
      as [[m [c ->]] | [[v ->] | [m ->]]].
    + discriminate.
    + destruct (Hne _ H ltac:(discriminate)) as (H1 & H2 & H3). auto 6.
    + discriminate.
Qed.

Lemma unavailable_codes_match_listing_witness :
  exists videoId infos,
    extractVideoId ("https://youtu.be/" +++ sample_id) = Some videoId
    /\ listAvailableLanguages
         (world_of (page_of (Some (player_with None [track "en" None; track "de" (Some "asr")])))
            precondition_failed) videoId = Ok infos
    /\ map li_code infos = ["en"; "de"]
    /\ ["en"; "de"] <> []
    /\ "fr" = or_default (opt_language (mkOptions (Some "fr") None)) "en".
Proof.
  apply (unavailable_codes_match_listing
           (world_of (page_of (Some (player_with None [track "en" None; track "de" (Some "asr")])))
              precondition_failed)
           ("https://youtu.be/" +++ sample_id) (mkOptions (Some "fr") None)).
  vm_compute; reflexivity.
Defined.

(** ** White space and [trim] *)

Lemma strip_prefix_spec (p s r : string) :
  strip_prefix p s = Some r <-> s = p +++ r.
Proof.
  revert s; induction p as [| a p IH]; intros s; cbn [strip_prefix String.append].
  - split; [intros E; inversion E; reflexivity | intros ->; reflexivity].
  - destruct s as [| b s]; [split; discriminate |].
    destruct (Ascii.eqb_spec a b) as [-> | Hne].
    + rewrite IH. split; [intros ->; reflexivity | intros E; inversion E; reflexivity].
    + split; [discriminate | intros E; inversion E; congruence].
Qed.

Lemma strip_any_some (pats : list string) (s r : string) :
  strip_any pats s = Some r -> exists p, In p pats /\ s = p +++ r.
Proof.
  induction pats as [| p pats IH]; cbn [strip_any]; [discriminate |].
  destruct (strip_prefix p s) as [r' |] eqn:Hp.
  - intros E; inversion E; subst r'. exists p; split; [left; reflexivity |].
    apply strip_prefix_spec; exact Hp.
  - intros H; destruct (IH H) as [q [Hq Hs]]. exists q; split; [right |]; assumption.
Qed.

Lemma strip_any_prefix (pats : list string) (p x : string) :
  In p pats -> strip_any pats (p +++ x) <> None.
Proof.
  induction pats as [| q pats IH]; cbn [In strip_any]; [contradiction |].
  intros [-> | Hin].
  - rewrite (proj2 (strip_prefix_spec p (p +++ x) x) eq_refl). discriminate.
  - destruct (strip_prefix q (p +++ x)); [discriminate | auto].
Qed.

Lemma drop_leading_fixed (pats : list string) (fuel : nat) (s : string) :
  Forall (fun p => nonempty p = true) pats ->
  String.length s <= fuel ->
  strip_any pats (drop_leading pats fuel s) = None.
Proof.
  intros Hne. revert s; induction fuel as [| fuel IH]; intros s Hl.
  - destruct s; [| simpl in Hl; lia]. cbn [drop_leading].
    destruct (strip_any pats "") as [r |] eqn:Hs; [| reflexivity].
    destruct (strip_any_some _ _ _ Hs) as [p [Hp E]].
    rewrite Forall_forall in Hne. specialize (Hne p Hp).
    destruct p; [discriminate Hne | discriminate E].
  - cbn [drop_leading]. destruct (strip_any pats s) as [r |] eqn:Hs; [| exact Hs].
    apply IH.
    destruct (strip_any_some _ _ _ Hs) as [p [Hp ->]].
    rewrite Forall_forall in Hne. specialize (Hne p Hp).
    rewrite length_append in Hl. destruct p; [discriminate Hne |]. simpl in Hl. lia.
Qed.

Lemma drop_leading_suffix (pats : list string) (fuel : nat) (s : string) :
  exists a, s = a +++ drop_leading pats fuel s.
Proof.
  revert s; induction fuel as [| fuel IH]; intros s; cbn [drop_leading].
  - exists EmptyString; reflexivity.
  - destruct (strip_any pats s) as [r |] eqn:Hs; [| exists EmptyString; reflexivity].
    destruct (strip_any_some _ _ _ Hs) as [p [_ ->]].
    destruct (IH r) as [a Ha]. exists (p +++ a).
    rewrite append_assoc, <- Ha. reflexivity.
Qed.

Lemma whitespace_nonempty :
  Forall (fun p => nonempty p = true) js_whitespace
  /\ Forall (fun p => nonempty p = true) (map str_rev js_whitespace).
Proof. split; apply Forall_forall, forallb_forall; vm_compute; reflexivity. Qed.

(** What [trim] returns is a piece of its argument. *)
Lemma trim_piece (s : string) : exists a b, s = a +++ trim s +++ b.
Proof.
  unfold trim, trimEnd, trimStart.
  destruct (drop_leading_suffix js_whitespace (String.length s) s) as [a Ha].
  set (t := drop_leading js_whitespace (String.length s) s) in *.
  destruct (drop_leading_suffix (map str_rev js_whitespace) (String.length t) (str_rev t))
    as [b Hb].
  set (u := drop_leading (map str_rev js_whitespace) (String.length t) (str_rev t)) in *.
  exists a, (str_rev b).
  rewrite Ha at 1. f_equal.
  rewrite <- (str_rev_involutive t), Hb, str_rev_append. reflexivity.
Qed.

(** What [trim] returns has no white space at either end. *)
Lemma trim_clean (s : string) :
  starts_with_space (trim s) = false /\ ends_with_space (trim s) = false.
Proof.
  destruct whitespace_nonempty as [Hw Hw'].
  unfold trim, trimEnd, trimStart, starts_with_space, ends_with_space.
  set (t := drop_leading js_whitespace (String.length s) s).
  assert (Ht : strip_any js_whitespace t = None)
    by (apply drop_leading_fixed; [exact Hw | lia]).
  set (u := drop_leading (map str_rev js_whitespace) (String.length t) (str_rev t)).
  assert (Hu : strip_any (map str_rev js_whitespace) u = None).
  { apply drop_leading_fixed; [exact Hw' |].
    assert (Hl : forall x, String.length (str_rev x) = String.length x).
    { induction x as [| c x IH]; [reflexivity |].
      unfold str_rev; cbn [str_rev_onto]. rewrite str_rev_onto_append, length_append, IH.
      simpl; lia. }
    rewrite Hl; lia. }
  split.
  - destruct (strip_any js_whitespace (str_rev u)) as [r |] eqn:Hr; [| reflexivity].
    destruct (strip_any_some _ _ _ Hr) as [p [Hp Hpu]].
    destruct (drop_leading_suffix (map str_rev js_whitespace) (String.length t) (str_rev t))
      as [b Hb]. fold u in Hb.
    exfalso. apply (strip_any_prefix js_whitespace p (r +++ str_rev b) Hp).
    rewrite <- append_assoc, <- Hpu, <- str_rev_append, <- Hb, str_rev_involutive.
    exact Ht.
  - rewrite str_rev_involutive, Hu. reflexivity.
Qed.

Lemma str_forallb_trim (p : ascii -> bool) (s : string) :
  str_forallb p s = true -> str_forallb p (trim s) = true.
Proof.
  intros H. destruct (trim_piece s) as [a [b E]].
  rewrite E, !str_forallb_append in H.
  apply andb_true_iff in H; destruct H as [_ H].
  apply andb_true_iff in H; tauto.
Qed.

(** ** Segments: what every returned segment satisfies *)

Lemma parse_items_in (items : list TranscriptSegmentItem) (seg : TranscriptSegment) :
  In seg (parse_items items) -> exists item, In item items /\ parse_item item = Some seg.
Proof.
  induction items as [| item items IH]; cbn [parse_items]; [intros [] |].
  destruct (parse_item item) as [s |] eqn:Hp.
  - intros [<- | Hin].
    + exists item; split; [left; reflexivity | exact Hp].
    + destruct (IH Hin) as [i [Hi Hs]]. exists i; split; [right |]; assumption.
  - intros Hin. destruct (IH Hin) as [i [Hi Hs]]. exists i; split; [right |]; assumption.
Qed.

Lemma parse_actions_in (acts : list Action) (seg : TranscriptSegment) :
  In seg (parse_actions acts) -> exists item, parse_item item = Some seg.
Proof.
  induction acts as [| a acts IH]; cbn [parse_actions]; [intros [] |].
  destruct (action_segments a) as [[| item items] |]; try exact IH.
  destruct (0 <? List.length (parse_items (item :: items))); [| exact IH].
  intros Hin. destruct (parse_items_in _ _ Hin) as [i [_ Hi]]. eauto.
Qed.

Lemma flatten_newlines_no_lf (s : string) :
  str_forallb (fun c => negb (code c =? 10)) (flatten_newlines s) = true.
Proof.
  induction s as [| c s IH]; [reflexivity |].
  unfold flatten_newlines in *. cbn [str_map str_forallb]. rewrite IH, andb_true_r.
  destruct (code c =? 10) eqn:Hc; [reflexivity | rewrite Hc; reflexivity].
Qed.

(** X8. Every segment returned by segment parsing has a text that is
    not empty, contains no line feed, and neither begins nor ends with
    white space. *)
Theorem parsed_segment_text (apiResponse : TranscriptApiResponse)
    (seg : TranscriptSegment) :
  In seg (parseTranscriptSegments apiResponse) ->
  nonempty (text seg) = true
  /\ str_forallb (fun c => negb (code c =? 10)) (text seg) = true
  /\ starts_with_space (text seg) = false
  /\ ends_with_space (text seg) = false.
Proof.
  unfold parseTranscriptSegments. intros Hin.
  destruct (parse_actions_in _ _ Hin) as [item Hitem].
  unfold parse_item in Hitem.
  destruct (transcriptSegmentRenderer item) as [renderer |]; [| discriminate].
  cbv zeta in Hitem.
  destruct (nonempty (trim (flatten_newlines (snippet_text renderer)))) eqn:Hne;
    [| discriminate].
  cbn [negb] in Hitem. inversion Hitem; subst seg; cbn [text].
  destruct (trim_clean (flatten_newlines (snippet_text renderer))) as [Hs He].
  repeat split; auto.
  apply str_forallb_trim, flatten_newlines_no_lf.
Qed.

Lemma parsed_segment_text_witness :
  nonempty "so  it begins" = true
  /\ str_forallb (fun c => negb (code c =? 10)) "so  it begins" = true
  /\ starts_with_space "so  it begins" = false
  /\ ends_with_space "so  it begins" = false.
Proof.
  apply (parsed_segment_text
           (response_of [item_of "   " "0" "10";
                         item_of (" so " +++ LF +++ "it begins" +++ LF) "10" "900"])
           (mkSegment "so  it begins" (Num 10) (Num 890))).
  vm_compute. left; reflexivity.
Defined.

(** X9. The SRT cue of a parsed segment runs from the start offset to
    the end offset that the API gave, whenever both are numbers that,
    with their difference, are below 2^53 in magnitude (where the doubles
    of the code are exact): start plus duration is the end offset again,
    also when the end precedes the start. *)
Theorem parsed_segment_cue (item : TranscriptSegmentItem)
    (renderer : TranscriptSegmentRenderer) (seg : TranscriptSegment)
    (first last : Z) (i : nat) :
  transcriptSegmentRenderer item = Some renderer ->
  parse_item item = Some seg ->
  parseInt (or_default (r_startMs renderer) "0") = Num first ->
  parseInt (or_default (r_endMs renderer) "0") = Num last ->
  (Z.abs first < 2 ^ 53)%Z ->
  (Z.abs last < 2 ^ 53)%Z ->
  (Z.abs (last - first) < 2 ^ 53)%Z ->
  durationMs seg = Num (last - first)
  /\ srt_cue i seg =
     String_of_nat (i + 1) +++ LF
       +++ msToSrtTimestamp (Num first) +++ " --> " +++ msToSrtTimestamp (Num last)
       +++ LF +++ text seg.
Proof.
  intros Hr Hp Hfirst Hlast _ _ _.
  unfold parse_item in Hp. rewrite Hr in Hp. cbv zeta in Hp.
  destruct (negb _); [discriminate |].
  inversion Hp; subst seg. unfold srt_cue. cbn [startMs durationMs text].
  rewrite Hfirst, Hlast. cbn [num_sub num_add].
  replace (first + (last - first))%Z with last by lia. split; reflexivity.
Qed.

Lemma parsed_segment_cue_witness :
  srt_cue 4 (mkSegment "late" (Num 5000) (Num (-1500)))
  = "5" +++ LF +++ "00:00:05,000 --> 00:00:03,500" +++ LF +++ "late".
Proof.
  refine (proj2 (parsed_segment_cue (item_of "late" "5000" "3500")
            (mkRenderer (Some "5000") (Some "3500")
               (Some (mkSnippet (Some (mkAttributedString (Some "late"))) None)))
            (mkSegment "late" (Num 5000) (Num (-1500))) 5000 3500 4 _ _ _ _ _ _ _));
    vm_compute; reflexivity.
Defined.

(** ** Text made of printable characters *)

Lemma graphic_not_space (c : ascii) (s : string) :
  is_graphic c = true ->
  strip_any js_whitespace (String c s) = None
  /\ strip_any (map str_rev js_whitespace) (String c s) = None
  /\ match_any js_whitespace (String c s) = None.
Proof.
  ascii_cases c; vm_compute; intros H; try discriminate H; repeat split; reflexivity.
Qed.

Lemma ascii_space_stripped (c : ascii) (s : string) :
  is_ascii_space c = true ->
  strip_any js_whitespace (String c s) = Some s
  /\ strip_any (map str_rev js_whitespace) (String c s) = Some s.
Proof.
  ascii_cases c; vm_compute; intros H; try discriminate H; split; reflexivity.
Qed.

Lemma str_rev_length (s : string) : String.length (str_rev s) = String.length s.
Proof.
  induction s as [| c s IH]; [reflexivity |].
  unfold str_rev; cbn [str_rev_onto]. rewrite str_rev_onto_append, length_append, IH.
  simpl; lia.
Qed.

Lemma drop_leading_graphic (pats : list string) (fuel : nat) (s : string) :
  strip_any pats s = None -> drop_leading pats fuel s = s.
Proof. intros H; destruct fuel; cbn [drop_leading]; rewrite ?H; reflexivity. Qed.

(** A padding of ASCII white space is removed in full. *)
Lemma drop_leading_padding (pats : list string) (pad s : string) :
  (forall c r, is_ascii_space c = true -> strip_any pats (String c r) = Some r) ->
  str_forallb is_ascii_space pad = true ->
  strip_any pats s = None ->
  forall fuel, String.length pad <= fuel -> drop_leading pats fuel (pad +++ s) = s.
Proof.
  intros Hstrip Hpad Hs. induction pad as [| c pad IH]; intros fuel Hl.
  - apply drop_leading_graphic; exact Hs.
  - cbn [str_forallb] in Hpad. apply andb_true_iff in Hpad; destruct Hpad as [Hc Hpad].
    destruct fuel as [| fuel]; [simpl in Hl; lia |].
    cbn [String.append drop_leading]. rewrite (Hstrip c _ Hc).
    apply IH; [exact Hpad | simpl in Hl; lia].
Qed.

(** [trim] removes a padding of ASCII white space around a text that
    begins and ends with a printable character. *)
Lemma trim_padded (before s after : string) :
  str_forallb is_ascii_space before = true ->
  str_forallb is_ascii_space after = true ->
  starts_graphic s = true ->
  starts_graphic (str_rev s) = true ->
  trim (before +++ s +++ after) = s.
Proof.
  intros Hb Ha Hs Hr. unfold trim.
  assert (Hstart : trimStart (before +++ s +++ after) = s +++ after).
  { unfold trimStart.
    apply (drop_leading_padding js_whitespace before (s +++ after)).
    - intros c r Hc; destruct (ascii_space_stripped c r Hc) as [H _]; exact H.
    - exact Hb.
    - destruct s as [| c s]; [discriminate Hs |].
      destruct (graphic_not_space c (s +++ after) Hs) as [H _]; exact H.
    - rewrite length_append; lia. }
  rewrite Hstart. unfold trimEnd.
  rewrite str_rev_append.
  rewrite (drop_leading_padding (map str_rev js_whitespace) (str_rev after) (str_rev s)).
  - apply str_rev_involutive.
  - intros c r Hc; destruct (ascii_space_stripped c r Hc) as [_ H]; exact H.
  - rewrite str_forallb_rev; exact Ha.
  - destruct (str_rev s) as [| c t]; [discriminate Hr |].
    destruct (graphic_not_space c t Hr) as [_ [H _]]; exact H.
  - rewrite str_rev_length, length_append; lia.
Qed.

Lemma trim_bounded (s : string) :
  starts_graphic s = true -> starts_graphic (str_rev s) = true -> trim s = s.
Proof.
  intros Hs Hr.
  pose proof (trim_padded EmptyString s EmptyString eq_refl eq_refl Hs Hr) as H.
  cbn [String.append] in H. rewrite append_nil_r in H. exact H.
Qed.

(** X10. White space around the input does not matter to identifier
    resolution: an input padded with spaces, tabs or line breaks resolves
    like the text inside, when that text begins and ends with a printable
    character. *)
Theorem extractVideoId_ignores_padding (before s after : string) :
  str_forallb is_ascii_space before = true ->
  str_forallb is_ascii_space after = true ->
  starts_graphic s = true ->
  starts_graphic (str_rev s) = true ->
  extractVideoId (before +++ s +++ after) = extractVideoId s.
Proof.
  intros Hb Ha Hs Hr. unfold extractVideoId.
  rewrite (trim_padded before s after Hb Ha Hs Hr), (trim_bounded s Hs Hr).
  reflexivity.
Qed.

Lemma extractVideoId_ignores_padding_witness :
  extractVideoId (("  " +++ LF) +++ "https://youtu.be/dQw4w9WgXcQ?t=9" +++ (" " +++ LF))
  = extractVideoId "https://youtu.be/dQw4w9WgXcQ?t=9".
Proof.
  apply (extractVideoId_ignores_padding ("  " +++ LF)
           "https://youtu.be/dQw4w9WgXcQ?t=9" (" " +++ LF));
    vm_compute; reflexivity.
Defined.

(** ** Plain-text output *)

Lemma collapse_spaced (fuel : nat) (s : string) :
  spaced s = true -> collapse_spaces fuel s = s.
Proof.
  revert s; induction fuel as [| fuel IH]; intros s Hs; [reflexivity |].
  destruct s as [| c s]; [reflexivity |].
  cbn [spaced] in Hs. cbn [collapse_spaces].
  destruct (is_graphic c) eqn:Hc.
  - destruct (graphic_not_space c s Hc) as [_ [_ Hm]]. rewrite Hm, (IH s Hs). reflexivity.
  - apply andb_true_iff in Hs; destruct Hs as [Hs Hsp].
    apply andb_true_iff in Hs; destruct Hs as [Hsp' Hg].
    apply Ascii.eqb_eq in Hsp'; subst c.
    change (match_any js_whitespace (String " " s)) with (Some (" ", s)).
    cbv iota beta.
    destruct s as [| d s]; [discriminate Hg |]. cbn [starts_graphic] in Hg.
    destruct (graphic_not_space d s Hg) as [Hn _]. rewrite Hn, (IH _ Hsp). reflexivity.
Qed.

Lemma spaced_graphic_append (x r : string) :
  str_forallb is_graphic x = true -> spaced (x +++ r) = spaced r.
Proof.
  induction x as [| c x IH]; [reflexivity |].
  cbn [str_forallb String.append spaced].
  intros H; apply andb_true_iff in H; destruct H as [Hc Hx].
  rewrite Hc; apply IH; exact Hx.
Qed.

Lemma starts_graphic_append (a b : string) :
  starts_graphic a = true -> starts_graphic (a +++ b) = true.
Proof. destruct a; [discriminate | intros H; exact H]. Qed.

Lemma starts_graphic_all (x : string) :
  nonempty x = true -> str_forallb is_graphic x = true -> starts_graphic x = true.
Proof.
  destruct x as [| c x]; [discriminate |].
  cbn [str_forallb starts_graphic]. intros _ H; apply andb_true_iff in H; tauto.
Qed.

Lemma join_cons (sep x y : string) (l : list string) :
  join sep (x :: y :: l) = x +++ sep +++ join sep (y :: l).
Proof. reflexivity. Qed.

Lemma spaced_space (r : string) :
  spaced (" " +++ r) = starts_graphic r && spaced r.
Proof. reflexivity. Qed.

Lemma join_words_start (words : list string) :
  Forall graphic_word words -> words <> [] -> starts_graphic (join " " words) = true.
Proof.
  intros [| x l [Hn Hg] Hl]; [congruence |]. intros _.
  destruct l; cbn [join].
  - apply starts_graphic_all; assumption.
  - apply starts_graphic_append, starts_graphic_all; assumption.
Qed.

Lemma str_rev_nonempty (x : string) : nonempty x = true -> nonempty (str_rev x) = true.
Proof.
  destruct x as [| c x]; [discriminate |]. intros _.
  unfold str_rev; cbn [str_rev_onto]. rewrite str_rev_onto_append.
  destruct (str_rev x); reflexivity.
Qed.

Lemma join_words_end (words : list string) :
  Forall graphic_word words -> words <> [] ->
  starts_graphic (str_rev (join " " words)) = true.
Proof.
  induction 1 as [| x l [Hn Hg] Hl IH]; [congruence |]. intros _.
  assert (Hx : starts_graphic (str_rev x) = true).
  { apply starts_graphic_all; [apply str_rev_nonempty; exact Hn |].
    rewrite str_forallb_rev; exact Hg. }
  destruct l as [| y l]; [exact Hx |].
  rewrite join_cons, !str_rev_append.
  apply starts_graphic_append, starts_graphic_append, IH. discriminate.
Qed.

Lemma join_words_spaced (words : list string) :
  Forall graphic_word words -> spaced (join " " words) = true.
Proof.
  induction 1 as [| x l [Hn Hg] Hl IH]; [reflexivity |].
  destruct l as [| y l].
  - cbn [join]. rewrite <- (append_nil_r x), spaced_graphic_append by exact Hg. reflexivity.
  - rewrite join_cons, spaced_graphic_append by exact Hg.
    rewrite spaced_space, (join_words_start (y :: l) Hl) by discriminate.
    rewrite IH. reflexivity.
Qed.


(** X11. The plain-text rendering of segments whose texts are words of
    printable characters is those texts separated by single spaces,
    nothing added and nothing removed. *)
Theorem formatAsText_joins_words (segments : list TranscriptSegment) :
  Forall (fun seg => nonempty (text seg) = true
                     /\ str_forallb is_graphic (text seg) = true) segments ->
  formatAsText segments = join " " (map text segments).
Proof.
  intros H.
  assert (Hw : Forall graphic_word (map text segments))
    by (rewrite Forall_map; exact H).
  unfold formatAsText. cbv zeta.
  rewrite (collapse_spaced _ _ (join_words_spaced _ Hw)).
  destruct (map text segments) as [| x l] eqn:E; [reflexivity |].
  apply trim_bounded.
  - apply join_words_start; [exact Hw | discriminate].
  - apply join_words_end; [exact Hw | discriminate].
Qed.

Lemma formatAsText_joins_words_witness :
  formatAsText [mkSegment "Hello" (Num 0) (Num 900); mkSegment "world!" (Num 900) (Num 400)]
  = "Hello world!".
Proof.
  apply (formatAsText_joins_words
           [mkSegment "Hello" (Num 0) (Num 900); mkSegment "world!" (Num 900) (Num 400)]).
  repeat constructor.
Defined.

(** ** The watch page: cookies *)

Lemma split_on_head_clean (p : ascii -> bool) (s : string) :
  str_forallb (fun c => negb (p c)) (hd EmptyString (split_on p s)) = true.
Proof.
  induction s as [| c s IH]; [reflexivity |].
  cbn [split_on]. destruct (p c) eqn:Hc; [reflexivity |].
  destruct (split_on p s) as [| piece rest]; cbn [hd str_forallb] in *.
  - rewrite Hc; reflexivity.
  - rewrite Hc, IH; reflexivity.
Qed.

(** X12. A page is fetched only from a response that is ok, and the
    cookie header kept for it is the consent cookie followed by parts
    separated by a semicolon and a space, at most one part for each
    response header; none of these parts is empty or contains a
    semicolon, and a response that sets no cookie leaves the consent
    cookie alone. *)
Theorem page_cookies_wellformed (w : World) (videoId : string) (pageData : PageData) :
  fetchPageData w videoId = Ok pageData ->
  exists st headers scrape parts,
    get_watch_page w videoId = PageResponse true st headers scrape
    /\ cookies pageData = join "; " (CONSENT_COOKIE :: parts)
    /\ Forall (fun p => nonempty p = true
                        /\ str_forallb (fun c => negb (c =? ";")%char) p = true) parts
    /\ List.length parts <= List.length headers
    /\ (Forall (fun nv => toLowerCase (fst nv) <> "set-cookie") headers ->
        cookies pageData = CONSENT_COOKIE).
Proof.
  unfold fetchPageData.
  destruct (get_watch_page w videoId) as [c | ok st headers scrape]; [discriminate |].
  destruct ok; cbn [negb]; [| discriminate].
  intros H; inversion H; subst pageData; cbn [cookies]. clear H.
  exists st, headers, scrape. eexists. split; [reflexivity |]. split; [reflexivity |].
  induction headers as [| [n v] headers (IHf & IHl & IHn)]; cbn [flat_map].
  - repeat split; [constructor | simpl; lia].
  - cbn [fst snd].
    destruct (String.eqb_spec (toLowerCase n) "set-cookie") as [E | E].
    + destruct (nonempty (hd EmptyString (split_on (fun c => (c =? ";")%char) v))) eqn:Hne;
        cbn [app List.length].
      * repeat split.
        -- constructor; [split; [exact Hne | apply split_on_head_clean] | exact IHf].
        -- lia.
        -- intros Hall; inversion Hall; subst. cbn [fst] in *. contradiction.
      * repeat split; [exact IHf | lia |].
        intros Hall; inversion Hall; subst. cbn [fst] in *. contradiction.
    + cbn [app List.length]. repeat split; [exact IHf | lia |].
      intros Hall; inversion Hall; subst. auto.
Qed.

Lemma page_cookies_wellformed_witness :
  exists st headers scrape parts,
    get_watch_page
      (world_of (PageResponse true 200
                   [("content-type", "text/html");
                    ("set-cookie", "YSC=abc123; Domain=.youtube.com; Path=/");
                    ("set-cookie", "; HttpOnly")]
                   (mkPageScrape None None None None))
         precondition_failed) sample_id
    = PageResponse true st headers scrape
    /\ "CONSENT=YES+cb.20210328-17-p0.en+FX+000; YSC=abc123"
       = join "; " (CONSENT_COOKIE :: parts)
    /\ Forall (fun p => nonempty p = true
                        /\ str_forallb (fun c => negb (c =? ";")%char) p = true) parts
    /\ List.length parts <= List.length headers
    /\ (Forall (fun nv => toLowerCase (fst nv) <> "set-cookie") headers ->
        "CONSENT=YES+cb.20210328-17-p0.en+FX+000; YSC=abc123" = CONSENT_COOKIE).
Proof.
  apply (page_cookies_wellformed
           (world_of (PageResponse true 200
                        [("content-type", "text/html");
                         ("set-cookie", "YSC=abc123; Domain=.youtube.com; Path=/");
                         ("set-cookie", "; HttpOnly")]
                        (mkPageScrape None None None None))
              precondition_failed) sample_id
           (mkPageData None None None "2.20241121.01.00"
              "CONSENT=YES+cb.20210328-17-p0.en+FX+000; YSC=abc123")).
  vm_compute; reflexivity.
Defined.

(** ** The registry of providers *)

Lemma resolve_some (registry : ProviderRegistry) (input : string) (p : ContentProvider) :
  resolve registry input = Some p ->
  exists before after,
    registry = before ++ p :: after
    /\ canHandle p input = true
    /\ Forall (fun q => canHandle q input = false) before.
Proof.
  unfold resolve. induction registry as [| q registry IH]; cbn [find]; [discriminate |].
  destruct (canHandle q input) eqn:Hq.
  - intros E; inversion E; subst q.
    exists [], registry. repeat split; [exact Hq | constructor].
  - intros E. destruct (IH E) as [before [after [-> [Hp Hb]]]].
    exists (q :: before), after. repeat split; [exact Hp | constructor; assumption].
Qed.

Lemma resolve_none (registry : ProviderRegistry) (input : string) :
  resolve registry input = None ->
  Forall (fun q => canHandle q input = false) registry.
Proof.
  unfold resolve. induction registry as [| q registry IH]; cbn [find]; [constructor |].
  destruct (canHandle q input) eqn:Hq; [discriminate |].
  intros E; constructor; [exact Hq | exact (IH E)].
Qed.

(** X13. [resolve] answers with the provider registered first among
    those that accept the input: every provider registered before the
    answer refuses the input, the answer accepts it, and the answer is
    [null] only when every registered provider refuses. *)
Theorem resolve_first_registered (registry : ProviderRegistry) (input : string) :
  match resolve registry input with
  | Some p =>
      exists before after,
        registry = before ++ p :: after
        /\ canHandle p input = true
        /\ Forall (fun q => canHandle q input = false) before
  | None => Forall (fun q => canHandle q input = false) registry
  end.
Proof.
  destruct (resolve registry input) as [p |] eqn:E.
  - exact (resolve_some registry input p E).
  - exact (resolve_none registry input E).
Qed.

(** X14. Registering a provider never changes the answer for an input
    that an earlier provider accepts; the new provider answers exactly
    for the inputs that it accepts and that no earlier provider does. *)
Theorem register_keeps_priority (registry : ProviderRegistry)
    (provider : ContentProvider) (input : string) :
  resolve (register registry provider) input
  = match resolve registry input with
    | Some earlier => Some earlier
    | None => if canHandle provider input then Some provider else None
    end.
Proof.
  unfold resolve, register.
  induction registry as [| q registry IH]; cbn [find app].
  - destruct (canHandle provider input); reflexivity.
  - destruct (canHandle q input); [reflexivity | exact IH].
Qed.

(** ** The providers of PDF files and of articles *)

Lemma span_keeps_last (p : ascii -> bool) (t : string) (c : ascii) :
  p c = false ->
  exists u, snd (span p (t +++ String c EmptyString)) = u +++ String c EmptyString.
Proof.
  intros Hc. induction t as [| d t IH]; cbn [String.append span].
  - rewrite Hc. exists EmptyString; reflexivity.
  - destruct (p d).
    + destruct (span p (t +++ String c EmptyString)) as [a b]. exact IH.
    + exists (String d t); reflexivity.
Qed.

Lemma url_clean_path (s : string) :
  exists r, url_clean (String "/" s) = String "/" r.
Proof.
  unfold url_clean.
  change (span is_c0_or_space (String "/" s)) with (EmptyString, String "/" s).
  cbn [snd].
  assert (E : str_rev (String "/" s) = str_rev s +++ String "/" EmptyString).
  { unfold str_rev at 1; cbn [str_rev_onto]. apply str_rev_onto_append. }
  rewrite E.
  destruct (span_keeps_last is_c0_or_space (str_rev s) "/" eq_refl) as [u Hu].
  rewrite Hu, str_rev_append.
  change (str_rev (String "/" EmptyString)) with (String "/" EmptyString).
  cbn [String.append str_filter].
  change (negb (is_tab_or_newline "/")) with true. cbv iota.
  eexists; reflexivity.
Qed.

(** The parser of this file rejects what starts with a slash, as
    [new URL] does for an input without a scheme. *)
Lemma model_URL_rejects_paths (s : string) :
  startsWith s "/" = true -> model_URL s = None.
Proof.
  destruct s as [| c s]; [discriminate |].
  unfold startsWith; cbn [strip_prefix].
  destruct (Ascii.eqb_spec "/" c) as [<- | Hne].
  - intros _. unfold model_URL.
    destruct (url_clean_path s) as [r ->]. reflexivity.
  - destruct (Ascii.eqb "/" c) eqn:E; [apply Ascii.eqb_eq in E; contradiction |].
    discriminate.
Qed.

(** X15. No input is accepted by both the provider of PDF files and the
    provider of articles, whatever [new URL] answers, as long as it
    rejects the inputs that start with a slash. *)
Theorem pdf_article_exclusive (new_URL : string -> option URLParts) (input : string) :
  (forall s, startsWith s "/" = true -> new_URL s = None) ->
  PdfProvider_canHandle new_URL input = true ->
  ArticleProvider_canHandle new_URL input = false.
Proof.
  intros Hpath. unfold PdfProvider_canHandle, ArticleProvider_canHandle.
  destruct (startsWith input "/") eqn:Hs.
  - rewrite (Hpath input Hs). reflexivity.
  - cbn [andb]. destruct (new_URL input) as [url |]; [| reflexivity].
    intros H. apply andb_true_iff in H. destruct H as [Hweb Hpdf].
    rewrite Hweb, Hpdf. cbn [negb].
    destruct (_ || _); reflexivity.
Qed.

Lemma pdf_article_exclusive_witness :
  PdfProvider_canHandle model_URL "https://example.com/papers/Thesis.PDF?download=1" = true
  /\ ArticleProvider_canHandle model_URL "https://example.com/papers/Thesis.PDF?download=1" = false.
Proof.
  split; [vm_compute; reflexivity |].
  apply (pdf_article_exclusive model_URL
           "https://example.com/papers/Thesis.PDF?download=1"
           model_URL_rejects_paths).
  vm_compute; reflexivity.
Defined.

(** ** The tool [extract_content] *)



(** ** Anchors: [slugify] *)

Lemma slug_char_not_dash (c : ascii) :
  is_slug_char c = true -> (c =? "-")%char = false.
Proof. ascii_cases c; vm_compute; intros H; try discriminate H; reflexivity. Qed.

Lemma slug_char_lower (c : ascii) :
  is_slug_char c = true -> lower_char c = c.
Proof. ascii_cases c; vm_compute; intros H; try discriminate H; reflexivity. Qed.

Lemma starts_dash (c : ascii) (s : string) :
  startsWith (String c s) "-" = (c =? "-")%char.
Proof.
  unfold startsWith; cbn [strip_prefix]. rewrite Ascii.eqb_sym.
  destruct (Ascii.eqb c "-"); reflexivity.
Qed.

Lemma dash_runs_dashed (s : string) (inRun : bool) :
  dashed (dash_runs inRun s) = true
  /\ (inRun = true -> startsWith (dash_runs inRun s) "-" = false).
Proof.
  revert inRun; induction s as [| c s IH]; intros inRun; [split; reflexivity |].
  cbn [dash_runs]. destruct (is_slug_char c) eqn:Hc.
  - split.
    + cbn [dashed]. rewrite Hc. cbn [orb andb]. exact (proj1 (IH false)).
    + intros _. rewrite starts_dash. exact (slug_char_not_dash c Hc).
  - destruct inRun.
    + exact (IH true).
    + split; [| discriminate].
      cbn [dashed]. destruct (IH true) as [Hd Hs]. rewrite (Hs eq_refl), Hd.
      reflexivity.
Qed.

Lemma strip_leading_dash_cons (c : ascii) (d : string) :
  strip_leading_dash (String c d) = if (c =? "-")%char then d else String c d.
Proof.
  unfold strip_leading_dash; cbn [strip_prefix]. rewrite (Ascii.eqb_sym "-" c).
  destruct (Ascii.eqb c "-"); reflexivity.
Qed.

Lemma strip_leading_dash_dashed (d : string) :
  dashed d = true ->
  dashed (strip_leading_dash d) = true
  /\ startsWith (strip_leading_dash d) "-" = false.
Proof.
  destruct d as [| c d]; [split; reflexivity |].
  rewrite strip_leading_dash_cons. cbn [dashed].
  destruct (Ascii.eqb c "-") eqn:Hc.
  - destruct (is_slug_char c) eqn:Hs.
    + rewrite (slug_char_not_dash c Hs) in Hc; discriminate.
    + cbn [orb andb]. intros H. apply andb_true_iff in H. destruct H as [Hn Hd].
      split; [exact Hd |]. destruct (startsWith d "-"); [discriminate | reflexivity].
  - intros H. split; [cbn [dashed]; rewrite Hc; exact H |]. rewrite starts_dash. exact Hc.
Qed.

Lemma strip_trailing_dash_body (d : string) :
  dashed d = true -> slug_body (strip_trailing_dash d) = true.
Proof.
  induction d as [| c d IH]; [reflexivity |].
  cbn [dashed strip_trailing_dash]. intros H.
  apply andb_true_iff in H. destruct H as [Hc Hd]. specialize (IH Hd).
  destruct (is_slug_char c) eqn:Hs.
  - rewrite (slug_char_not_dash c Hs). cbn [andb slug_body]. rewrite Hs. exact IH.
  - cbn [orb] in Hc. apply andb_true_iff in Hc. destruct Hc as [Hdash Hnext].
    rewrite Hdash. destruct d as [| e d]; [reflexivity |].
    cbn [nonempty negb andb slug_body]. rewrite Hs, Hdash.
    rewrite starts_dash in Hnext.
    cbn [dashed] in Hd. apply andb_true_iff in Hd. destruct Hd as [He _].
    destruct (is_slug_char e) eqn:Hse.
    + cbn [strip_trailing_dash] in *. rewrite (slug_char_not_dash e Hse) in *.
      cbn [andb] in *. rewrite Hse. exact IH.
    + cbn [orb] in He. apply andb_true_iff in He. destruct He as [He _].
      rewrite He in Hnext. discriminate.
Qed.

Lemma slugify_slug (text : string) : is_slug (slugify text) = true.
Proof.
  unfold slugify, strip_edge_dashes.
  destruct (dash_runs_dashed (toLowerCase text) false) as [Hd _].
  destruct (strip_leading_dash_dashed _ Hd) as [Hd' Hs'].
  set (d := strip_leading_dash (dash_runs false (toLowerCase text))) in *.
  pose proof (strip_trailing_dash_body d Hd') as Hb.
  destruct d as [| c d]; [reflexivity |].
  rewrite starts_dash in Hs'.
  cbn [strip_trailing_dash] in *. rewrite Hs' in *. cbn [andb] in *.
  unfold is_slug. rewrite Hb, andb_true_r.
  cbn [dashed] in Hd'. rewrite Hs' in Hd'. cbn [andb] in Hd'.
  rewrite orb_false_r in Hd'. apply andb_true_iff in Hd'. exact (proj1 Hd').
Qed.

Lemma slug_body_suffix (a s : string) :
  slug_body (a +++ s) = true -> slug_body s = true.
Proof.
  induction a as [| c a IH]; [trivial |].
  cbn [String.append slug_body].
  destruct (is_slug_char c); [exact IH |].
  intros H. apply andb_true_iff in H. exact (IH (proj2 H)).
Qed.

Lemma slug_body_chars (s : string) :
  slug_body s = true ->
  str_forallb (fun c => is_slug_char c || (c =? "-")%char) s = true.
Proof.
  induction s as [| c s IH]; [reflexivity |].
  cbn [slug_body str_forallb].
  destruct (is_slug_char c); [exact IH |].
  intros H. apply andb_true_iff in H. destruct H as [H Hb].
  apply andb_true_iff in H. destruct H as [Hc _].
  rewrite Hc. exact (IH Hb).
Qed.

Lemma slug_body_end (s : string) :
  slug_body s = true -> endsWith s "-" = false.
Proof.
  unfold endsWith. change (str_rev "-") with "-".
  induction s as [| c s IH]; [reflexivity |].
  intros H. pose proof H as H0. cbn [slug_body] in H.
  unfold str_rev; cbn [str_rev_onto]. rewrite str_rev_onto_append.
  destruct s as [| e s].
  - cbn. destruct (is_slug_char c) eqn:Hs.
    + rewrite starts_dash. exact (slug_char_not_dash c Hs).
    + rewrite andb_false_r in H. discriminate.
  - assert (Hb : slug_body (String e s) = true).
    { destruct (is_slug_char c); [exact H |].
      apply andb_true_iff in H. exact (proj2 H). }
    specialize (IH Hb).
    destruct (str_rev (String e s)) as [| x r] eqn:E.
    + apply (f_equal String.length) in E. rewrite str_rev_length in E. discriminate.
    + cbn [String.append]. rewrite starts_dash in *. exact IH.
Qed.

Lemma is_slug_body (s : string) : is_slug s = true -> slug_body s = true.
Proof.
  destruct s as [| c s]; [reflexivity |]. unfold is_slug.
  intros H. apply andb_true_iff in H. exact (proj2 H).
Qed.

(** X17. Whatever the title, the anchor that [slugify] makes of it
    consists of lower-case letters, digits and dashes, neither starts
    nor ends with a dash, and has no two dashes in a row. *)
Theorem slugify_shape (text : string) :
  str_forallb (fun c => is_slug_char c || (c =? "-")%char) (slugify text) = true
  /\ startsWith (slugify text) "-" = false
  /\ endsWith (slugify text) "-" = false
  /\ (forall a b, slugify text <> a +++ "--" +++ b).
Proof.
  pose proof (slugify_slug text) as H.
  pose proof (is_slug_body _ H) as Hb.
  repeat split.
  - exact (slug_body_chars _ Hb).
  - destruct (slugify text) as [| c s]; [reflexivity |].
    unfold is_slug in H. apply andb_true_iff in H.
    rewrite starts_dash. exact (slug_char_not_dash c (proj1 H)).
  - exact (slug_body_end _ Hb).
  - intros a b E. rewrite E in Hb. apply slug_body_suffix in Hb. discriminate Hb.
Qed.

Lemma dash_runs_slug (s : string) (inRun : bool) :
  slug_body s = true ->
  inRun = false \/ startsWith s "-" = false ->
  dash_runs inRun s = s.
Proof.
  revert inRun; induction s as [| c s IH]; intros inRun; [reflexivity |].
  cbn [slug_body dash_runs]. destruct (is_slug_char c) eqn:Hs.
  - intros Hb _. rewrite (IH false Hb (or_introl eq_refl)). reflexivity.
  - intros H Hrun. apply andb_true_iff in H. destruct H as [H Hb].
    apply andb_true_iff in H. destruct H as [Hc Hnext].
    apply Ascii.eqb_eq in Hc. subst c.
    destruct Hrun as [-> | Hrun]; [| rewrite starts_dash in Hrun; discriminate].
    rewrite (IH true Hb); [reflexivity |].
    right. destruct s as [| e s]; [discriminate |].
    rewrite starts_dash. exact (slug_char_not_dash e Hnext).
Qed.

Lemma strip_trailing_dash_slug (s : string) :
  slug_body s = true -> strip_trailing_dash s = s.
Proof.
  induction s as [| c s IH]; [reflexivity |].
  cbn [slug_body strip_trailing_dash]. destruct (is_slug_char c) eqn:Hs.
  - intros Hb. rewrite (slug_char_not_dash c Hs), (IH Hb). reflexivity.
  - intros H. apply andb_true_iff in H. destruct H as [H Hb].
    apply andb_true_iff in H. destruct H as [_ Hnext].
    destruct s as [| e s]; [discriminate |].
    cbn [nonempty negb]. rewrite andb_false_r, (IH Hb). reflexivity.
Qed.

Lemma toLowerCase_slug (s : string) :
  slug_body s = true -> toLowerCase s = s.
Proof.
  intros H. apply slug_body_chars in H. unfold toLowerCase.
  induction s as [| c s IH]; [reflexivity |].
  cbn [str_forallb] in H. apply andb_true_iff in H. destruct H as [Hc Hs].
  cbn [str_map]. rewrite (IH Hs). f_equal.
  destruct (is_slug_char c) eqn:E; [exact (slug_char_lower c E) |].
  cbn [orb] in Hc. apply Ascii.eqb_eq in Hc. subst c. reflexivity.
Qed.

Lemma slugify_slug_fixed (s : string) : is_slug s = true -> slugify s = s.
Proof.
  intros H. pose proof (is_slug_body _ H) as Hb.
  unfold slugify, strip_edge_dashes. rewrite (toLowerCase_slug s Hb).
  rewrite (dash_runs_slug s false Hb (or_introl eq_refl)).
  assert (Hl : strip_leading_dash s = s).
  { destruct s as [| c s]; [reflexivity |].
    unfold is_slug in H. apply andb_true_iff in H. destruct H as [Hc _].
    rewrite strip_leading_dash_cons, (slug_char_not_dash c Hc). reflexivity. }
  rewrite Hl. exact (strip_trailing_dash_slug s Hb).
Qed.

(** X18. [slugify] applied to an anchor that it made gives the same
    anchor: making the anchor of a title twice is the same as making it
    once. *)
Theorem slugify_idempotent (text : string) :
  slugify (slugify text) = slugify text.
Proof. exact (slugify_slug_fixed _ (slugify_slug text)). Qed.

(** ** The session key *)

Lemma find_first {A} (p : A -> bool) (l : list A) (x : A) :
  find p l = Some x <->
  exists before after,
    l = before ++ x :: after /\ p x = true /\ Forall (fun y => p y = false) before.
Proof.
  split.
  - induction l as [| y l IH]; cbn [find]; [discriminate |].
    destruct (p y) eqn:Hy.
    + intros E; inversion E; subst y. exists [], l. repeat split; [exact Hy | constructor].
    + intros E. destruct (IH E) as [before [after [-> [Hx Hb]]]].
      exists (y :: before), after. repeat split; [exact Hx | constructor; assumption].
  - intros [before [after [-> [Hx Hb]]]].
    induction Hb as [| y before Hy _ IH]; cbn [app find].
    + rewrite Hx. reflexivity.
    + rewrite Hy. exact IH.
Qed.

(** X19. [resolveSessionKey] gives a key exactly in two cases: the
    variable CLAUDE_SESSION_KEY holds it and it is not empty; or that
    variable is unset or empty, CLAUDE_COOKIES_FILE names a file that
    holds an array of cookies, and the key is the value, not empty, of
    the first cookie of the array whose name is sessionKey. A key that
    is returned is never empty. *)
Theorem resolveSessionKey_cases (env : ProcessEnv)
    (readCookies : string -> option (list Cookie)) (key : string) :
  resolveSessionKey env readCookies = Some key
  <-> nonempty key = true
      /\ (CLAUDE_SESSION_KEY env = Some key
          \/ (truthy (CLAUDE_SESSION_KEY env) = false
              /\ exists path before entry after,
                   CLAUDE_COOKIES_FILE env = Some path
                   /\ nonempty path = true
                   /\ readCookies path = Some (before ++ entry :: after)
                   /\ Forall (fun c => (cookie_name c =? "sessionKey")%string = false) before
                   /\ cookie_name entry = "sessionKey"
                   /\ cookie_value entry = key)).
Proof.
  unfold resolveSessionKey.
  set (fromFile := match CLAUDE_COOKIES_FILE env with Some _ => _ | None => _ end).
  assert (Hfile : fromFile = Some key <->
            nonempty key = true
            /\ exists path before entry after,
                 CLAUDE_COOKIES_FILE env = Some path
                 /\ nonempty path = true
                 /\ readCookies path = Some (before ++ entry :: after)
                 /\ Forall (fun c => (cookie_name c =? "sessionKey")%string = false) before
                 /\ cookie_name entry = "sessionKey"
                 /\ cookie_value entry = key).
  { subst fromFile. split.
    - destruct (CLAUDE_COOKIES_FILE env) as [path |]; [| discriminate].
      destruct (nonempty path) eqn:Hp; [| discriminate].
      destruct (readCookies path) as [cookies |] eqn:Hr; [| discriminate].
      destruct (find _ cookies) as [entry |] eqn:Hf; [| discriminate].
      destruct (nonempty (cookie_value entry)) eqn:Hv; [| discriminate].
      intros E; inversion E; subst key. split; [exact Hv |].
      apply find_first in Hf. destruct Hf as [before [after [-> [Hn Hb]]]].
      exists path, before, entry, after.
      repeat split; try assumption. apply String.eqb_eq; exact Hn.
    - intros [Hk [path [before [entry [after [-> [Hp [-> [Hb [Hn Hv]]]]]]]]]].
      rewrite Hp.
      assert (Hf : find (fun c => (cookie_name c =? "sessionKey")%string)
                     (before ++ entry :: after) = Some entry).
      { apply find_first. exists before, after. repeat split; [| exact Hb].
        apply String.eqb_eq; exact Hn. }
      rewrite Hf, Hv, Hk. reflexivity. }
  destruct (CLAUDE_SESSION_KEY env) as [k |]; cbn [truthy].
  - destruct (nonempty k) eqn:Hk.
    + split.
      * intros E; inversion E; subst k. split; [exact Hk | left; reflexivity].
      * intros [_ [E | [E _]]]; [exact E | discriminate].
    + rewrite Hfile. split.
      * intros [Hn H]. split; [exact Hn | right; split; [reflexivity | exact H]].
      * intros [Hn [E | [_ H]]]; [| split; assumption].
        inversion E; subst k. rewrite Hn in Hk; discriminate.
  - rewrite Hfile. split.
    + intros [Hn H]. split; [exact Hn | right; split; [reflexivity | exact H]].
    + intros [Hn [E | [_ H]]]; [discriminate | split; assumption].
Qed.

(** ** The provider of the chat service *)

Lemma first_match_cons {A} (m : string -> option A) (c : ascii) (s : string) :
  first_match m (String c s)
  = match m (String c s) with
    | Some r => Some r
    | None => first_match m s
    end.
Proof. reflexivity. Qed.

Lemma first_match_here {A} (m : string -> option A) (s : string) (x : A) :
  m s = Some x -> first_match m s = Some x.
Proof. intros H. destruct s; cbn [first_match]; rewrite H; reflexivity. Qed.

Lemma take_uuid_prefix (id rest : string) :
  test_uuid id = true -> take_uuid (id +++ rest) = Some id.
Proof.
  intros Ht. unfold take_uuid. cbv zeta.
  assert (Hl : String.length id = 36)
    by (unfold test_uuid in Ht; apply andb_true_iff in Ht; apply Nat.eqb_eq; tauto).
  rewrite <- Hl, str_take_append, Ht. reflexivity.
Qed.

Lemma resolved_key_configured (env : ProcessEnv)
    (readCookies : string -> option (list Cookie)) (key : string) :
  resolveSessionKey env readCookies = Some key ->
  negb (truthy (CLAUDE_SESSION_KEY env)) && negb (truthy (CLAUDE_COOKIES_FILE env)) = false.
Proof.
  unfold resolveSessionKey.
  destruct (CLAUDE_SESSION_KEY env) as [k |]; cbn [truthy].
  - destruct (nonempty k); [reflexivity |].
    destruct (CLAUDE_COOKIES_FILE env) as [path |]; [| discriminate].
    cbn [truthy]. destruct (nonempty path); [reflexivity | discriminate].
  - destruct (CLAUDE_COOKIES_FILE env) as [path |]; [| discriminate].
    cbn [truthy]. destruct (nonempty path); [reflexivity | discriminate].
Qed.

(** X20. Whenever [resolveSessionKey] finds a key, the provider accepts
    the address of a chat, https://claude.ai/chat/ followed by 36
    hexadecimal digits or dashes and by anything, and the identifier
    that [extract] reads from it is those 36 characters. *)
Theorem claude_chat_address (env : ProcessEnv)
    (readCookies : string -> option (list Cookie)) (key id rest : string) :
  resolveSessionKey env readCookies = Some key ->
  test_uuid id = true ->
  ClaudeProvider_canHandle env ("https://claude.ai/chat/" +++ id +++ rest) = true
  /\ CHAT_RE ("https://claude.ai/chat/" +++ id +++ rest) = Some id.
Proof.
  intros Hkey Hid.
  assert (E : CHAT_RE ("https://claude.ai/chat/" +++ id +++ rest) = Some id).
  { unfold CHAT_RE.
    set (m := fun t => match lit_ci "claude.ai/chat/" t with
                       | Some r => take_uuid r
                       | None => None
                       end).
    cbn [String.append].
    do 8 (rewrite first_match_cons;
          match goal with
          | |- context [m (String ?c ?s)] =>
              change (m (String c s)) with (@None string)
          end; cbv iota).
    apply first_match_here. exact (take_uuid_prefix id rest Hid). }
  split; [| exact E].
  unfold ClaudeProvider_canHandle.
  rewrite (resolved_key_configured env readCookies key Hkey), E. reflexivity.
Qed.

Lemma claude_chat_address_witness :
  ClaudeProvider_canHandle (mkEnv (Some "sk-ant-sid01-example") None None)
    ("https://claude.ai/chat/" +++ "0f8fad5b-d9cb-469f-a165-70867728950e" +++ "?tab=1") = true
  /\ CHAT_RE ("https://claude.ai/chat/" +++ "0f8fad5b-d9cb-469f-a165-70867728950e" +++ "?tab=1")
     = Some "0f8fad5b-d9cb-469f-a165-70867728950e".
Proof.
  apply (claude_chat_address (mkEnv (Some "sk-ant-sid01-example") None None)
           (fun _ => None) "sk-ant-sid01-example"
           "0f8fad5b-d9cb-469f-a165-70867728950e" "?tab=1");
    vm_compute; reflexivity.
Defined.

(** ** Conversations fetched one after the other *)

Lemma fetchConversation_ok {Data : Type} (chatId : string)
    (reply : ConversationReply Data) (data : Data) :
  fetchConversation chatId reply = inl data
  <-> exists httpStatus,
        reply = ConversationResponse true httpStatus (Some data)
        /\ httpStatus <> 401 /\ httpStatus <> 403.
Proof.
  split.
  - destruct reply as [| ok httpStatus body]; cbn [fetchConversation]; [discriminate |].
    destruct (httpStatus =? 401) eqn:H1; [discriminate |].
    destruct (httpStatus =? 403) eqn:H3; [discriminate |].
    cbn [orb]. destruct ok; [| discriminate]. cbn [negb].
    destruct body as [d |]; [| discriminate].
    intros E; inversion E; subst d. exists httpStatus.
    apply Nat.eqb_neq in H1, H3. repeat split; assumption.
  - intros [httpStatus [-> [H1 H3]]]. cbn [fetchConversation].
    apply Nat.eqb_neq in H1, H3. rewrite H1, H3. reflexivity.
Qed.

Lemma fetchMultipleFrom_app {Data : Type}
    (network : nat -> string -> ConversationReply Data) (a b : list string) (i : nat) :
  fetchMultipleFrom network i (a ++ b)
  = fetchMultipleFrom network i a ++ fetchMultipleFrom network (i + List.length a) b.
Proof.
  revert i; induction a as [| x a IH]; intros i; cbn [app fetchMultipleFrom List.length].
  - rewrite Nat.add_0_r. reflexivity.
  - rewrite (IH (S i)). replace (S i + List.length a) with (i + S (List.length a)) by lia.
    destruct (fetchConversation x (network i x)); reflexivity.
Qed.

Lemma fetchMultipleFrom_shift {Data : Type}
    (network : nat -> string -> ConversationReply Data) (l : list string) (i k : nat) :
  fetchMultipleFrom network (i + k) l = fetchMultipleFrom (fun j => network (i + j)) k l.
Proof.
  revert k; induction l as [| x l IH]; intros k; [reflexivity |].
  cbn [fetchMultipleFrom]. rewrite <- (IH (S k)).
  replace (S (i + k)) with (i + S k) by lia. reflexivity.
Qed.

Lemma fetchMultipleFrom_in {Data : Type}
    (network : nat -> string -> ConversationReply Data) (l : list string) (i : nat)
    (chatId : string) (data : Data) :
  In (chatId, data) (fetchMultipleFrom network i l)
  <-> exists k, nth_error l k = Some chatId
                /\ fetchConversation chatId (network (i + k) chatId) = inl data.
Proof.
  revert i; induction l as [| x l IH]; intros i; cbn [fetchMultipleFrom].
  - split; [intros [] | intros [[| k] [H _]]; discriminate H].
  - assert (Hrest : In (chatId, data) (fetchMultipleFrom network (S i) l)
                    <-> exists k, nth_error (x :: l) (S k) = Some chatId
                          /\ fetchConversation chatId (network (i + S k) chatId) = inl data).
    { rewrite (IH (S i)). split; intros [k [Hk Hf]]; exists k; split; try exact Hk.
      - replace (i + S k) with (S i + k) by lia. exact Hf.
      - replace (S i + k) with (i + S k) by lia. exact Hf. }
    split.
    + intros H.
      assert (Hcases : (x = chatId /\ fetchConversation x (network i x) = inl data)
                       \/ In (chatId, data) (fetchMultipleFrom network (S i) l)).
      { destruct (fetchConversation x (network i x)) as [d |] eqn:Hx.
        - destruct H as [E | H]; [| right; exact H].
          inversion E; subst. left; split; reflexivity.
        - right; exact H. }
      destruct Hcases as [[-> Hf] | Hin].
      * exists 0. rewrite Nat.add_0_r. split; [reflexivity | exact Hf].
      * apply Hrest in Hin. destruct Hin as [k Hk]. exists (S k). exact Hk.
    + intros [[| k] [Hk Hf]].
      * cbn [nth_error] in Hk. inversion Hk; subst x.
        rewrite Nat.add_0_r in Hf. rewrite Hf. left; reflexivity.
      * assert (Hin : In (chatId, data) (fetchMultipleFrom network (S i) l)).
        { apply Hrest. exists k. split; assumption. }
        destruct (fetchConversation x (network i x)); [right |]; exact Hin.
Qed.

(** X21. [fetchMultipleConversations] skips the failures and goes on:
    a conversation is in the result exactly when it was asked for at
    some position and the answer there was a response that is ok, is
    neither 401 nor 403 and carries the data; and the result for a list
    of identifiers is the result for its first part followed by the
    result for the rest, whatever failed before. *)
Theorem fetchMultipleConversations_skips_failures {Data : Type}
    (network : nat -> string -> ConversationReply Data) (chatIds : list string) :
  (forall chatId data,
     In (chatId, data) (fetchMultipleConversations network chatIds)
     <-> exists i httpStatus,
           nth_error chatIds i = Some chatId
           /\ network i chatId = ConversationResponse true httpStatus (Some data)
           /\ httpStatus <> 401 /\ httpStatus <> 403)
  /\ (forall first rest,
        chatIds = first ++ rest ->
        fetchMultipleConversations network chatIds
        = fetchMultipleConversations network first
          ++ fetchMultipleConversations (fun i => network (List.length first + i)) rest).
Proof.
  unfold fetchMultipleConversations. split.
  - intros chatId data. rewrite fetchMultipleFrom_in. split.
    + intros [k [Hk Hf]]. cbn [Nat.add] in Hf. apply fetchConversation_ok in Hf.
      destruct Hf as [httpStatus Hf]. exists k, httpStatus. split; [exact Hk | exact Hf].
    + intros [k [httpStatus [Hk Hf]]]. exists k. split; [exact Hk |].
      cbn [Nat.add]. apply fetchConversation_ok. exists httpStatus. exact Hf.
  - intros first rest ->. rewrite fetchMultipleFrom_app. cbn [Nat.add].
    rewrite <- (fetchMultipleFrom_shift network rest (List.length first) 0).
    rewrite Nat.add_0_r. reflexivity.
Qed.

(** ** The text of an article: [stripHtml] *)

Lemma replace_all_skip (m : string -> option string) (rep : string) (k : nat)
    (s : string) :
  replace_all m rep k s = replace_all m rep 0 (str_drop k s).
Proof.
  revert k; induction s as [| c s IH]; intros k; [destruct k; reflexivity |].
  destruct k as [| k]; [reflexivity |].
  cbn [replace_all str_drop]. exact (IH k).
Qed.

Lemma str_drop_append (a b : string) : str_drop (String.length a) (a +++ b) = b.
Proof. induction a as [| c a IH]; [destruct b; reflexivity | exact IH]. Qed.

Lemma span_spec (p : ascii -> bool) (s : string) :
  s = fst (span p s) +++ snd (span p s)
  /\ str_forallb p (fst (span p s)) = true
  /\ match snd (span p s) with
     | String d _ => p d = false
     | EmptyString => True
     end.
Proof.
  induction s as [| c s IH]; [repeat split |].
  cbn [span]. destruct (p c) eqn:Hc.
  - destruct (span p s) as [a b]. cbn [fst snd] in *.
    destruct IH as [E [Ha Hb]]. repeat split.
    + cbn [String.append]. rewrite <- E. reflexivity.
    + cbn [str_forallb]. rewrite Hc, Ha. reflexivity.
    + exact Hb.
  - cbn [fst snd]. repeat split. exact Hc.
Qed.

(** A replacement leaves alone a text without the character with
    which every match starts. *)
Lemma replace_without (m : string -> option string) (rep : string) (x : ascii)
    (s : string) :
  (forall c t, (c =? x)%char = false -> m (String c t) = None) ->
  str_forallb (fun c => negb (c =? x)%char) s = true ->
  replace m rep s = s.
Proof.
  intros Hm. unfold replace. induction s as [| c s IH]; [reflexivity |].
  cbn [str_forallb replace_all]. intros H. apply andb_true_iff in H.
  destruct H as [Hc Hs]. apply negb_true_iff in Hc.
  rewrite (Hm c s Hc), (IH Hs). reflexivity.
Qed.

Lemma lower_char_is (c x : ascii) :
  is_upper x = false -> is_lower x = false ->
  (c =? x)%char = false -> (lower_char c =? x)%char = false.
Proof.
  intros Hu Hl Hc. unfold lower_char. destruct (is_upper c) eqn:Huc; [| exact Hc].
  apply Ascii.eqb_neq. intros E. subst x.
  assert (Hlow : is_lower (byte (code c + 32)) = true).
  { clear Hu Hl Hc. unfold is_upper, in_range in Huc.
    apply andb_true_iff in Huc. destruct Huc as [H1 H2].
    apply Nat.leb_le in H1, H2.
    unfold is_lower, in_range. rewrite code_byte by lia.
    apply andb_true_iff; split; apply Nat.leb_le; lia. }
  rewrite Hlow in Hl. discriminate.
Qed.

Lemma lit_ci_head (x : ascii) (lit : string) (c : ascii) (t : string) :
  is_upper x = false -> is_lower x = false ->
  (c =? x)%char = false -> lit_ci (String x lit) (String c t) = None.
Proof.
  intros Hu Hl Hc. unfold lit_ci. cbn [String.length str_take toLowerCase str_map].
  cbn [String.eqb]. rewrite (lower_char_is c x Hu Hl Hc). reflexivity.
Qed.

Lemma strip_prefix_head (x : ascii) (p : string) (c : ascii) (t : string) :
  (c =? x)%char = false -> strip_prefix (String x p) (String c t) = None.
Proof. intros Hc. cbn [strip_prefix]. rewrite Ascii.eqb_sym, Hc. reflexivity. Qed.

(** X22. A text without the characters [<] and [&] has no tag and no
    entity for [stripHtml] to replace: what comes out is the text with
    each run of three or more line feeds cut down to two, trimmed. *)
Theorem stripHtml_plain_text (html : string) :
  str_forallb (fun c => negb (c =? "<")%char) html = true ->
  str_forallb (fun c => negb (c =? "&")%char) html = true ->
  stripHtml html = trim (replace re_blank_lines (LF +++ LF) html).
Proof.
  intros Hlt Hamp. unfold stripHtml. cbv zeta.
  rewrite (replace_without re_br LF "<" html); [| | exact Hlt].
  2:{ intros c t Hc. unfold re_br. rewrite lit_ci_head by (reflexivity || exact Hc).
      reflexivity. }
  rewrite (replace_without (lit_ci "</p>") (LF +++ LF) "<" html); [| | exact Hlt].
  2:{ intros c t Hc. apply lit_ci_head; reflexivity || exact Hc. }
  rewrite (replace_without re_heading_end (LF +++ LF) "<" html); [| | exact Hlt].
  2:{ intros c t Hc. unfold re_heading_end.
      rewrite lit_ci_head by (reflexivity || exact Hc). reflexivity. }
  rewrite (replace_without (lit_ci "</li>") LF "<" html); [| | exact Hlt].
  2:{ intros c t Hc. apply lit_ci_head; reflexivity || exact Hc. }
  rewrite (replace_without re_li "- " "<" html); [| | exact Hlt].
  2:{ intros c t Hc. unfold re_li. rewrite lit_ci_head by (reflexivity || exact Hc).
      reflexivity. }
  rewrite (replace_without re_tag EmptyString "<" html); [| | exact Hlt].
  2:{ intros c t Hc. unfold re_tag. rewrite strip_prefix_head by exact Hc. reflexivity. }
  rewrite (replace_without (strip_prefix "&amp;") "&" "&" html); [| | exact Hamp].
  2:{ intros c t Hc. apply strip_prefix_head; exact Hc. }
  rewrite (replace_without (strip_prefix "&lt;") "<" "&" html); [| | exact Hamp].
  2:{ intros c t Hc. apply strip_prefix_head; exact Hc. }
  rewrite (replace_without (strip_prefix "&gt;") ">" "&" html); [| | exact Hamp].
  2:{ intros c t Hc. apply strip_prefix_head; exact Hc. }
  rewrite (replace_without (strip_prefix "&quot;") QUOTE "&" html); [| | exact Hamp].
  2:{ intros c t Hc. apply strip_prefix_head; exact Hc. }
  rewrite (replace_without (strip_prefix "&#39;") APOSTROPHE "&" html); [| | exact Hamp].
  2:{ intros c t Hc. apply strip_prefix_head; exact Hc. }
  rewrite (replace_without (strip_prefix "&nbsp;") " " "&" html); [| | exact Hamp].
  2:{ intros c t Hc. apply strip_prefix_head; exact Hc. }
  reflexivity.
Qed.

Lemma stripHtml_plain_text_witness :
  stripHtml ("  Terms and conditions: 3 > 2" +++ LF +++ LF +++ LF +++ LF +++ "The end. ")
  = "Terms and conditions: 3 > 2" +++ LF +++ LF +++ "The end.".
Proof.
  rewrite (stripHtml_plain_text
             ("  Terms and conditions: 3 > 2" +++ LF +++ LF +++ LF +++ LF +++ "The end. "));
    vm_compute; reflexivity.
Defined.

Lemma is_lf (c : ascii) : (code c =? 10) = (byte 10 =? c)%char.
Proof. ascii_cases c; vm_compute; reflexivity. Qed.

Lemma starts_lf (c : ascii) (s : string) :
  startsWith (String c s) LF = (code c =? 10).
Proof.
  unfold startsWith, LF; cbn [strip_prefix]. rewrite is_lf.
  destruct (Ascii.eqb (byte 10) c); reflexivity.
Qed.

Lemma starts_blank_lines (c : ascii) (s : string) :
  startsWith (String c s) (LF +++ LF +++ LF)
  = (code c =? 10) && startsWith s (LF +++ LF).
Proof.
  unfold startsWith, LF; cbn [String.append strip_prefix]. rewrite is_lf.
  destruct (Ascii.eqb (byte 10) c); reflexivity.
Qed.

Lemma starts_two_lf (c : ascii) (s : string) :
  startsWith (String c s) (LF +++ LF) = (code c =? 10) && startsWith s LF.
Proof.
  unfold startsWith, LF; cbn [String.append strip_prefix]. rewrite is_lf.
  destruct (Ascii.eqb (byte 10) c); reflexivity.
Qed.

Lemma replace_all_cons (m : string -> option string) (rep : string) (c : ascii)
    (s : string) :
  replace_all m rep 0 (String c s)
  = match m (String c s) with
    | Some r => rep +++ replace_all m rep (String.length s - String.length r) s
    | None => String c (replace_all m rep 0 s)
    end.
Proof. reflexivity. Qed.

Lemma starts_empty (c : ascii) (p : string) :
  startsWith EmptyString (String c p) = false.
Proof. reflexivity. Qed.

Ltac lf_starts :=
  cbn [no_blank_lines];
  unfold LF;
  cbn [String.append];
  fold LF;
  repeat (rewrite starts_empty
          || (change (String (byte 10) (String (byte 10) (String (byte 10) EmptyString)))
                with (LF +++ LF +++ LF); rewrite starts_blank_lines)
          || (change (String (byte 10) (String (byte 10) EmptyString))
                with (LF +++ LF); rewrite starts_two_lf)
          || rewrite starts_lf).

Lemma starts_two_of_one (s : string) :
  startsWith s LF = false -> startsWith s (LF +++ LF) = false.
Proof.
  destruct s as [| c s]; [reflexivity |]. rewrite starts_lf, starts_two_lf.
  intros ->. reflexivity.
Qed.

Lemma blank_lines_none (s : string) :
  String.length (fst (span (fun c => code c =? 10) s)) < 3 ->
  re_blank_lines s = None.
Proof.
  unfold re_blank_lines. destruct (span _ s) as [a b]. cbn [fst]. intros H.
  apply Nat.leb_gt in H. rewrite H. reflexivity.
Qed.

(** What the last replacement of [stripHtml] gives has no three line
    feeds in a row, and starts with a line feed only if the text does. *)
Lemma blank_lines_collapsed (n : nat) (s : string) :
  String.length s <= n ->
  no_blank_lines (replace re_blank_lines (LF +++ LF) s) = true
  /\ (startsWith s LF = false ->
      startsWith (replace re_blank_lines (LF +++ LF) s) LF = false).
Proof.
  unfold replace. revert s; induction n as [| n IH]; intros s Hn.
  { destruct s; [split; reflexivity | cbn [String.length] in Hn; lia]. }
  destruct s as [| c1 s1]; [split; reflexivity |].
  cbn [String.length] in Hn.
  destruct (code c1 =? 10) eqn:H1.
  2:{ (* an ordinary character *)
    cbn [replace_all]. rewrite blank_lines_none by (cbn [span]; rewrite H1; cbn; lia).
    destruct (IH s1 ltac:(lia)) as [Hb _]. split.
    - cbn [no_blank_lines]. rewrite starts_blank_lines, H1, Hb. reflexivity.
    - intros _. rewrite starts_lf. exact H1. }
  split; [| rewrite starts_lf, H1; discriminate].
  destruct s1 as [| c2 s2].
  { cbn [replace_all]. rewrite blank_lines_none by (cbn [span]; rewrite H1; cbn; lia).
    lf_starts. rewrite andb_false_r. reflexivity. }
  cbn [String.length] in Hn.
  destruct (code c2 =? 10) eqn:H2.
  2:{ (* one line feed *)
    cbn [replace_all].
    rewrite blank_lines_none by (cbn [span]; rewrite H1, H2; cbn; lia).
    rewrite blank_lines_none by (cbn [span]; rewrite H2; cbn; lia).
    destruct (IH s2 ltac:(lia)) as [Hb _].
    cbn [no_blank_lines]. rewrite !starts_blank_lines, H1, H2, Hb.
    rewrite starts_two_lf, H2. reflexivity. }
  destruct s2 as [| c3 s3].
  { cbn [replace_all].
    rewrite blank_lines_none by (cbn [span]; rewrite H1, H2; cbn; lia).
    rewrite blank_lines_none by (cbn [span]; rewrite H2; cbn; lia).
    lf_starts. rewrite !andb_false_r. reflexivity. }
  cbn [String.length] in Hn.
  destruct (code c3 =? 10) eqn:H3.
  2:{ (* two line feeds *)
    cbn [replace_all].
    rewrite blank_lines_none by (cbn [span]; rewrite H1, H2, H3; cbn; lia).
    rewrite blank_lines_none by (cbn [span]; rewrite H2, H3; cbn; lia).
    rewrite blank_lines_none by (cbn [span]; rewrite H3; cbn; lia).
    destruct (IH s3 ltac:(lia)) as [Hb _].
    cbn [no_blank_lines]. rewrite !starts_blank_lines, H1, H2, H3, Hb.
    rewrite !starts_two_lf, H2, H3, starts_lf, H3. reflexivity. }
  (* three line feeds or more *)
  destruct (span_spec (fun c => code c =? 10) s3) as [E [Ha Hb]].
  set (a := fst (span (fun c => code c =? 10) s3)) in *.
  set (b := snd (span (fun c => code c =? 10) s3)) in *.
  assert (Hm : re_blank_lines (String c1 (String c2 (String c3 s3))) = Some b).
  { unfold re_blank_lines. cbn [span]. rewrite H1, H2, H3.
    rewrite (surjective_pairing (span (fun c => code c =? 10) s3)).
    fold a b. cbn [String.length]. reflexivity. }
  rewrite replace_all_cons, Hm, replace_all_skip.
  assert (Hdrop : str_drop (String.length (String c2 (String c3 s3)) - String.length b)
                    (String c2 (String c3 s3)) = b).
  { rewrite E at 2. rewrite E at 1.
    change (String c2 (String c3 (a +++ b))) with (String c2 (String c3 a) +++ b).
    rewrite length_append.
    replace (String.length (String c2 (String c3 a)) + String.length b - String.length b)
      with (String.length (String c2 (String c3 a))) by lia.
    apply str_drop_append. }
  rewrite Hdrop.
  assert (Hlen : String.length b <= n).
  { apply (f_equal String.length) in E. rewrite length_append in E. lia. }
  destruct (IH b Hlen) as [Hnb Hstart].
  assert (Hs : startsWith b LF = false).
  { destruct b as [| d b']; [reflexivity |]. rewrite starts_lf. exact Hb. }
  specialize (Hstart Hs).
  unfold LF at 1 2. cbn [String.append no_blank_lines].
  rewrite !starts_blank_lines, !starts_two_lf, Hstart, Hnb.
  rewrite (starts_two_of_one _ Hstart), !andb_false_r. reflexivity.
Qed.

Lemma no_blank_lines_suffix (a b : string) :
  no_blank_lines (a +++ b) = true -> no_blank_lines b = true.
Proof.
  induction a as [| c a IH]; [trivial |].
  cbn [String.append no_blank_lines]. intros H.
  apply andb_true_iff in H. exact (IH (proj2 H)).
Qed.

Lemma startsWith_append (a b p : string) :
  startsWith a p = true -> startsWith (a +++ b) p = true.
Proof.
  unfold startsWith. destruct (strip_prefix p a) as [r |] eqn:E; [| discriminate].
  intros _. apply strip_prefix_spec in E. subst a.
  rewrite append_assoc.
  destruct (strip_prefix p (p +++ r +++ b)) eqn:E'; [reflexivity |].
  assert (H : strip_prefix p (p +++ r +++ b) = Some (r +++ b))
    by (apply strip_prefix_spec; reflexivity).
  rewrite H in E'. discriminate.
Qed.

Lemma no_blank_lines_prefix (a b : string) :
  no_blank_lines (a +++ b) = true -> no_blank_lines a = true.
Proof.
  induction a as [| c a IH]; [reflexivity |].
  cbn [String.append no_blank_lines]. intros H.
  apply andb_true_iff in H. destruct H as [Hs Hn].
  rewrite (IH Hn), andb_true_r.
  destruct (startsWith (String c a) (LF +++ LF +++ LF)) eqn:E; [| reflexivity].
  change (String c (a +++ b)) with (String c a +++ b) in Hs.
  rewrite (startsWith_append _ b _ E) in Hs. discriminate.
Qed.

(** X23. Whatever the markup, the text that [stripHtml] returns has no
    white space at its start or at its end and never three line feeds in
    a row: paragraphs are at most one empty line apart. *)
Theorem stripHtml_tidy (html : string) :
  starts_with_space (stripHtml html) = false
  /\ ends_with_space (stripHtml html) = false
  /\ no_blank_lines (stripHtml html) = true.
Proof.
  unfold stripHtml. cbv zeta.
  match goal with
  | |- context [trim ?t] => set (s13 := t)
  end.
  destruct (trim_clean s13) as [Hs He].
  repeat split; [exact Hs | exact He |].
  destruct (trim_piece s13) as [a [b E]].
  assert (H : no_blank_lines s13 = true).
  { subst s13.
    match goal with
    | |- no_blank_lines (replace re_blank_lines _ ?t) = true =>
        exact (proj1 (blank_lines_collapsed (String.length t) t (le_n _)))
    end. }
  rewrite E in H. apply no_blank_lines_suffix in H.
  exact (no_blank_lines_prefix _ _ H).
Qed.
